(** * Finance tracker: validators, search, storage and record store

    A shallow embedding of the JavaScript modules [validators.js],
    [search.js], [storage.js] and [state.js] of the finance tracker, and the
    properties its specification states about them; then further properties
    of these modules and of the submission of the form in [app.js].

    Conventions of the embedding.
    - A JavaScript string is the list of its UTF-16 code units ([jsstring]).
      Fixed texts of the program (messages, field names, rule names) are
      ASCII and are kept as Rocq strings; [lit] turns one into a [jsstring].
    - A JavaScript number is an exact rational or NaN ([number]) where the
      program only reads, stores and compares numbers: rounding to binary64
      and the two infinities are not modelled there.  The budget, which adds
      and subtracts, is computed on binary64 values ([Binary64]).
    - Regular expressions are abstract syntax trees run by a backtracking
      matcher with continuations, the way ECMAScript defines them.
    - What the program takes from its host (the clock, the time zone, the
      collation of [localeCompare], the [RegExp] constructor, [JSON.parse],
      random identifiers) is an explicit argument. *)

From Stdlib Require Import ZArith QArith Qabs Qpower Lia Bool String Ascii SpecFloat.
From stdpp Require Import base option list strings gmap pretty.

Local Open Scope N_scope.

(** ** JavaScript strings *)

Module JS.

Abbreviation jsstring := (list N).

(** The code units of an ASCII text. *)
Definition lit (s : string) : jsstring :=
  map N_of_ascii (list_ascii_of_string s).

Definition in_range (lo hi x : N) : bool := (lo <=? x) && (x <=? hi).

(** ECMAScript LineTerminator: LF, CR, LS, PS. *)
Definition is_line_terminator (x : N) : bool :=
  (x =? 10) || (x =? 13) || (x =? 8232) || (x =? 8233).

(** ECMAScript WhiteSpace and LineTerminator, the set that [trim] strips and
    that [\s] matches: TAB, VT, FF, SP, NBSP, the Zs category and ZWNBSP. *)
Definition is_white_space (x : N) : bool :=
  in_range 9 13 x || (x =? 32) || (x =? 160) || (x =? 5760)
  || in_range 8192 8202 x || (x =? 8232) || (x =? 8233) || (x =? 8239)
  || (x =? 8287) || (x =? 12288) || (x =? 65279).

Definition is_digit (x : N) : bool := in_range 48 57 x.

(** [\w] without the unicode flag: [A-Za-z0-9_]. *)
Definition is_word (x : N) : bool :=
  in_range 65 90 x || in_range 97 122 x || is_digit x || (x =? 95).

Fixpoint drop_while (p : N -> bool) (s : jsstring) : jsstring :=
  match s with
  | [] => []
  | x :: t => if p x then drop_while p t else s
  end.

Definition trimStart (s : jsstring) : jsstring := drop_while is_white_space s.

(** [String.prototype.trim]. *)
Definition trim (s : jsstring) : jsstring :=
  rev (drop_while is_white_space (rev (trimStart s))).

Definition eqs (a b : jsstring) : bool := bool_decide (a = b).

Definition startsWith (s : jsstring) (c : N) : bool :=
  match s with x :: _ => x =? c | [] => false end.

Definition endsWith (s : jsstring) (c : N) : bool := startsWith (rev s) c.

(** [s.slice(1, -1)]. *)
Definition slice_1_m1 (s : jsstring) : jsstring :=
  match s with
  | [] => []
  | _ :: t => removelast t
  end.

(** [s.includes(c)] for a one-character [c]. *)
Definition includes (s : jsstring) (c : N) : bool := existsb (N.eqb c) s.

(** Truthiness of a string: every string but the empty one. *)
Definition truthy_str (s : jsstring) : bool :=
  match s with [] => false | _ => true end.

(** ** JavaScript numbers *)

Inductive number :=
| NaN
| Num (q : Q).

Definition nadd (a b : number) : number :=
  match a, b with Num x, Num y => Num (x + y) | _, _ => NaN end.
Definition nsub (a b : number) : number :=
  match a, b with Num x, Num y => Num (x - y) | _, _ => NaN end.
Definition nmul (a b : number) : number :=
  match a, b with Num x, Num y => Num (x * y) | _, _ => NaN end.
Definition nabs (a : number) : number :=
  match a with Num x => Num (Qabs x) | NaN => NaN end.

Definition Qltb (x y : Q) : bool :=
  match (x ?= y)%Q with Lt => true | _ => false end.

(** [a < b], [a > b], [a <= b]: false as soon as one side is NaN. *)
Definition nlt (a b : number) : bool :=
  match a, b with Num x, Num y => Qltb x y | _, _ => false end.
Definition ngt (a b : number) : bool := nlt b a.
Definition nle (a b : number) : bool :=
  match a, b with Num x, Num y => Qle_bool x y | _, _ => false end.

(** Truthiness of a number: neither zero nor NaN. *)
Definition truthy_num (a : number) : bool :=
  match a with Num x => negb (Qeq_bool x 0) | NaN => false end.

Definition of_Z (z : Z) : number := Num (inject_Z z).

(** The value of a run of decimal digits, most significant first. *)
Definition digits_value (ds : jsstring) : Z :=
  fold_left (fun acc d => 10 * acc + (Z.of_N d - 48))%Z ds 0%Z.

Fixpoint span_digits (s : jsstring) : jsstring * jsstring :=
  match s with
  | x :: t =>
      if is_digit x then let '(ds, r) := span_digits t in (x :: ds, r)
      else ([], s)
  | [] => ([], [])
  end.

Definition pow10 (n : nat) : positive := Z.to_pos (10 ^ Z.of_nat n).

(** An optional [+] or [-] in front of [s]: whether it is a minus, and what
    follows it. *)
Definition take_sign (s : jsstring) : bool * jsstring :=
  match s with
  | x :: t =>
      if x =? 45 then (true, t)
      else if x =? 43 then (false, t)
      else (false, s)
  | [] => (false, s)
  end.

(** The ExponentPart that [s] starts with, 0 when it starts with none. *)
Definition exponent_part (s : jsstring) : Z :=
  match s with
  | x :: t =>
      if (x =? 101) || (x =? 69) then
        let '(neg, t') := take_sign t in
        let '(ds, _) := span_digits t' in
        match ds with
        | [] => 0%Z
        | _ => if neg then (- digits_value ds)%Z else digits_value ds
        end
      else 0%Z
  | [] => 0%Z
  end.

(** [parseFloat]: leading white space is skipped and the longest prefix that
    is a decimal literal is read; NaN when there is none.  The literal
    [Infinity] is outside the number model and reads as NaN here. *)
Definition parseFloat (s : jsstring) : number :=
  let '(neg, s1) := take_sign (trimStart s) in
  let '(ip, r1) := span_digits s1 in
  let '(fp, r2) :=
    match r1 with
    | x :: t => if x =? 46 then span_digits t else ([], r1)
    | [] => ([], r1)
    end in
  match ip ++ fp with
  | [] => NaN
  | ds =>
      let v := ((digits_value ds # pow10 (length fp))
                * Qpower (10 # 1) (exponent_part r2))%Q in
      Num (if neg then (- v)%Q else v)
  end.

End JS.

(** ** Regular expressions *)

Module Regex.
Import JS.

(** Atoms that consume one code unit. *)
Inductive cclass :=
| CLit (c : N)              (* a pattern character *)
| CAny                      (* [.] *)
| CDigit                    (* [\d] *)
| CWord                     (* [\w] *)
| CSpace                    (* [\s] *)
| CNotSpace                 (* [\S] *)
| COneOf (cs : list N)      (* [[abc]] *)
| CRange (lo hi : N).       (* [[a-z]] *)

Inductive regex :=
| Eps
| Chr (c : cclass)
| Bol                       (* [^] *)
| Eol                       (* [$] *)
| WordB                     (* [\b] *)
| Seq (r1 r2 : regex)
| Alt (r1 r2 : regex)
| Star (r : regex)          (* greedy [r*] *)
| Group (i : nat) (r : regex)   (* capturing group number [i] *)
| Backref (i : nat).        (* [\i] *)

Definition Plus (r : regex) : regex := Seq r (Star r).
Definition Opt (r : regex) : regex := Alt r Eps.

Fixpoint seqs (rs : list regex) : regex :=
  match rs with
  | [] => Eps
  | [r] => r
  | r :: rs' => Seq r (seqs rs')
  end.

(** The characters of an ASCII text, one after the other. *)
Definition text (s : string) : regex := seqs (map (fun c => Chr (CLit c)) (lit s)).

(** Canonicalize of the ignoreCase flag.  Letters outside ASCII never fold
    onto ASCII ones, so for patterns made of ASCII characters and classes the
    ASCII folding below is the whole of it. *)
Definition canonicalize (x : N) : N :=
  if in_range 97 122 x then x - 32 else x.

Definition lower (x : N) : N :=
  if in_range 65 90 x then x + 32 else x.

Definition class_mem (ic : bool) (cl : cclass) (x : N) : bool :=
  match cl with
  | CLit c => if ic then canonicalize x =? canonicalize c else x =? c
  | CAny => negb (is_line_terminator x)
  | CDigit => is_digit x
  | CWord => is_word x
  | CSpace => is_white_space x
  | CNotSpace => negb (is_white_space x)
  | COneOf cs =>
      if ic then existsb (fun c => canonicalize x =? canonicalize c) cs
      else existsb (N.eqb x) cs
  | CRange lo hi =>
      in_range lo hi x
      || (ic && (in_range lo hi (canonicalize x) || in_range lo hi (lower x)))
  end.

(** The matcher state: the input read so far (last unit first), the input to
    come, and the captures. *)
Record cursor := Cursor {
  seen : jsstring;
  rest : jsstring;
  caps : gmap nat jsstring
}.

Definition start (s : jsstring) : cursor := Cursor [] s ∅.

Definition step_over (c : cursor) (n : nat) : cursor :=
  Cursor (rev (take n (rest c)) ++ seen c) (drop n (rest c)) (caps c).

Definition at_word_boundary (c : cursor) : bool :=
  let a := match seen c with x :: _ => is_word x | [] => false end in
  let b := match rest c with x :: _ => is_word x | [] => false end in
  xorb a b.

(** The input between two cursors of one run. *)
Definition between (c c' : cursor) : jsstring :=
  rev (take (length (seen c') - length (seen c)) (seen c')).

(** The groups of [r], whose captures a new iteration of [r*] clears. *)
Fixpoint groups (r : regex) : list nat :=
  match r with
  | Seq a b | Alt a b => groups a ++ groups b
  | Star a => groups a
  | Group i a => i :: groups a
  | _ => []
  end.

Definition clear_caps (gs : list nat) (c : cursor) : cursor :=
  Cursor (seen c) (rest c) (foldr delete (caps c) gs).

Definition same_text (ic : bool) (a b : jsstring) : bool :=
  if ic then eqs (map canonicalize a) (map canonicalize b) else eqs a b.

Section Matcher.
Context {A : Type}.
Variable ic : bool.

(** The loop of a greedy [r*], with [mr] the matcher of [r] and [gs] the
    groups of [r]: one more iteration is tried first, and an iteration that
    reads nothing is refused; then the continuation.  [n] bounds the
    number of iterations and is the length of the input to come. *)
Definition star_loop (mr : cursor -> (cursor -> option A) -> option A)
  (gs : list nat) (k : cursor -> option A) : nat -> cursor -> option A :=
  fix loop (n : nat) (c : cursor) : option A :=
    match
      match n with
      | O => None
      | S n' =>
          mr (clear_caps gs c)
             (fun c' =>
                if (length (rest c') <? length (rest c))%nat
                then loop n' c' else None)
      end
    with
    | Some a => Some a
    | None => k c
    end.

(** [m r c k]: match [r] at [c], then hand the cursor reached to the
    continuation [k]; on failure of [k] the next way of matching [r] is
    tried (greedy repetition first, left alternative first). *)
Fixpoint m (r : regex) (c : cursor) (k : cursor -> option A) : option A :=
  match r with
  | Eps => k c
  | Chr cl =>
      match rest c with
      | x :: t =>
          if class_mem ic cl x then k (Cursor (x :: seen c) t (caps c))
          else None
      | [] => None
      end
  | Bol => match seen c with [] => k c | _ => None end
  | Eol => match rest c with [] => k c | _ => None end
  | WordB => if at_word_boundary c then k c else None
  | Seq r1 r2 => m r1 c (fun c1 => m r2 c1 k)
  | Alt r1 r2 =>
      match m r1 c k with
      | Some a => Some a
      | None => m r2 c k
      end
  | Star r1 => star_loop (m r1) (groups r1) k (length (rest c)) c
  | Group i r1 =>
      m r1 c (fun c' =>
        k (Cursor (seen c') (rest c') (<[i := between c c']> (caps c'))))
  | Backref i =>
      match caps c !! i with
      | None => k c
      | Some w =>
          let n := length w in
          if (n <=? length (rest c))%nat && same_text ic (take n (rest c)) w
          then k (step_over c n) else None
      end
  end.
End Matcher.

(** The first match of [r] that starts at or after the cursor [c]: where it
    starts and where it ends. *)
Fixpoint search_from (ic : bool) (r : regex) (sn rs : jsstring)
  : option (cursor * cursor) :=
  match m ic r (Cursor sn rs ∅) Some with
  | Some c' => Some (Cursor sn rs ∅, c')
  | None =>
      match rs with
      | [] => None
      | x :: t => search_from ic r (x :: sn) t
      end
  end.

(** [RegExp.prototype.test] on a regular expression without the global and
    sticky flags: is there a match anywhere in [s]. *)
Definition test (ic : bool) (r : regex) (s : jsstring) : bool :=
  bool_decide (is_Some (search_from ic r [] s)).

(** [s.replace(r, repl)] for a global [r] and a replacement text without
    [$] patterns: every match, from left to right and without overlap, is
    replaced.  After an empty match the search resumes one unit further. *)
Fixpoint replace_go (fuel : nat) (ic : bool) (r : regex) (repl sn rs : jsstring)
  : jsstring :=
  match fuel with
  | O => rs
  | S fuel' =>
      let skip :=
        match rs with
        | [] => []
        | x :: t => x :: replace_go fuel' ic r repl (x :: sn) t
        end in
      match m ic r (Cursor sn rs ∅) Some with
      | Some c' =>
          if (length (rest c') <? length rs)%nat
          then repl ++ replace_go fuel' ic r repl (seen c') (rest c')
          else repl ++ skip
      | None => skip
      end
  end.

Definition replace_all (ic : bool) (r : regex) (repl s : jsstring) : jsstring :=
  replace_go (S (length s)) ic r repl [] s.

(** The matches of [r] as a relation: [Match ic r c c'] when [r] can read the
    input from [c] to [c'].  The matcher [m] enumerates these in its order of
    preference. *)
Inductive Match (ic : bool) : regex -> cursor -> cursor -> Prop :=
| M_Eps c : Match ic Eps c c
| M_Chr cl x t sn cp :
    class_mem ic cl x = true ->
    Match ic (Chr cl) (Cursor sn (x :: t) cp) (Cursor (x :: sn) t cp)
| M_Bol c : seen c = [] -> Match ic Bol c c
| M_Eol c : rest c = [] -> Match ic Eol c c
| M_WordB c : at_word_boundary c = true -> Match ic WordB c c
| M_Seq r1 r2 c c1 c2 :
    Match ic r1 c c1 -> Match ic r2 c1 c2 -> Match ic (Seq r1 r2) c c2
| M_AltL r1 r2 c c' : Match ic r1 c c' -> Match ic (Alt r1 r2) c c'
| M_AltR r1 r2 c c' : Match ic r2 c c' -> Match ic (Alt r1 r2) c c'
| M_Star0 r c : Match ic (Star r) c c
| M_StarS r c c1 c2 :
    Match ic r (clear_caps (groups r) c) c1 ->
    (length (rest c1) < length (rest c))%nat ->
    Match ic (Star r) c1 c2 ->
    Match ic (Star r) c c2
| M_Group i r c c' :
    Match ic r c c' ->
    Match ic (Group i r) c
      (Cursor (seen c') (rest c') (<[i := between c c']> (caps c')))
| M_BackrefNone i c : caps c !! i = None -> Match ic (Backref i) c c
| M_BackrefSome i c w :
    caps c !! i = Some w ->
    (length w <= length (rest c))%nat ->
    same_text ic (take (length w) (rest c)) w = true ->
    Match ic (Backref i) c (step_over c (length w)).

End Regex.

(** ** Dates of the host *)

Module JSDate.
Import JS.
Local Open Scope Z_scope.

(** What [Date] takes from the host.  [tza] is the offset of the standard
    time of the zone from UTC, in milliseconds.  [dst t isUTC] is the daylight
    saving adjustment in effect at [t], which is a UTC time value when
    [isUTC] is [true] and a local time value when it is [false]: their sum is
    the [LocalTZA(t, isUTC)] of ECMAScript, and how the host decides it near a
    change of the clocks is the host's own business.  [rolls_over] tells
    whether the parser of ISO dates lets a day beyond the end of its month (up
    to 31) roll over into the next month, as V8 does, or answers Invalid Date,
    as SpiderMonkey and JavaScriptCore do. *)
Record host := HostDST {
  tza : Z;
  dst : Z -> bool -> Z;
  rolls_over : bool
}.

(** A host whose zone has no daylight saving: one fixed offset. *)
Definition Host (tza : Z) (rolls_over : bool) : host :=
  HostDST tza (fun _ _ => 0) rolls_over.

Definition msPerDay : Z := 86400000.

Definition Day (t : Z) : Z := t / msPerDay.
Definition TimeWithinDay (t : Z) : Z := t mod msPerDay.
Definition MakeDate (day time : Z) : Z := day * msPerDay + time.

(** Day number (days since 1970-01-01) of the civil date [y]-[mth]-[d], with
    [mth] from 1 to 12.  It is linear in [d]: a day past the end of the
    month lands in the months that follow. *)
Definition days_from_civil (y mth d : Z) : Z :=
  let y' := if mth <=? 2 then y - 1 else y in
  let era := y' / 400 in
  let yoe := y' mod 400 in
  let mp := (mth + 9) mod 12 in
  let doy := (153 * mp + 2) / 5 + d - 1 in
  let doe := yoe * 365 + yoe / 4 - yoe / 100 + doy in
  era * 146097 + doe - 719468.

(** Year, month (1 to 12) and day of the month of a day number. *)
Definition civil_from_days (z : Z) : Z * Z * Z :=
  let z' := z + 719468 in
  let era := z' / 146097 in
  let doe := z' mod 146097 in
  let yoe := (doe - doe / 1460 + doe / 36524 - doe / 146096) / 365 in
  let doy := doe - (365 * yoe + yoe / 4 - yoe / 100) in
  let mp := (5 * doy + 2) / 153 in
  let d := doy - (153 * mp + 2) / 5 + 1 in
  let mth := if mp <? 10 then mp + 3 else mp - 9 in
  let y := yoe + era * 400 in
  (if mth <=? 2 then y + 1 else y, mth, d).

Definition YearFromTime (t : Z) : Z := fst (fst (civil_from_days (Day t))).
(** Months count from 0, as in ECMAScript. *)
Definition MonthFromTime (t : Z) : Z := snd (fst (civil_from_days (Day t))) - 1.
Definition DateFromTime (t : Z) : Z := snd (civil_from_days (Day t)).

(** [MakeDay(year, month, date)] with a 0-based month. *)
Definition MakeDay (year month date : Z) : Z :=
  days_from_civil (year + month / 12) (month mod 12 + 1) date.

Definition LocalTZA (h : host) (t : Z) (isUTC : bool) : Z := tza h + dst h t isUTC.

Definition LocalTime (h : host) (t : Z) : Z := t + LocalTZA h t true.
Definition UTC (h : host) (t : Z) : Z := t - LocalTZA h t false.

(** A [Date] object is its time value, milliseconds since the epoch in UTC;
    [None] is the Invalid Date. *)
Abbreviation date := (option Z).

Definition getFullYear (h : host) (t : Z) : Z := YearFromTime (LocalTime h t).

(** [d.setFullYear(year)] on a valid date: the year changes, the local
    month, day and time of day stay. *)
Definition setFullYear (h : host) (t : Z) (year : Z) : Z :=
  let lt := LocalTime h t in
  UTC h (MakeDate (MakeDay year (MonthFromTime lt) (DateFromTime lt))
                  (TimeWithinDay lt)).

Definition is_leap (y : Z) : bool :=
  (y mod 4 =? 0) && (negb (y mod 100 =? 0) || (y mod 400 =? 0)).

Definition days_in_month (y mth : Z) : Z :=
  if mth =? 2 then (if is_leap y then 29 else 28)
  else if (mth =? 4) || (mth =? 6) || (mth =? 9) || (mth =? 11) then 30
  else 31.

(** [new Date(s)] for a date-only ISO text [YYYY-MM-DD]: midnight UTC of that
    day.  Texts of another shape are not modelled and read as Invalid Date
    here; [validateForm] hands over only texts that passed the date
    pattern. *)
Definition parse_date (h : host) (s : jsstring) : date :=
  match s with
  | [y1; y2; y3; y4; h1; m1; m2; h2; d1; d2] =>
      if (h1 =? 45)%N && (h2 =? 45)%N
         && forallb is_digit [y1; y2; y3; y4; m1; m2; d1; d2] then
        let y := digits_value [y1; y2; y3; y4] in
        let mth := digits_value [m1; m2] in
        let d := digits_value [d1; d2] in
        if (1 <=? mth) && (mth <=? 12) && (1 <=? d) && (d <=? 31)
           && (rolls_over h || (d <=? days_in_month y mth))
        then Some (MakeDate (MakeDay y (mth - 1) d) 0)
        else None
      else None
  | _ => None
  end.

(** [a > b] and [a < b] on dates compare time values; with an Invalid Date
    on the left both are false. *)
Definition after (a : date) (b : Z) : bool :=
  match a with Some t => b <? t | None => false end.
Definition before (a : date) (b : Z) : bool :=
  match a with Some t => t <? b | None => false end.

End JSDate.

(** ** validators.js *)

Module Validators.
Import JS Regex JSDate.
Local Open Scope string_scope.

Definition digit19 : regex := Chr (CRange 49 57).
Definition digit : regex := Chr CDigit.
Definition ch (c : string) : regex := text c.

(** The four patterns of [REGEX_PATTERNS].  In the comments their source
    text is written with blanks between its parts. *)

(** description:   ^ \S (?: .* \S )? $ *)
Definition re_description : regex :=
  seqs [Bol; Chr CNotSpace; Opt (Seq (Star (Chr CAny)) (Chr CNotSpace)); Eol].

(** amount:   ^ ( 0 | [1-9] \d* ) ( \. \d{1,2} )? $ *)
Definition re_amount : regex :=
  seqs [Bol;
        Group 1 (Alt (ch "0") (Seq digit19 (Star digit)));
        Opt (Group 2 (seqs [ch "."; digit; Opt digit]));
        Eol].

(** date:   ^ \d{4} - ( 0[1-9] | 1[0-2] ) - ( 0[1-9] | [12]\d | 3[01] ) $ *)
Definition re_date : regex :=
  seqs [Bol; digit; digit; digit; digit; ch "-";
        Group 1 (Alt (Seq (ch "0") digit19) (Seq (ch "1") (Chr (CRange 48 50))));
        ch "-";
        Group 2 (Alt (Seq (ch "0") digit19)
                (Alt (Seq (Chr (COneOf [49; 50]%N)) digit)
                     (Seq (ch "3") (Chr (COneOf [48; 49]%N)))));
        Eol].

(** duplicateWords, with the ignoreCase flag:   \b ( \w+ ) \s+ \1 \b *)
Definition re_duplicateWords : regex :=
  seqs [WordB; Group 1 (Plus (Chr CWord)); Plus (Chr CSpace); Backref 1; WordB].

(** The table of patterns, each with its ignoreCase flag. *)
Definition REGEX_PATTERNS : gmap string (bool * regex) :=
  list_to_map
    [("description", (false, re_description));
     ("amount", (false, re_amount));
     ("date", (false, re_date));
     ("duplicateWords", (true, re_duplicateWords))].

Record field_result := FieldResult {
  isValid : bool;
  message : string
}.

(** [!value || value.trim() === ''] *)
Definition blank (value : jsstring) : bool :=
  negb (truthy_str value) || eqs (trim value) [].

Definition getValidationMessage (ruleName : string) : string :=
  let messages : gmap string string :=
    list_to_map
      [("amount", "Amount must be a positive number with maximum 2 decimal places.");
       ("date", "Date must be in YYYY-MM-DD format.");
       ("duplicateWords", "Description contains duplicate words.")] in
  default "Invalid format." (messages !! ruleName).

Definition validateField (ruleName : string) (value : jsstring) : field_result :=
  if blank value then FieldResult false "This field is required."
  else
    match REGEX_PATTERNS !! ruleName with
    | None => FieldResult false "Unknown validation rule."
    | Some (ic, regex) =>
        if String.eqb ruleName "description" && negb (test ic regex (trim value))
        then FieldResult false "Description cannot have leading or trailing spaces."
        else if negb (test ic regex value)
        then FieldResult false (getValidationMessage ruleName)
        else FieldResult true EmptyString
    end.

Record form_result := FormResult {
  form_isValid : bool;
  errors : gmap string string;
  warnings : gmap string string
}.

(** [field.charAt(0).toUpperCase() + field.slice(1)] on an ASCII name. *)
Definition capitalize (field : string) : string :=
  match field with
  | EmptyString => EmptyString
  | String c t => String (ascii_of_N (canonicalize (N_of_ascii c))) t
  end.

Definition fail (field msg : string) (r : form_result) : form_result :=
  FormResult false (<[field := msg]> (errors r)) (warnings r).

Definition warn (name msg : string) (r : form_result) : form_result :=
  FormResult (form_isValid r) (errors r) (<[name := msg]> (warnings r)).

Definition requiredFields : list string :=
  ["description"; "amount"; "date"; "category"].

(** A form is an object from field names to texts; a field that is absent
    reads as [undefined]. *)
Abbreviation form := (gmap string jsstring).

(** A field that is present and not the empty text: [if (formData.f)]. *)
Definition given (formData : form) (field : string) : option jsstring :=
  match formData !! field with
  | Some v => if truthy_str v then Some v else None
  | None => None
  end.

Definition check_required (formData : form) (field : string) (r : form_result)
  : form_result :=
  match formData !! field with
  | Some v =>
      if blank v then fail field (capitalize field ++ " is required.") r else r
  | None => fail field (capitalize field ++ " is required.") r
  end.

Definition check_description (formData : form) (r : form_result) : form_result :=
  match given formData "description" with
  | Some v =>
      let descResult := validateField "description" v in
      if isValid descResult then r else fail "description" (message descResult) r
  | None => r
  end.

Definition check_amount (formData : form) (r : form_result) : form_result :=
  match given formData "amount" with
  | Some v =>
      let amountResult := validateField "amount" v in
      if negb (isValid amountResult) then fail "amount" (message amountResult) r
      else
        let amount := parseFloat v in
        if nle amount (of_Z 0) then fail "amount" "Amount must be greater than 0." r
        else if ngt amount (Num (99999999 # 100))
        then fail "amount" "Amount is too large." r
        else r
  | None => r
  end.

(** [today] and [now'] are the two readings of the clock, the one of
    [const today = new Date()] and the one of [const oneYearAgo = new Date()]
    that follows it. *)
Definition check_date (h : host) (today now' : Z) (formData : form)
  (r : form_result) : form_result :=
  match given formData "date" with
  | Some v =>
      let dateResult := validateField "date" v in
      if negb (isValid dateResult) then fail "date" (message dateResult) r
      else
        let inputDate := parse_date h v in
        let oneYearAgo := setFullYear h now' (getFullYear h today - 1) in
        if after inputDate today then fail "date" "Date cannot be in the future." r
        else if before inputDate oneYearAgo
        then fail "date" "Date cannot be more than one year ago." r
        else r
  | None => r
  end.

Definition check_duplicateWords (formData : form) (r : form_result) : form_result :=
  match given formData "description" with
  | Some v =>
      if test true re_duplicateWords v
      then warn "duplicateWords" "Warning: Description contains duplicate words." r
      else r
  | None => r
  end.

Definition check_largeAmount (formData : form) (r : form_result) : form_result :=
  match given formData "amount" with
  | Some v =>
      if ngt (parseFloat v) (of_Z 10000)
      then warn "largeAmount" "Warning: This is a large amount. Please verify." r
      else r
  | None => r
  end.

Definition validateForm (h : host) (today now' : Z) (formData : form) : form_result :=
  let r0 := FormResult true ∅ ∅ in
  let r1 := foldl (fun r field => check_required formData field r) r0 requiredFields in
  let r2 := check_description formData r1 in
  let r3 := check_amount formData r2 in
  let r4 := check_date h today now' formData r3 in
  let r5 := check_duplicateWords formData r4 in
  check_largeAmount formData r5.

(** [sanitizeInput] on a text.  Anything that is not a text is handed back as
    it is, which [sanitizeAndValidateForm] below does for an absent field. *)
Definition sanitizeInput (input : jsstring) : jsstring :=
  let s1 := replace_all false (Chr (COneOf [60; 62]%N)) [] input in
  let s2 := replace_all true (ch "javascript:") [] s1 in
  let s3 := replace_all true
              (seqs [ch "on"; Plus (Chr CWord); Star (Chr CSpace); ch "="]) [] s2 in
  let s4 := replace_all false (ch "&") (lit "&amp;") s3 in
  let s5 := replace_all false (Chr (CLit 34%N)) (lit "&quot;") s4 in
  let s6 := replace_all false (ch "'") (lit "&#x27;") s5 in
  let s7 := replace_all false (ch "/") (lit "&#x2F;") s6 in
  trim s7.

Definition copy_field (f : jsstring -> jsstring) (field : string)
  (formData sanitized : form) : form :=
  match formData !! field with
  | Some v => <[field := f v]> sanitized
  | None => sanitized
  end.

Definition sanitizeAndValidateForm (h : host) (today now' : Z) (formData : form)
  : form * form_result :=
  let sanitized :=
    copy_field id "date" formData
      (copy_field sanitizeInput "category" formData
         (copy_field id "amount" formData
            (copy_field sanitizeInput "description" formData
               (copy_field id "id" formData ∅)))) in
  (sanitized, validateForm h today now' sanitized).

End Validators.

(** ** search.js *)

Module Search.
Import JS Regex.
Local Open Scope string_scope.

(** The [RegExp] constructor of the host: the compiled objects, the
    constructor ([None] when it throws a SyntaxError) and whether an object
    finds a match in a text when searching from its start. *)
Class RegExpHost := {
  RegExp : Type;
  RegExp_new : jsstring -> jsstring -> option RegExp;
  matches : RegExp -> jsstring -> bool
}.

Section CompileRegex.
Context `{RegExpHost}.

(** [compileRegex(input, flags)].  The [try] block turns a SyntaxError of
    the constructor into [null]. *)
Definition compileRegex (input flags : jsstring) : option RegExp :=
  if negb (truthy_str input) then None
  else
    let pattern := trim input in
    let pattern :=
      if startsWith pattern 47 && endsWith pattern 47
      then slice_1_m1 pattern else pattern in
    if negb (truthy_str pattern) then None
    else
      let flags := if includes flags 103 then flags else (flags ++ lit "g")%list in
      RegExp_new pattern flags.

(** [compileRegex(input)], with the default flags ['i']. *)
Definition compileRegex1 (input : jsstring) : option RegExp :=
  compileRegex input (lit "i").
End CompileRegex.

(** *** A fragment of the pattern language

    Patterns made of ASCII pattern characters, [.], [|] and capturing groups
    are read by the parser below.  In this fragment a pattern is a syntax
    error exactly when its parentheses do not balance.  Any other pattern is
    left to the host ([PNotModelled]). *)

Inductive parsed (A : Type) :=
| POk (a : A)
| PSyntaxError
| PNotModelled.
Arguments POk {A} a.
Arguments PSyntaxError {A}.
Arguments PNotModelled {A}.

(** The syntax characters that the fragment leaves out, and the units
    outside ASCII. *)
Definition outside_fragment (x : N) : bool :=
  existsb (N.eqb x) (lit "^$\*+?[]{}") || (128 <=? x)%N.

Fixpoint parse_disjunction (fuel : nat) (s : jsstring) (n : nat)
  : parsed (regex * jsstring * nat) :=
  match fuel with
  | O => PNotModelled
  | S fuel' =>
      match parse_alternative fuel' s n with
      | POk (r1, 124%N :: t, n1) =>
          match parse_disjunction fuel' t n1 with
          | POk (r2, s2, n2) => POk (Alt r1 r2, s2, n2)
          | e => e
          end
      | e => e
      end
  end
with parse_alternative (fuel : nat) (s : jsstring) (n : nat)
  : parsed (regex * jsstring * nat) :=
  match fuel with
  | O => PNotModelled
  | S fuel' =>
      match s with
      | [] => POk (Eps, [], n)
      | x :: t =>
          if (x =? 124)%N || (x =? 41)%N then POk (Eps, s, n)
          else if outside_fragment x then PNotModelled
          else if (x =? 40)%N then
            match parse_disjunction fuel' t (S n) with
            | POk (r, 41%N :: s1, n1) =>
                match parse_alternative fuel' s1 n1 with
                | POk (r', s2, n2) => POk (Seq (Group (S n) r) r', s2, n2)
                | e => e
                end
            | POk (_, _, _) => PSyntaxError
            | e => e
            end
          else
            match parse_alternative fuel' t n with
            | POk (r', s2, n2) =>
                POk (Seq (Chr (if (x =? 46)%N then CAny else CLit x)) r', s2, n2)
            | e => e
            end
      end
  end.

Definition has_outside (s : jsstring) : bool := existsb outside_fragment s.

Definition parse_pattern (s : jsstring) : parsed regex :=
  if has_outside s then PNotModelled
  else
    match parse_disjunction (2 * length s + 2) s 0 with
    | POk (r, [], _) => POk r
    | POk (_, _ :: _, _) => PSyntaxError
    | PSyntaxError => PSyntaxError
    | PNotModelled => PNotModelled
    end.

(** The flags, read when they are among [g] and [i] without repetition: the
    ignoreCase flag they give. *)
Definition parse_flags (f : jsstring) : option bool :=
  if forallb (fun x => (x =? 103)%N || (x =? 105)%N) f
     && bool_decide (NoDup f)
  then Some (includes f 105) else None.

(** A host agrees with ECMAScript on the fragment. *)
Definition conforms (h : RegExpHost) : Prop :=
  forall p f,
    match parse_pattern p, parse_flags f with
    | POk r, Some ic =>
        exists o, RegExp_new p f = Some o /\ forall s, matches o s = test ic r s
    | PSyntaxError, Some _ => RegExp_new p f = None
    | _, _ => True
    end.

(** The host that knows the fragment and nothing else. *)
Definition fragment_host : RegExpHost := {|
  RegExp := bool * regex;
  RegExp_new p f :=
    match parse_pattern p, parse_flags f with
    | POk r, Some ic => Some (ic, r)
    | _, _ => None
    end;
  matches o s := test (fst o) (snd o) s
|}.

End Search.

(** ** storage.js *)

Module Storage.
Import JS.
Local Open Scope string_scope.

#[local] Set Warnings "-register-all".

(** The values that [JSON.parse] builds.  An object maps its property names
    to values. *)
Inductive json :=
| JNull
| JBool (b : bool)
| JNum (n : number)
| JStr (s : jsstring)
| JArr (items : list json)
| JObj (props : gmap jsstring json).

(** What [importData] takes from the host: [JSON.parse], which answers a
    value or the message of the SyntaxError it throws, and the message of the
    TypeError thrown when a property of [null] is read. *)
Class JsonHost := {
  JSON_parse : jsstring -> json + string;
  null_property_message : string
}.

(** A computation that ends with a value or throws an error with a
    message. *)
Inductive outcome (A : Type) :=
| Return (a : A)
| Throw (msg : string).
Arguments Return {A} a.
Arguments Throw {A} msg.

Definition bind {A B} (x : outcome A) (f : A -> outcome B) : outcome B :=
  match x with
  | Return a => f a
  | Throw msg => Throw msg
  end.

Notation "'let*' x := c1 'in' c2" := (bind c1 (fun x => c2))
  (at level 10, x name, c1 at level 100, c2 at level 200).

(** The result of reading a property: a value, or [undefined]. *)
Abbreviation value := (option json).

Definition truthy (v : value) : bool :=
  match v with
  | None | Some JNull => false
  | Some (JBool b) => b
  | Some (JNum n) => truthy_num n
  | Some (JStr s) => truthy_str s
  | Some (JArr _) | Some (JObj _) => true
  end.

Definition is_string (v : value) : bool :=
  match v with Some (JStr _) => true | _ => false end.
Definition is_number (v : value) : bool :=
  match v with Some (JNum _) => true | _ => false end.

Section ImportData.
Context `{JsonHost}.

(** [record.name] for one of the five names that [importData] reads.  No
    prototype has a property of these names, so on anything but an object
    the answer is [undefined]; on [null] the read throws. *)
Definition get (record : json) (name : string) : outcome value :=
  match record with
  | JNull => Throw null_property_message
  | JObj props => Return (props !! lit name)
  | _ => Return None
  end.

(** The callback of [data.every]:
    [record.id && typeof record.description === 'string' &&
     typeof record.amount === 'number' && record.date && record.category],
    read as a condition. *)
Definition structurally_valid (record : json) : outcome bool :=
  let* i := get record "id" in
  if negb (truthy i) then Return false else
  let* d := get record "description" in
  if negb (is_string d) then Return false else
  let* a := get record "amount" in
  if negb (is_number a) then Return false else
  let* t := get record "date" in
  if negb (truthy t) then Return false else
  let* c := get record "category" in
  Return (truthy c).

(** [data.every(callback)]: stops at the first element the callback
    rejects. *)
Fixpoint every (data : list json) : outcome bool :=
  match data with
  | [] => Return true
  | record :: data' =>
      let* ok := structurally_valid record in
      if ok then every data' else Return false
  end.

Record import_result := ImportResult {
  success : bool;
  data : option (list json);
  message : string
}.

(** The body of the [try] block. *)
Definition import_body (jsonString : jsstring) : outcome import_result :=
  match JSON_parse jsonString with
  | inr msg => Throw msg
  | inl (JArr data) =>
      match data with
      | [] =>
          Return (ImportResult true (Some [])
                    "Import successful but no records were found.")
      | _ =>
          let* isValid := every data in
          if negb isValid
          then Throw "JSON structure is invalid or missing required fields."
          else
            Return (ImportResult true (Some data)
                      ("Successfully imported " ++ pretty (length data)
                       ++ " records."))
      end
  | inl _ => Throw "Data must be an array."
  end.

Definition importData (jsonString : jsstring) : import_result :=
  match import_body jsonString with
  | Return r => r
  | Throw msg => ImportResult false None msg
  end.
End ImportData.

End Storage.

(** ** state.js *)

Module State.
Import JS.
Local Open Scope string_scope.

(** A stored record. *)
Record record := Rec {
  id : jsstring;
  description : jsstring;
  amount : number;
  category : jsstring;
  date : jsstring;
  createdAt : jsstring;
  updatedAt : jsstring
}.

(** The [recordData] argument of [addRecord] and [updateRecord]: the fields
    of the form, the amount still a text. *)
Module RecordData.
Record t := Make {
  description : jsstring;
  amount : jsstring;
  category : jsstring;
  date : jsstring
}.
End RecordData.

(** The settings object; a key it does not have reads as [undefined]. *)
Record settings_t := Settings {
  baseCurrency : option jsstring;
  budgetCap : option number;
  alt1Symbol : option jsstring;
  alt1Rate : option number;
  alt2Symbol : option jsstring;
  alt2Rate : option number;
  theme : option jsstring
}.

Record sort_t := Sort {
  key : string;
  direction : string
}.

(** The module state, and with it the log of the collections handed to
    [saveRecords], the last one first. *)
Record store := Store {
  records : list record;
  settings : settings_t;
  currentSort : sort_t;
  saved : list (list record)
}.

(** The state when the module is loaded. *)
Definition initial : store :=
  Store [] (Settings None None None None None None None) (Sort "date" "desc") [].

Definition initializeState (initialRecords : list record)
  (initialSettings : settings_t) (st : store) : store :=
  Store initialRecords initialSettings (currentSort st) (saved st).

Definition getRecords (st : store) : list record := records st.

Definition saveRecords (l : list record) (st : store) : store :=
  Store (records st) (settings st) (currentSort st) (l :: saved st).

Definition set_records (l : list record) (st : store) : store :=
  Store l (settings st) (currentSort st) (saved st).

Definition set_currentSort (s : sort_t) (st : store) : store :=
  Store (records st) (settings st) s (saved st).

(** The value of [a[key]]. *)
Inductive field_value :=
| VUndefined
| VNum (n : number)
| VStr (s : jsstring).

Definition get_field (a : record) (key : string) : field_value :=
  if String.eqb key "id" then VStr (id a)
  else if String.eqb key "description" then VStr (description a)
  else if String.eqb key "amount" then VNum (amount a)
  else if String.eqb key "category" then VStr (category a)
  else if String.eqb key "date" then VStr (date a)
  else if String.eqb key "createdAt" then VStr (createdAt a)
  else if String.eqb key "updatedAt" then VStr (updatedAt a)
  else VUndefined.

(** [String(v)] for a value that is not a number. *)
Definition to_text (v : field_value) : jsstring :=
  match v with
  | VStr s => s
  | _ => lit "undefined"
  end.

(** [Array.prototype.sort] with a comparison function: a stable sort, here
    by insertion from the right.  A result of the comparison that is NaN
    counts as 0.  An element goes in front of the first one that it does not
    compare greater than, so elements that compare equal keep their order.
    With a comparison that is not consistent ECMAScript leaves the order to
    the implementation; [sort] is then one of the allowed results. *)
Section Sort.
Context {A : Type}.
Variable compareFn : A -> A -> number.

Definition greater (a b : A) : bool := ngt (compareFn a b) (of_Z 0).

Fixpoint insert (x : A) (l : list A) : list A :=
  match l with
  | [] => [x]
  | y :: l' => if greater x y then y :: insert x l' else x :: l
  end.

Definition sort (l : list A) : list A := foldr insert [] l.
End Sort.

(** Whether a list is in the order of [compareFn]: no element compares
    greater than the next one. *)
Fixpoint in_order {A : Type} (compareFn : A -> A -> number) (l : list A) : bool :=
  match l with
  | x :: ((y :: _) as l') => negb (greater compareFn x y) && in_order compareFn l'
  | _ => true
  end.

(** The collation of the host: the sign of [a.localeCompare(b)]. *)
Class Collation := {
  localeCompare : jsstring -> jsstring -> Z
}.

(** ECMAScript wants [localeCompare] to be a consistent comparison; of this
    the properties below use that swapping the texts swaps the sign. *)
Definition consistent (c : Collation) : Prop :=
  forall a b, Z.sgn (localeCompare b a) = (- Z.sgn (localeCompare a b))%Z.

(** A collation to compute with: texts compared unit by unit. *)
Fixpoint unit_compare (a b : jsstring) : Z :=
  match a, b with
  | [], [] => 0%Z
  | [], _ :: _ => (-1)%Z
  | _ :: _, [] => 1%Z
  | x :: a', y :: b' =>
      if (x <? y)%N then (-1)%Z else if (y <? x)%N then 1%Z else unit_compare a' b'
  end.

Definition unit_collation : Collation := {| localeCompare := unit_compare |}.

Section Store.
Context `{Collation}.

(** The comparison function inside [sortRecords].  The two values are read
    under one key, so they are numbers together or not at all. *)
Definition compareRecords (key direction : string) (a b : record) : number :=
  let valA := get_field a key in
  let valB := get_field b key in
  let comparison :=
    match valA, valB with
    | VNum x, VNum y => nsub x y
    | _, _ => of_Z (localeCompare (to_text valA) (to_text valB))
    end in
  if String.eqb direction "asc" then comparison
  else nmul comparison (of_Z (-1)).

(** [sortRecords]: the sorted copy; the call also makes [key] and
    [direction] the current sort order. *)
Definition sortRecords (recordsArray : list record) (key direction : string)
  (st : store) : list record * store :=
  (sort (compareRecords key direction) recordsArray,
   set_currentSort (Sort key direction) st).

(** [addRecord(recordData)].  [now] is the text of
    [new Date().toISOString()] and [uuid] the one of
    [crypto.randomUUID()]. *)
Definition addRecord (now uuid : jsstring) (recordData : RecordData.t)
  (st : store) : record * store :=
  let newId := (lit "txn_" ++ uuid)%list in
  let newRecord :=
    Rec newId
        (trim (RecordData.description recordData))
        (parseFloat (RecordData.amount recordData))
        (RecordData.category recordData)
        (RecordData.date recordData)
        now now in
  let st1 := set_records (newRecord :: records st) st in
  let '(sorted, st2) :=
    sortRecords (records st1) (key (currentSort st1))
                (direction (currentSort st1)) st1 in
  let st3 := set_records sorted st2 in
  (newRecord, saveRecords (records st3) st3).

(** [records.findIndex(r => r.id === id)] *)
Definition findIndex (i : jsstring) (l : list record) : option nat :=
  fst <$> list_find (fun r => id r = i) l.

Definition updateRecord (now : jsstring) (i : jsstring)
  (recordData : RecordData.t) (st : store) : option record * store :=
  match findIndex i (records st) with
  | None => (None, st)
  | Some index =>
      match records st !! index with
      | None => (None, st)
      | Some old =>
          let updatedRecord :=
            Rec (id old)
                (trim (RecordData.description recordData))
                (parseFloat (RecordData.amount recordData))
                (RecordData.category recordData)
                (RecordData.date recordData)
                (createdAt old) now in
          let st1 := set_records (<[index := updatedRecord]> (records st)) st in
          let '(sorted, st2) :=
            sortRecords (records st1) (key (currentSort st1))
                        (direction (currentSort st1)) st1 in
          let st3 := set_records sorted st2 in
          (Some updatedRecord, saveRecords (records st3) st3)
      end
  end.

Definition deleteRecord (i : jsstring) (st : store) : option record * store :=
  match findIndex i (records st) with
  | None => (None, st)
  | Some recordIndex =>
      let deletedRecord := records st !! recordIndex in
      let st1 :=
        set_records (filter (fun r => id r <> i) (records st)) st in
      (deletedRecord, saveRecords (records st1) st1)
  end.

Definition setSort (k d : string) (st : store) : store :=
  let st1 := set_currentSort (Sort k d) st in
  let '(sorted, st2) := sortRecords (records st1) k d st1 in
  let st3 := set_records sorted st2 in
  saveRecords (records st3) st3.
End Store.

Record budget_info := BudgetInfo {
  bi_budgetCap : number;
  totalSpent : number;
  remaining : number;
  isOverBudget : bool
}.

(** [records.reduce((sum, r) => sum + r.amount, 0)] *)
Definition sum_amounts (l : list record) : number :=
  foldl (fun sum r => nadd sum (amount r)) (of_Z 0) l.

(** [x || 0] for a number or [undefined]. *)
Definition or_zero (x : option number) : number :=
  match x with
  | Some n => if truthy_num n then n else of_Z 0
  | None => of_Z 0
  end.

Definition getBudgetInfo (st : store) : budget_info :=
  let totalSpent := sum_amounts (records st) in
  let budgetCap := or_zero (budgetCap (settings st)) in
  let remaining := nsub budgetCap totalSpent in
  let isOverBudget := nlt remaining (of_Z 0) in
  BudgetInfo budgetCap totalSpent (nabs remaining) isOverBudget.

Definition findRecordById (i : jsstring) (st : store) : option record :=
  snd <$> list_find (fun r => id r = i) (records st).

End State.

(** ** Numbers as binary64 values *)

Module Binary64.
Local Open Scope Z_scope.

(** A JavaScript number is a binary64 value of IEEE 754: a zero or an
    infinity with its sign, the one NaN, or a finite value with its sign, its
    mantissa and its exponent.  The operations are those of the standard
    library's specification of IEEE 754 arithmetic at 53 bits of precision,
    rounding to nearest, ties to even. *)
Definition prec : Z := 53.
Definition emax : Z := 1024.

Abbreviation binary64 := spec_float.

(** The values that are binary64 numbers: the mantissa of a finite one has
    at most 53 bits and its exponent is in range. *)
Definition is_binary64 (x : binary64) : Prop := valid_binary prec emax x = true.

Definition fadd : binary64 -> binary64 -> binary64 := SFadd prec emax.
Definition fsub : binary64 -> binary64 -> binary64 := SFsub prec emax.
Definition flt : binary64 -> binary64 -> bool := SFltb.
Definition fabs : binary64 -> binary64 := SFabs.

Definition zero : binary64 := S754_zero false.

(** Truthiness of a number: neither a zero nor NaN. *)
Definition truthy64 (x : binary64) : bool :=
  match x with
  | S754_zero _ | S754_nan => false
  | _ => true
  end.

(** A whole number from 1 to 2^53 as a binary64 value. *)
Definition of_pos (p : positive) : binary64 := binary_normalize prec emax (Zpos p) 0 false.

End Binary64.

(** ** state.js: the budget, on binary64 numbers *)

Module Budget.
Import JS Binary64.

Record record := Rec {
  id : jsstring;
  description : jsstring;
  amount : binary64;
  category : jsstring;
  date : jsstring;
  createdAt : jsstring;
  updatedAt : jsstring
}.

Record settings_t := Settings {
  baseCurrency : option jsstring;
  budgetCap : option binary64;
  alt1Symbol : option jsstring;
  alt1Rate : option binary64;
  alt2Symbol : option jsstring;
  alt2Rate : option binary64;
  theme : option jsstring
}.

(** The two variables of the module that [getBudgetInfo] reads. *)
Record store := Store {
  records : list record;
  settings : settings_t
}.

Record budget_info := BudgetInfo {
  bi_budgetCap : binary64;
  totalSpent : binary64;
  remaining : binary64;
  isOverBudget : bool
}.

(** [records.reduce((sum, r) => sum + r.amount, 0)] *)
Definition sum_amounts (l : list record) : binary64 :=
  foldl (fun sum r => fadd sum (amount r)) zero l.

(** [x || 0] for a number or [undefined]. *)
Definition or_zero (x : option binary64) : binary64 :=
  match x with
  | Some n => if truthy64 n then n else zero
  | None => zero
  end.

(** [getBudgetInfo()]: [remaining] is [budgetCap - totalSpent],
    [isOverBudget] is [remaining < 0], and the result holds
    [Math.abs(remaining)]. *)
Definition getBudgetInfo (st : store) : budget_info :=
  let totalSpent := sum_amounts (records st) in
  let budgetCap := or_zero (budgetCap (settings st)) in
  let remaining := fsub budgetCap totalSpent in
  let isOverBudget := flt remaining zero in
  BudgetInfo budgetCap totalSpent (fabs remaining) isOverBudget.

End Budget.

(** ** validators.js: the other validators *)

Module FieldFeedback.
Import JS Regex Validators State.
Local Open Scope string_scope.

Record currency_result := CurrencyResult {
  cs_isValid : bool;
  cs_errors : gmap string string
}.

Definition cs_fail (field msg : string) (r : currency_result) : currency_result :=
  CurrencyResult false (<[field := msg]> (cs_errors r)).

(** [!x || x <= 0] for a number or [undefined]. *)
Definition not_positive (x : option number) : bool :=
  match x with
  | Some n => negb (truthy_num n) || nle n (of_Z 0)
  | None => true
  end.

(** [x && (x <= 0 || x > 1000)] for a number or [undefined], read as a
    condition. *)
Definition out_of_range (x : option number) : bool :=
  match x with
  | Some n => truthy_num n && (nle n (of_Z 0) || ngt n (of_Z 1000))
  | None => false
  end.

(** [validateCurrencySettings(currencyData)], for an object whose
    [baseCurrency] is a text and whose [budgetCap], [alt1Rate] and [alt2Rate]
    are numbers, each of them possibly absent. *)
Definition validateCurrencySettings (currencyData : settings_t) : currency_result :=
  let r0 := CurrencyResult true ∅ in
  let r1 :=
    match baseCurrency currencyData with
    | Some s =>
        if blank s then cs_fail "baseCurrency" "Base currency symbol is required." r0
        else if (3 <? length s)%nat
        then cs_fail "baseCurrency" "Currency symbol must be 3 characters or less." r0
        else r0
    | None => cs_fail "baseCurrency" "Base currency symbol is required." r0
    end in
  let r2 :=
    if not_positive (budgetCap currencyData)
    then cs_fail "budgetCap" "Budget cap must be a positive number." r1 else r1 in
  let r3 :=
    if out_of_range (alt1Rate currencyData)
    then cs_fail "alt1Rate" "Alternative currency 1 rate must be between 0 and 1000." r2
    else r2 in
  if out_of_range (alt2Rate currencyData)
  then cs_fail "alt2Rate" "Alternative currency 2 rate must be between 0 and 1000." r3
  else r3.

(** The result of [validateFieldRealtime]; the result for an empty field has
    no [suggestion]. *)
Record realtime_result := RealtimeResult {
  rt_isValid : bool;
  rt_message : string;
  rt_warning : string;
  rt_suggestion : option string
}.

Definition validateFieldRealtime (fieldName : string) (value : jsstring)
  : realtime_result :=
  if blank value then RealtimeResult true EmptyString EmptyString None
  else
    let result := validateField fieldName value in
    let warning :=
      if String.eqb fieldName "description" && test true re_duplicateWords value
      then "Warning: Duplicate words detected." else EmptyString in
    let suggestion :=
      if String.eqb fieldName "amount" && truthy_str value && negb (isValid result)
      then
        if includes value 44 then "Use a period (.) instead of comma for decimals."
        else if startsWith value 48 && (1 <? length value)%nat
                && negb (includes value 46)
        then "Remove leading zeros."
        else EmptyString
      else EmptyString in
    RealtimeResult (isValid result) (message result) warning (Some suggestion).

End FieldFeedback.

(** ** app.js: the submission of the form *)

Module Submit.
Import JS JSDate Validators State.
Local Open Scope string_scope.

Section Form.
Context `{Collation}.

(** What [handleFormSubmit] does to the store, its messages and the views
    left aside.  The five texts are the values of the fields of the form;
    [today] and [now'] are the clock readings of the validation, [now] and
    [uuid] the time and the identifier that [addRecord] and [updateRecord]
    take from the host. *)
Definition handleFormSubmit (h : host) (today now' : Z) (now uuid : jsstring)
  (vid vdescription vamount vcategory vdate : jsstring) (st : store) : store :=
  let formData : form :=
    <["id" := vid]> (<["description" := vdescription]> (<["amount" := vamount]>
      (<["category" := vcategory]> (<["date" := vdate]> ∅)))) in
  let '(sanitizedData, validation) :=
    sanitizeAndValidateForm h today now' formData in
  if form_isValid validation then
    let field k := default [] (sanitizedData !! k) in
    let recordData :=
      RecordData.Make (field "description") (field "amount") (field "category")
                      (field "date") in
    if truthy_str (field "id")
    then (updateRecord now (field "id") recordData st).2
    else (addRecord now uuid recordData st).2
  else st.
End Form.

End Submit.

(** ** Regular expression objects *)

Module RegExpObject.
Import JS Regex.

(** A regular expression object whose pattern is a [regex]: its ignoreCase
    and global flags, the pattern and [lastIndex].  The sticky and the
    unicode flag are not modelled. *)
Record regexp := RegExpObj {
  ignoreCase : bool;
  global : bool;
  source : regex;
  lastIndex : nat
}.

Definition set_lastIndex (i : nat) (re : regexp) : regexp :=
  RegExpObj (ignoreCase re) (global re) (source re) i.

(** [RegExp.prototype.test].  With the global flag the search starts at
    [lastIndex], and [lastIndex] becomes the end of the match found, or 0
    when there is none; without it the search starts at 0 and [lastIndex]
    stays. *)
Definition RegExp_test (re : regexp) (s : jsstring) : bool * regexp :=
  if global re then
    if (length s <? lastIndex re)%nat then (false, set_lastIndex 0 re)
    else
      match search_from (ignoreCase re) (source re)
              (rev (take (lastIndex re) s)) (drop (lastIndex re) s) with
      | Some (_, c') => (true, set_lastIndex (length (seen c')) re)
      | None => (false, set_lastIndex 0 re)
      end
  else (test (ignoreCase re) (source re) s, re).

(** [s.replace(re, f)] for a global [re] and a replacement function [f] of
    the matched text: every match, from left to right and without overlap,
    is replaced by what [f] makes of it.  After an empty match the search
    resumes one unit further. *)
Fixpoint replace_with (fuel : nat) (ic : bool) (r : regex)
  (f : jsstring -> jsstring) (sn rs : jsstring) : jsstring :=
  match fuel with
  | O => rs
  | S fuel' =>
      let skip :=
        match rs with
        | [] => []
        | x :: t => x :: replace_with fuel' ic r f (x :: sn) t
        end in
      match m ic r (Cursor sn rs ∅) Some with
      | Some c' =>
          let matched := take (length rs - length (rest c')) rs in
          if (length (rest c') <? length rs)%nat
          then f matched ++ replace_with fuel' ic r f (seen c') (rest c')
          else f matched ++ skip
      | None => skip
      end
  end.

(** [s.replace(re, f)]: all matches with the global flag, and [lastIndex] is
    0 afterwards; the first match without it. *)
Definition String_replace (s : jsstring) (re : regexp) (f : jsstring -> jsstring)
  : jsstring * regexp :=
  if global re then
    (replace_with (S (length s)) (ignoreCase re) (source re) f [] s,
     set_lastIndex 0 re)
  else
    match search_from (ignoreCase re) (source re) [] s with
    | Some (c, c') =>
        (rev (seen c)
         ++ f (take (length (rest c) - length (rest c')) (rest c))
         ++ rest c', re)
    | None => (s, re)
    end.

End RegExpObject.

(** ** search.js: searching and highlighting *)

Module SearchRecords.
Import JS Regex RegExpObject State.
Local Open Scope string_scope.

(** The text of a number: [Number.prototype.toString].  A whole number
    between -2^53 and 2^53 is written with its decimal digits; the text of
    any other number is the host's, the digits of a binary64 value being
    outside the number model. *)
Class NumberHost := {
  fraction_toString : Q -> jsstring
}.

Definition is_safe_integer (q : Q) : bool :=
  (Z.pos (Qden (Qred q)) =? 1)%Z && (Z.abs (Qnum (Qred q)) <=? 2 ^ 53)%Z.

Definition Number_toString `{NumberHost} (n : number) : jsstring :=
  match n with
  | NaN => lit "NaN"
  | Num q =>
      if is_safe_integer q then lit (pretty (Qnum (Qred q)))
      else fraction_toString q
  end.

(** [a.filter(callback)] for a callback that changes a state. *)
Fixpoint filter_st {A S : Type} (callback : A -> S -> bool * S) (a : list A) (s : S)
  : list A * S :=
  match a with
  | [] => ([], s)
  | x :: a' =>
      let '(keep, s1) := callback x s in
      let '(kept, s2) := filter_st callback a' s1 in
      (if keep then x :: kept else kept, s2)
  end.

(** [f(x) || g()] on tests of one regular expression object. *)
Definition or_else (x : bool * regexp) (g : regexp -> bool * regexp) : bool * regexp :=
  if x.1 then x else g x.2.

Section Search.
Context `{NumberHost}.

(** The callback of [searchRecords]. *)
Definition record_matches (record : State.record) (searchRegex : regexp)
  : bool * regexp :=
  or_else (RegExp_test searchRegex (description record)) (fun re1 =>
  or_else (RegExp_test re1 (category record)) (fun re2 =>
  or_else (RegExp_test re2 (Number_toString (amount record))) (fun re3 =>
  RegExp_test re3 (date record)))).

(** [searchRecords(records, searchRegex)]: the records kept, and the regular
    expression object as the tests leave it. *)
Definition searchRecords (records : list State.record) (searchRegex : option regexp)
  : list State.record * option regexp :=
  match searchRegex with
  | None => (records, None)
  | Some re =>
      let '(kept, re') := filter_st record_matches records re in (kept, Some re')
  end.

(** The callback of [filterRecords] in state.js, which leaves the date
    out. *)
Definition record_matches3 (r : State.record) (searchRegex : regexp)
  : bool * regexp :=
  or_else (RegExp_test searchRegex (description r)) (fun re1 =>
  or_else (RegExp_test re1 (category r)) (fun re2 =>
  RegExp_test re2 (Number_toString (amount r)))).

Definition filterRecords (searchRegex : option regexp) (st : store)
  : list State.record * option regexp :=
  match searchRegex with
  | None => (State.records st, None)
  | Some re =>
      let '(kept, re') := filter_st record_matches3 (State.records st) re in
      (kept, Some re')
  end.
End Search.

(** The five replacements in front of the highlighting. *)
Definition escapeHtml (text : jsstring) : jsstring :=
  let s1 := replace_all false (Chr (CLit 38)) (lit "&amp;") text in
  let s2 := replace_all false (Chr (CLit 60)) (lit "&lt;") s1 in
  let s3 := replace_all false (Chr (CLit 62)) (lit "&gt;") s2 in
  let s4 := replace_all false (Chr (CLit 34)) (lit "&quot;") s3 in
  replace_all false (Chr (CLit 39)) (lit "&#x27;") s4.

Definition mark (matched : jsstring) : jsstring :=
  (lit "<mark>" ++ matched ++ lit "</mark>")%list.

(** [highlightMatches(text, regex)]: the text returned, and the regular
    expression object afterwards. *)
Definition highlightMatches (text : jsstring) (regex : option regexp)
  : jsstring * option regexp :=
  match regex with
  | None => (text, None)
  | Some re =>
      if negb (truthy_str text) then (text, Some re)
      else
        let '(out, re') := String_replace (escapeHtml text) re mark in
        (out, Some re')
  end.

(** A text cut into pieces, some of them marked. *)
Definition render (pieces : list (bool * jsstring)) : jsstring :=
  concat (map (fun p : bool * jsstring => if p.1 then mark p.2 else p.2) pieces).

Definition unmarked (pieces : list (bool * jsstring)) : jsstring :=
  concat (map snd pieces).

(** One of the four texts of the record has a match of the pattern. *)
Definition some_field_matches `{NumberHost} (re : regexp) (r : State.record) : bool :=
  test (ignoreCase re) (source re) (description r)
  || test (ignoreCase re) (source re) (category r)
  || test (ignoreCase re) (source re) (Number_toString (amount r))
  || test (ignoreCase re) (source re) (date r).

(** One of the three texts that [filterRecords] looks at has a match. *)
Definition some_of_three_matches `{NumberHost} (re : regexp) (r : State.record) : bool :=
  test (ignoreCase re) (source re) (description r)
  || test (ignoreCase re) (source re) (category r)
  || test (ignoreCase re) (source re) (Number_toString (amount r)).

(** Two states of one regular expression object. *)
Definition same_pattern (re s : regexp) : Prop :=
  ignoreCase s = ignoreCase re /\ source s = source re /\ global s = global re.

End SearchRecords.

(** ** search.js: validateRegexPattern *)

Module PatternCheck.
Import JS Regex Search.
Local Open Scope string_scope.

Record pattern_result := PatternResult {
  pr_isValid : bool;
  pr_message : jsstring
}.

Section Validate.
Context `{RegExpHost}.
(** The message of the SyntaxError that [new RegExp(pattern, flags)]
    throws. *)
Variable SyntaxError_message : jsstring -> jsstring -> jsstring.

(** What [validateRegexPattern] and [compileRegex] make of the input before
    they hand it to the constructor. *)
Definition cleanPattern (pattern : jsstring) : jsstring :=
  let cleanPattern := trim pattern in
  if startsWith cleanPattern 47 && endsWith cleanPattern 47
  then slice_1_m1 cleanPattern else cleanPattern.

Definition validateRegexPattern (pattern : jsstring) : pattern_result :=
  if negb (truthy_str pattern)
  then PatternResult false (lit "Pattern is required.")
  else
    match RegExp_new (cleanPattern pattern) (lit "i") with
    | Some _ => PatternResult true (lit "Valid regex pattern.")
    | None =>
        PatternResult false
          (lit "Invalid regex: " ++ SyntaxError_message (cleanPattern pattern) (lit "i"))%list
    end.
End Validate.

End PatternCheck.

(** ** search.js: the search for a term as it is written *)

Module LiteralSearch.
Import JS Regex Search RegExpObject.

(** The units of the class [[.*+?^${}()|[\]\\]]. *)
Definition special_units : jsstring := lit ".*+?^${}()|[]\".

Definition re_special : regex := Chr (COneOf special_units).

(** [searchTerm.replace(/[.*+?^${}()|[\]\\]/g, '\\$&')]; the [$&] of the
    replacement stands for the matched text. *)
Definition escaped (searchTerm : jsstring) : jsstring :=
  (String_replace searchTerm (RegExpObj false true re_special 0)
     (fun matched => 92 :: matched)).1.

Section Create.
Context `{RegExpHost}.

(** [createCaseInsensitiveSearch(searchTerm)] for a text; a SyntaxError of
    the constructor is turned into [null]. *)
Definition createCaseInsensitiveSearch (searchTerm : jsstring) : option RegExp :=
  if negb (truthy_str searchTerm) then None
  else RegExp_new (escaped searchTerm) (lit "gi").
End Create.

End LiteralSearch.

(** ** storage.js: localStorage *)

Module LocalStorage.
Import JS Storage.
Local Open Scope string_scope.

Module STORAGE_KEYS.
Definition RECORDS : string := "sft:data".
Definition SETTINGS : string := "sft:settings".
Definition THEME : string := "sft:theme".
End STORAGE_KEYS.

(** [DEFAULT_SETTINGS]; the two currency signs are the units 8364 and
    163. *)
Definition DEFAULT_SETTINGS : gmap jsstring json :=
  list_to_map
    [(lit "baseCurrency", JStr (lit "$"));
     (lit "budgetCap", JNum (of_Z 1000));
     (lit "alt1Symbol", JStr [8364]);
     (lit "alt1Rate", JNum (Num (93 # 100)));
     (lit "alt2Symbol", JStr [163]);
     (lit "alt2Rate", JNum (Num (80 # 100)));
     (lit "theme", JStr (lit "light"))].

(** The items of [localStorage], texts under keys. *)
Abbreviation items := (gmap string jsstring).

(** What the functions take from the host besides [JSON.parse]: whether
    [localStorage] can be used at all (every use of it throws when it cannot),
    which contents it has room for (a [setItem] beyond that throws), and
    [JSON.stringify]. *)
Class StorageHost := {
  available : bool;
  has_room : items -> bool;
  JSON_stringify : json -> jsstring
}.

Section Storage.
Context `{JsonHost} `{StorageHost}.

Definition getItem (key : string) (ls : items) : outcome (option jsstring) :=
  if available then Return (ls !! key) else Throw "SecurityError".

Definition setItem (key : string) (v : jsstring) (ls : items) : outcome items :=
  if available && has_room (<[key := v]> ls) then Return (<[key := v]> ls)
  else Throw "QuotaExceededError".

Definition removeItem (key : string) (ls : items) : outcome items :=
  if available then Return (delete key ls) else Throw "SecurityError".

(** [saveRecords], [saveSettings] and [saveTheme]: whether the item was
    written, and the items afterwards. *)
Definition save (key : string) (v : jsstring) (ls : items) : bool * items :=
  match setItem key v ls with
  | Return ls' => (true, ls')
  | Throw _ => (false, ls)
  end.

Definition saveRecords (records : json) (ls : items) : bool * items :=
  save STORAGE_KEYS.RECORDS (JSON_stringify records) ls.

Definition saveSettings (settings : json) (ls : items) : bool * items :=
  save STORAGE_KEYS.SETTINGS (JSON_stringify settings) ls.

Definition saveTheme (theme : jsstring) (ls : items) : bool * items :=
  save STORAGE_KEYS.THEME theme ls.

(** [storedRecords ? JSON.parse(storedRecords) : []], and [[]] when
    something throws. *)
Definition loadRecords (ls : items) : json :=
  match getItem STORAGE_KEYS.RECORDS ls with
  | Return (Some storedRecords) =>
      if truthy_str storedRecords then
        match JSON_parse storedRecords with
        | inl v => v
        | inr _ => JArr []
        end
      else JArr []
  | _ => JArr []
  end.

(** The own enumerable properties that the spread [{...v}] copies: those of
    an object, the elements of an array under their indices, the units of a
    text under theirs, and none of any other value. *)
Definition spread (v : json) : gmap jsstring json :=
  match v with
  | JObj props => props
  | JArr elements =>
      list_to_map (imap (fun i x => (lit (pretty i), x)) elements)
  | JStr s =>
      list_to_map (imap (fun i x => (lit (pretty i), JStr [x])) s)
  | _ => ∅
  end.

(** [{ ...DEFAULT_SETTINGS, ...JSON.parse(storedSettings) }], and
    [DEFAULT_SETTINGS] when nothing is stored or something throws. *)
Definition loadSettings (ls : items) : gmap jsstring json :=
  match getItem STORAGE_KEYS.SETTINGS ls with
  | Return (Some storedSettings) =>
      if truthy_str storedSettings then
        match JSON_parse storedSettings with
        | inl v => spread v ∪ DEFAULT_SETTINGS
        | inr _ => DEFAULT_SETTINGS
        end
      else DEFAULT_SETTINGS
  | _ => DEFAULT_SETTINGS
  end.

(** [localStorage.getItem(THEME) || DEFAULT_SETTINGS.theme] *)
Definition loadTheme (ls : items) : jsstring :=
  match getItem STORAGE_KEYS.THEME ls with
  | Return (Some theme) => if truthy_str theme then theme else lit "light"
  | _ => lit "light"
  end.

Definition clearAllData (ls : items) : bool * items :=
  match
    let* ls1 := removeItem STORAGE_KEYS.RECORDS ls in
    let* ls2 := removeItem STORAGE_KEYS.SETTINGS ls1 in
    removeItem STORAGE_KEYS.THEME ls2
  with
  | Return ls' => (true, ls')
  | Throw _ => (false, ls)
  end.
End Storage.

End LocalStorage.

(** ** state.js: the counts of the dashboard *)

Module Dashboard.
Import JS State.
Local Open Scope string_scope.

(** The names that a plain object inherits from [Object.prototype].  Read
    under one of them, [counts[name]] is not a count; the model below leaves
    such categories out. *)
Definition prototype_names : list jsstring :=
  map lit
    ["constructor"; "__defineGetter__"; "__defineSetter__"; "hasOwnProperty";
     "__lookupGetter__"; "__lookupSetter__"; "isPrototypeOf";
     "propertyIsEnumerable"; "toString"; "valueOf"; "__proto__";
     "toLocaleString"].

Definition inherited (name : jsstring) : bool :=
  bool_decide (name ∈ prototype_names).

(** An array index: the decimal text, without leading zeros, of a whole
    number below 2^32 - 1.  [Object.keys] lists the keys that are array
    indices first, in ascending order. *)
Definition is_array_index (name : jsstring) : bool :=
  match name with
  | [] => false
  | x :: t =>
      forallb is_digit name
      && ((x =? 48)%N && bool_decide (t = []) || negb (x =? 48)%N)
      && (digits_value name <? 2 ^ 32 - 1)%Z
  end.

(** The own properties of a plain object with numbers as values, in the
    order of their creation. *)
Abbreviation counts_t := (list (jsstring * nat)).

(** [counts[name]] for a name that is not inherited: the count, or
    [undefined]. *)
Fixpoint get_count (counts : counts_t) (name : jsstring) : option nat :=
  match counts with
  | [] => None
  | (k, n) :: counts' =>
      if bool_decide (k = name) then Some n else get_count counts' name
  end.

(** [counts[name] = (counts[name] || 0) + 1] *)
Fixpoint count_one (name : jsstring) (counts : counts_t) : counts_t :=
  match counts with
  | [] => [(name, 1%nat)]
  | (k, n) :: counts' =>
      if bool_decide (k = name) then (k, S n) :: counts'
      else (k, n) :: count_one name counts'
  end.

(** [records.reduce((counts, r) => ..., {})]; [None] when a category is an
    inherited name. *)
Definition categoryCounts (records : list record) : option counts_t :=
  foldl (fun counts r =>
           match counts with
           | Some c => if inherited (category r) then None
                       else Some (count_one (category r) c)
           | None => None
           end) (Some []) records.

Fixpoint insert_index (k : jsstring) (l : list jsstring) : list jsstring :=
  match l with
  | [] => [k]
  | k' :: l' =>
      if (digits_value k <? digits_value k')%Z then k :: l
      else k' :: insert_index k l'
  end.

(** [Object.keys]: the array indices in ascending order, then the other
    keys in the order of their creation. *)
Definition Object_keys (counts : counts_t) : list jsstring :=
  foldr insert_index [] (filter (fun k => is_array_index k = true) counts.*1)
  ++ filter (fun k => is_array_index k = false) counts.*1.

(** [keys.reduce((a, b) => counts[a] > counts[b] ? a : b)], or ['N/A']
    without keys. *)
Definition top_category (counts : counts_t) : jsstring :=
  match Object_keys counts with
  | [] => lit "N/A"
  | k :: keys =>
      foldl (fun a b =>
               if (default 0 (get_count counts b) <? default 0 (get_count counts a))%nat
               then a else b) k keys
  end.

Record dashboard_counts := DashboardCounts {
  totalRecords : nat;
  dc_categoryCounts : counts_t;
  topCategoryByCount : jsstring
}.

(** The part of [getDashboardStats] that counts; the sums of the amounts
    are left out. *)
Definition getDashboardStats (st : store) : option dashboard_counts :=
  counts ← categoryCounts (records st);
  Some (DashboardCounts (length (records st)) counts (top_category counts)).

(** How many records have the category [k]. *)
Definition count_of (k : jsstring) (records : list record) : nat :=
  length (filter (fun r => category r = k) records).

End Dashboard.

(** ** state.js: the trend of the last days *)

Module Trend.
Import JS JSDate State.
Local Open Scope Z_scope.








(** The own properties of [dailyTotals] in the order of their creation.
    The keys are the first ten units of ISO texts; none of them is an array
    index, so this is also the order of [Object.keys] and
    [Object.values]. *)
Abbreviation totals := (list (jsstring * number)).





Section Days.
(** The host's [toLocaleDateString('en-US', { day: 'numeric', month:
    'short' })] of a time value. *)
Variable toLocaleDateString : Z -> jsstring.



End Days.




End Trend.

(** * The words of the specification

    The formats, the well-formed import and the orders that the
    specification speaks of, written after its words; what [validateForm]
    reports for one field, in one expression; and the sample data of the
    examples. *)

Module ValidatorsSpec.
Import JS Regex JSDate Validators.
Local Open Scope string_scope.
Local Open Scope list_scope.

Definition digit_unit (x : N) : Prop := is_digit x = true.
Definition nonzero_digit_unit (x : N) : Prop := in_range 49 57 x = true.

(** An integer with no leading zero, or exactly [0]. *)
Definition integer_text (w : jsstring) : Prop :=
  w = lit "0" \/
  exists d ds, w = d :: ds /\ nonzero_digit_unit d /\ Forall digit_unit ds.

(** A decimal point and one or two digits. *)
Definition fraction_text (w : jsstring) : Prop :=
  exists ds, w = 46%N :: ds /\ (length ds = 1 \/ length ds = 2)%nat
             /\ Forall digit_unit ds.

(** The format of an amount in the words of the specification: an integer
    with no leading zero (or exactly [0]), optionally followed by a decimal
    point and one or two digits. *)
Definition amount_format (s : jsstring) : Prop :=
  exists ip fp, s = ip ++ fp /\ integer_text ip /\ (fp = [] \/ fraction_text fp).

(** The format of a date in the words of the specification: [YYYY-MM-DD]
    with a month from 01 to 12 and a day from 01 to 31. *)
Definition date_format (s : jsstring) : Prop :=
  exists y1 y2 y3 y4 m1 m2 d1 d2,
    s = [y1; y2; y3; y4; 45%N; m1; m2; 45%N; d1; d2]
    /\ Forall digit_unit [y1; y2; y3; y4; m1; m2; d1; d2]
    /\ (1 <= digits_value [m1; m2] <= 12)%Z
    /\ (1 <= digits_value [d1; d2] <= 31)%Z.

(** The entry that [validateForm] leaves in the errors for an amount [s]. *)
Definition amount_error (s : jsstring) : option string :=
  if blank s then
    Some (if truthy_str s then "This field is required." else "Amount is required.")
  else if negb (test false re_amount s) then
    Some "Amount must be a positive number with maximum 2 decimal places."
  else if nle (parseFloat s) (of_Z 0) then Some "Amount must be greater than 0."
  else if ngt (parseFloat s) (Num (99999999 # 100)) then Some "Amount is too large."
  else None.

(** The entry that [validateForm] leaves in the errors for a date [s], read
    at the clock readings [today] and [now']. *)
Definition date_error (h : host) (today now' : Z) (s : jsstring) : option string :=
  if blank s then
    Some (if truthy_str s then "This field is required." else "Date is required.")
  else if negb (test false re_date s) then Some "Date must be in YYYY-MM-DD format."
  else if after (parse_date h s) today then Some "Date cannot be in the future."
  else if before (parse_date h s) (setFullYear h now' (getFullYear h today - 1))
  then Some "Date cannot be more than one year ago."
  else None.

(** Neither [<] nor [>]. *)
Definition no_angle (x : N) : Prop := class_mem false (COneOf [60; 62]) x = false.

End ValidatorsSpec.

(** The round trip between the days of a 400-year era and its dates, to be
    checked day by day. *)
Module EraCheck.
Import JSDate.
Local Open Scope Z_scope.

(** Year of the era, month and day of the month of the day [doe] of a
    400-year era, as [civil_from_days] computes them. *)
Definition civil_of_doe (doe : Z) : Z * Z * Z :=
  let yoe := (doe - doe / 1460 + doe / 36524 - doe / 146096) / 365 in
  let doy := doe - (365 * yoe + yoe / 4 - yoe / 100) in
  let mp := (5 * doy + 2) / 153 in
  (yoe, if mp <? 10 then mp + 3 else mp - 9, doy - (153 * mp + 2) / 5 + 1).

(** The day of the era of a year of the era, month and day of the month, as
    [days_from_civil] computes it. *)
Definition doe_of_civil (yoe mth d : Z) : Z :=
  yoe * 365 + yoe / 4 - yoe / 100 + ((153 * ((mth + 9) mod 12) + 2) / 5 + d - 1).

Definition doe_round_trip (doe : Z) : bool :=
  let '(yoe, mth, d) := civil_of_doe doe in
  (0 <=? yoe) && (yoe <=? 399) && (1 <=? mth) && (mth <=? 12)
  && (doe_of_civil yoe mth d =? doe).

(** The days of an era, numbered in base 53 (53 * 53 * 53 > 146097). *)
Definition digits53 : list Z := map Z.of_nat (seq 0 53).

(** The check of the day [(a * 53 + b) * 53 + c], of the days [b] and [c]
    range over, and of all days. *)
Definition check3 (a b c : Z) : bool :=
  let doe := (a * 53 + b) * 53 + c in (146097 <=? doe) || doe_round_trip doe.
Definition check2 (a b : Z) : bool := forallb (check3 a b) digits53.
Definition check1 (a : Z) : bool := forallb (check2 a) digits53.

End EraCheck.

(** The zones of the hosts: what the statements about the year behind ask
    of the daylight saving adjustment, and a zone that has one. *)
Module ZoneSpec.
Import JSDate.
Local Open Scope Z_scope.


(** Two daylight saving adjustments of the host differ by [delta] at
    most. *)
Definition dst_within (h : host) (delta : Z) : Prop :=
  forall t t' isUTC isUTC', dst h t isUTC - dst h t' isUTC' <= delta.

(** A 29 February lies between the local date of [t] and the same date of
    the year before: the date is in January or February of the year after a
    leap year, or after February in a leap year. *)
Definition leap_day_behind (h : host) (t : Z) : bool :=
  let lt := LocalTime h t in
  if MonthFromTime lt <=? 1 then is_leap (YearFromTime lt - 1)
  else is_leap (YearFromTime lt).

(** New York in 2023 and 2024: five hours west of UTC, and one hour less
    from the second Sunday of March, 2:00 standard time, to the first Sunday
    of November, 2:00 daylight time.  For a local time the host takes the
    adjustment of the earlier of two instants and, in the hour that the
    clocks skip, the one from before the change. *)
Definition new_york : host :=
  HostDST (-5 * 3600000)
    (fun t isUTC =>
       if isUTC then
         if (1678604400000 <=? t) && (t <? 1699164000000)
            || (1710054000000 <=? t) && (t <? 1730613600000)
         then 3600000 else 0
       else
         if (1678590000000 <=? t) && (t <? 1699149600000)
            || (1710039600000 <=? t) && (t <? 1730599200000)
         then 3600000 else 0)
    true.

End ZoneSpec.

(** The numbers that binary64 values stand for, and sample budgets. *)
Module Binary64Spec.
Import JS Binary64.

Section Shapes.
Local Open Scope Z_scope.

(** A value with the sign [s] and nothing less than the least exponent. *)
Definition signed (s : bool) (x : binary64) : Prop :=
  match x with
  | S754_finite s' _ e => s' = s /\ emin prec emax <= e
  | S754_infinity s' => s' = s
  | _ => False
  end.

(** The exponent of a finite value is not below the least one. *)
Definition exp_ok (x : binary64) : Prop :=
  match x with
  | S754_finite _ _ e => emin prec emax <= e
  | _ => True
  end.

(** The mantissa of a finite value with its sign, at the exponent [ez]. *)
Definition aligned (s : bool) (m : positive) (e ez : Z) : Z :=
  cond_Zopp s (Zpos (fst (shl_align m e ez))).

End Shapes.

Local Open Scope Q_scope.

(** The rational that a finite value stands for. *)
Definition rational (s : bool) (m : positive) (e : Z) : Q :=
  inject_Z (if s then Zneg m else Zpos m) * 2 ^ e.

(** What a number stands for: a rational or an infinity; NaN stands for
    nothing. *)
Inductive extended := NegInfinity | Finite (q : Q) | PosInfinity.

Definition value (x : binary64) : option extended :=
  match x with
  | S754_nan => None
  | S754_zero _ => Some (Finite 0)
  | S754_infinity s => Some (if s then NegInfinity else PosInfinity)
  | S754_finite s m e =>
      Some (Finite (rational s m e))
  end.

Definition below (a b : extended) : Prop :=
  match a, b with
  | NegInfinity, (Finite _ | PosInfinity) => True
  | Finite p, Finite q => p < q
  | Finite _, PosInfinity => True
  | _, _ => False
  end.

(** [a] exceeds [b]: both are numbers and what [a] stands for is the
    greater. *)
Definition exceeds (a b : binary64) : Prop :=
  match value a, value b with
  | Some u, Some v => below v u
  | _, _ => False
  end.

(** The binary64 value nearest to [n / d], for [n] and [d] from 1 to
    2^53: the number that the decimal text of [n / d] is read as. *)
Definition ratio (n d : positive) : binary64 :=
  SFdiv prec emax (of_pos n) (of_pos d).

(** A record with the amount [a] and a store of such records under the
    budget cap [c]. *)
Definition spent (a : binary64) : Budget.record :=
  Budget.Rec (lit "txn_1") (lit "lunch") a (lit "Food") (lit "2024-01-01")
             (lit "2024-01-01T10:00:00.000Z") (lit "2024-01-01T10:00:00.000Z").

Definition budget_of (c : binary64) (amounts : list binary64) : Budget.store :=
  Budget.Store (map spent amounts)
    (Budget.Settings None (Some c) None None None None None).

End Binary64Spec.

Module StorageSpec.
Import JS Storage.
Local Open Scope string_scope.

(** An element of an import as the specification wants it: an object with a
    truthy [id], a text as [description], a number as [amount], a truthy
    [date] and a truthy [category]. *)
Definition well_formed_record (v : json) : Prop :=
  exists props,
    v = JObj props
    /\ truthy (props !! lit "id") = true
    /\ is_string (props !! lit "description") = true
    /\ is_number (props !! lit "amount") = true
    /\ truthy (props !! lit "date") = true
    /\ truthy (props !! lit "category") = true.

(** *** A host for the examples

    Its [JSON.parse] reads the JSON texts made of [null], [true], [false],
    arrays and white space, and answers every other text as a SyntaxError;
    its TypeError has the message of V8. *)

Definition is_json_space (x : N) : bool :=
  (x =? 32)%N || (x =? 9)%N || (x =? 10)%N || (x =? 13)%N.

Definition skip_space (s : jsstring) : jsstring := drop_while is_json_space s.

(** [parse_value] reads one value and answers it with the text that
    follows; [parse_elements] reads the elements of an array after the first
    one, up to the closing bracket. *)
Fixpoint parse_value (fuel : nat) (s : jsstring) : option (json * jsstring) :=
  match fuel with
  | O => None
  | S fuel' =>
      match skip_space s with
      | 110 :: 117 :: 108 :: 108 :: t => Some (JNull, t)
      | 116 :: 114 :: 117 :: 101 :: t => Some (JBool true, t)
      | 102 :: 97 :: 108 :: 115 :: 101 :: t => Some (JBool false, t)
      | 91 :: t =>
          match skip_space t with
          | 93 :: t' => Some (JArr [], t')
          | _ =>
              match parse_value fuel' t with
              | Some (v, t1) =>
                  match parse_elements fuel' t1 with
                  | Some (vs, t2) => Some (JArr (v :: vs), t2)
                  | None => None
                  end
              | None => None
              end
          end
      | _ => None
      end
  end%N
with parse_elements (fuel : nat) (s : jsstring) : option (list json * jsstring) :=
  match fuel with
  | O => None
  | S fuel' =>
      match skip_space s with
      | 93 :: t => Some ([], t)
      | 44 :: t =>
          match parse_value fuel' t with
          | Some (v, t1) =>
              match parse_elements fuel' t1 with
              | Some (vs, t2) => Some (v :: vs, t2)
              | None => None
              end
          | None => None
          end
      | _ => None
      end
  end%N.

Definition literals_host : JsonHost := {|
  JSON_parse s :=
    match parse_value (S (length s)) s with
    | Some (v, t) =>
        if eqs (skip_space t) [] then inl v
        else inr "Unexpected non-whitespace character after JSON"
    | None => inr "Unexpected token in JSON"
    end;
  null_property_message := "Cannot read properties of null (reading 'id')"
|}.

End StorageSpec.

Module StateSpec.
Import JS State.
Local Open Scope string_scope.
Local Open Scope list_scope.

(** One amount less than the other, both numbers. *)
Definition amount_lt (a b : record) : Prop := nlt (amount a) (amount b) = true.

(** Two records whose amounts are numbers and differ. *)
Definition amounts_differ (a b : record) : Prop := amount_lt a b \/ amount_lt b a.

(** No two amounts of the list are equal; with two records or more, all
    amounts are numbers. *)
Fixpoint distinct_amounts (l : list record) : Prop :=
  match l with
  | [] => True
  | x :: l' => Forall (amounts_differ x) l' /\ distinct_amounts l'
  end.

(** In increasing order of amount, strictly. *)
Fixpoint increasing (l : list record) : Prop :=
  match l with
  | [] => True
  | x :: l' => Forall (amount_lt x) l' /\ increasing l'
  end.

(** *** Sample data *)

Definition sample (i : string) (a : Z) : record :=
  Rec (lit i) (lit "lunch") (of_Z a) (lit "Food") (lit "2024-01-01")
      (lit "2024-01-01T10:00:00.000Z") (lit "2024-01-01T10:00:00.000Z").

Definition budget_sample : store :=
  Store [sample "a" 100; sample "b" 50]
        (Settings None (Some (of_Z 100)) None None None None None)
        (Sort "date" "desc") [].

Definition lunch : RecordData.t :=
  RecordData.Make (lit "lunch") (lit "12.50") (lit "Food") (lit "2024-03-01").

(** A store whose two records are in descending order of amount, the
    current sort order. *)
Definition store_in_order : store :=
  Store [sample "b" 20; sample "a" 10]
        (Settings None (Some (of_Z 100)) None None None None None)
        (Sort "amount" "desc") [].

(** The store after an import while the sort order is by amount,
    descending: [handleImport] puts the imported array in place as it came,
    here in ascending order. *)
Definition store_after_import : store :=
  initializeState [sample "a" 10; sample "b" 20]
    (Settings None (Some (of_Z 100)) None None None None None)
    (@setSort unit_collation "amount" "desc" initial).

End StateSpec.

(** ** Further notions of the properties *)

(** The texts that the pattern of the description accepts, and the kinds of
    units that [sanitizeInput] works on. *)
Module Formats.
Import JS.

Definition not_space (x : N) : Prop := is_white_space x = false.
Definition not_terminator (x : N) : Prop := is_line_terminator x = false.

(** A text that starts and ends with a unit that is not white space and has
    no line terminator in between. *)
Definition description_format (s : jsstring) : Prop :=
  (exists x, s = [x] /\ not_space x)
  \/ (exists x mid y, s = x :: mid ++ [y] /\ not_space x /\ not_space y
                      /\ Forall not_terminator mid).

(** A text with a line terminator in it. *)
Definition has_terminator (s : jsstring) : Prop :=
  Exists (fun x => is_line_terminator x = true) s.

(** The units that [sanitizeInput] takes out or writes as an entity:
    [<], [>], the double and the single quote, and [/]. *)
Definition markup_unit (x : N) : bool :=
  (x =? 60) || (x =? 62) || (x =? 34) || (x =? 39) || (x =? 47).

(** A unit [sanitizeInput] has nothing to do with: no markup unit, no [&],
    and neither [:] nor [=], which every match of its two other patterns
    contains. *)
Definition plain_unit (x : N) : bool :=
  negb (markup_unit x || (x =? 38) || (x =? 58) || (x =? 61)).

End Formats.

Module FormInvariant.
Import JS Validators.
Local Open Scope string_scope.

(** What every result of [validateForm] has: it is valid exactly when it
    has no error, its errors are about the four fields of the form and its
    warnings are the two that the form knows. *)
Definition well_formed_result (r : form_result) : Prop :=
  (form_isValid r = true <-> errors r = ∅)
  /\ (forall k, is_Some (errors r !! k) -> k ∈ requiredFields)
  /\ (forall k, is_Some (warnings r !! k) -> k = "duplicateWords" \/ k = "largeAmount").

End FormInvariant.

Module SettingsSpec.
Import JS State.

(** A rate that [validateCurrencySettings] lets pass: none, NaN, or a number
    from 0 to 1000, both ends included. *)
Definition rate_passes (x : option number) : Prop :=
  x = None \/ x = Some NaN \/ exists q, x = Some (Num q) /\ (0 <= q)%Q /\ (q <= 1000)%Q.

End SettingsSpec.

Module PatternNeeds.
Import JS Regex.

Definition is_letter (x : N) : bool := in_range 65 90 x || in_range 97 122 x.

(** A sufficient test that every match of [r], with or without the
    ignoreCase flag, reads a unit of the kind [bad]: some part of [r] that
    every match goes through is a character of that kind and no letter, or
    a class of such characters. *)
Fixpoint needs (bad : N -> bool) (r : regex) : bool :=
  match r with
  | Chr (CLit c) => bad c && negb (is_letter c)
  | Chr (COneOf cs) => forallb (fun c => bad c && negb (is_letter c)) cs
  | Seq r1 r2 => needs bad r1 || needs bad r2
  | Alt r1 r2 => needs bad r1 && needs bad r2
  | Group _ r1 => needs bad r1
  | _ => false
  end.

End PatternNeeds.

Module LiteralSearchSpec.
Import JS Regex LiteralSearch.

Definition is_special (x : N) : bool := existsb (N.eqb x) special_units.

(** A unit with its backslash when it is one of the class. *)
Definition escape_unit (x : N) : jsstring := if is_special x then [92; x] else [x].

(** An ASCII unit that is not of the class. *)
Definition plain_term_unit (x : N) : bool := negb (is_special x) && (x <? 128).

(** [s] holds [term] somewhere, letters of ASCII compared without their
    case. *)
Definition contains_ignoring_case (s term : jsstring) : Prop :=
  exists pre mid post,
    s = pre ++ mid ++ post /\ map canonicalize mid = map canonicalize term.

(** The pattern that reads the units of [term] one after the other. *)
Definition chain (term : jsstring) : regex :=
  foldr (fun x r => Seq (Chr (CLit x)) r) Eps term.

End LiteralSearchSpec.

(** * Properties *)

(** ** The matcher and the relation of matches *)

Module RegexFacts.
Import JS Regex.

Section Sound.
Context {A : Type}.
Variable ic : bool.

Lemma star_loop_sound r (k : cursor -> option A) :
  (forall c (k : cursor -> option A) a, m ic r c k = Some a -> exists c', Match ic r c c' /\ k c' = Some a) ->
  forall n c a,
    star_loop (m ic r) (groups r) k n c = Some a ->
    exists c', Match ic (Star r) c c' /\ k c' = Some a.
Proof.
  intros IH n. induction n as [|n IHn]; intros c a; simpl.
  - intros Hk. exists c. split; [constructor | done].
  - destruct (m ic r (clear_caps (groups r) c) _) as [a'|] eqn:E.
    + intros [= ->]. apply IH in E as (c1 & HM & Hc1).
      destruct (length (rest c1) <? length (rest c))%nat eqn:Hlt; [|done].
      apply Nat.ltb_lt in Hlt.
      apply IHn in Hc1 as (c2 & HS & Hk).
      exists c2. split; [|done]. by eapply M_StarS.
    + intros Hk. exists c. split; [constructor | done].
Qed.

Lemma m_sound r : forall c (k : cursor -> option A) a,
  m ic r c k = Some a -> exists c', Match ic r c c' /\ k c' = Some a.
Proof.
  induction r as [| cl | | | | r1 IH1 r2 IH2 | r1 IH1 r2 IH2 | r IH | i r IH | i];
    intros c k a; simpl.
  - intros Hk. exists c. split; [constructor | done].
  - destruct c as [sn [|x t] cp]; simpl; [done|].
    destruct (class_mem ic cl x) eqn:Hc; [|done].
    intros Hk. eexists. split; [by constructor | done].
  - destruct (seen c) eqn:Hs; [|done]. intros Hk. exists c. split; [by constructor | done].
  - destruct (rest c) eqn:Hs; [|done]. intros Hk. exists c. split; [by constructor | done].
  - destruct (at_word_boundary c) eqn:Hs; [|done]. intros Hk. exists c. split; [by constructor | done].
  - intros H1. apply IH1 in H1 as (c1 & HM1 & H2). apply IH2 in H2 as (c2 & HM2 & Hk).
    exists c2. split; [by econstructor | done].
  - destruct (m ic r1 c k) as [a'|] eqn:E.
    + intros [= ->]. apply IH1 in E as (c' & HM & Hk). exists c'. split; [by apply M_AltL | done].
    + intros E2. apply IH2 in E2 as (c' & HM & Hk). exists c'. split; [by apply M_AltR | done].
  - apply star_loop_sound, IH.
  - intros H1. apply IH in H1 as (c' & HM & Hk). eexists. split; [by apply M_Group | done].
  - destruct (caps c !! i) as [w|] eqn:Hw.
    + destruct (_ && _) eqn:Hb; [|done]. apply andb_true_iff in Hb as [Hl Hs].
      apply Nat.leb_le in Hl. intros Hk. eexists. split; [by eapply M_BackrefSome | done].
    + intros Hk. exists c. split; [by apply M_BackrefNone | done].
Qed.
End Sound.
Section Complete.
Context {A : Type}.
Variable ic : bool.

Lemma m_complete_gen r c c' :
  Match ic r c c' ->
  forall k : cursor -> option A, is_Some (k c') ->
    is_Some (m ic r c k) /\
    (forall r0 n, r = Star r0 -> (length (rest c) <= n)%nat ->
       is_Some (star_loop (m ic r0) (groups r0) k n c)).
Proof.
  induction 1 as [c | cl x t sn cp Hc | c Hs | c Hs | c Hs
                 | r1 r2 c c1 c2 _ IH1 _ IH2 | r1 r2 c c' _ IH | r1 r2 c c' _ IH
                 | r c | r c c1 c2 _ IH1 Hlt _ IH2 | i r c c' _ IH
                 | i c Hn | i c w Hw Hl Hs];
    intros k Hk; (split; [|try done]); simpl.
  - done.
  - by rewrite Hc.
  - by rewrite Hs.
  - by rewrite Hs.
  - by rewrite Hs.
  - apply IH1. by apply IH2.
  - destruct (m ic r1 c k) eqn:E; [done|]. destruct (IH k Hk) as [[? ?] _]. congruence.
  - destruct (m ic r1 c k) eqn:E; [done|]. by apply IH.
  - destruct (length (rest c)); simpl; [done|].
    by destruct (m ic r _ _).
  - intros r0 n [= <-] _. destruct n; simpl; [done|]. by destruct (m ic r _ _).
  - destruct (IH2 k Hk) as [_ IHn].
    destruct (length (rest c)) as [|n] eqn:El; [lia|]. simpl.
    destruct (IH1 (fun c' => if (length (rest c') <? S n)%nat
                            then star_loop (m ic r) (groups r) k n c' else None))
      as [[a Ha] _].
    + apply Nat.ltb_lt in Hlt as Hlt'. rewrite Hlt'.
      apply (IHn r n eq_refl). lia.
    + rewrite <- El in Ha. by rewrite Ha.
  - intros r0 n [= <-] Hn. destruct (IH2 k Hk) as [_ IHn].
    destruct n as [|n]; [lia|]. simpl.
    destruct (IH1 (fun c' => if (length (rest c') <? length (rest c))%nat
                            then star_loop (m ic r) (groups r) k n c' else None))
      as [[a Ha] _].
    + apply Nat.ltb_lt in Hlt as Hlt'. rewrite Hlt'.
      apply (IHn r n eq_refl). lia.
    + by rewrite Ha.
  - by apply IH.
  - by rewrite Hn.
  - rewrite Hw. apply Nat.leb_le in Hl. by rewrite Hl, Hs.
Qed.

Lemma m_complete r c c' (k : cursor -> option A) :
  Match ic r c c' -> is_Some (k c') -> is_Some (m ic r c k).
Proof. intros HM Hk. by apply (m_complete_gen r c c' HM k Hk). Qed.

(** The matcher finds a match exactly when there is one the continuation
    accepts. *)
Lemma m_is_Some r c (k : cursor -> option A) :
  is_Some (m ic r c k) <-> exists c', Match ic r c c' /\ is_Some (k c').
Proof.
  split.
  - intros [a Ha]. apply m_sound in Ha as (c' & HM & Hk). eauto.
  - intros (c' & HM & Hk). by eapply m_complete.
Qed.
End Complete.

(** A match reads a piece of the input to come and nothing else. *)
Lemma Match_reads ic r c c' :
  Match ic r c c' ->
  exists w, rest c = w ++ rest c' /\ seen c' = rev w ++ seen c.
Proof.
  induction 1 as [c | cl x t sn cp Hc | c Hs | c Hs | c Hs
                 | r1 r2 c c1 c2 _ IH1 _ IH2 | r1 r2 c c' _ IH | r1 r2 c c' _ IH
                 | r c | r c c1 c2 _ IH1 Hlt _ IH2 | i r c c' _ IH
                 | i c Hn | i c w Hw Hl Hs]; simpl in *;
    try (by exists []).
  - by exists [x].
  - destruct IH1 as (w1 & E1 & F1), IH2 as (w2 & E2 & F2).
    exists (w1 ++ w2). rewrite E1, E2, F2, F1, rev_app_distr, !app_assoc. done.
  - done.
  - done.
  - destruct IH1 as (w1 & E1 & F1), IH2 as (w2 & E2 & F2).
    exists (w1 ++ w2). rewrite E1, E2, F2, F1, rev_app_distr, !app_assoc. done.
  - done.
  - exists (take (length w) (rest c)). by rewrite take_drop.
Qed.

(** A pattern that starts with [^] matches at the start of the text or
    nowhere. *)
Lemma search_from_Bol ic r x sn rs :
  search_from ic (Seq Bol r) (x :: sn) rs = None.
Proof.
  revert x sn. induction rs as [|y t IH]; intros x sn; simpl; [done|]. apply IH.
Qed.

Lemma test_Bol ic r s :
  test ic (Seq Bol r) s = true <->
  exists c', Match ic (Seq Bol r) (start s) c'.
Proof.
  unfold test. rewrite bool_decide_eq_true.
  assert (is_Some (search_from ic (Seq Bol r) [] s)
          <-> is_Some (m ic (Seq Bol r) (start s) Some)) as ->.
  { unfold start. destruct s as [|x t]; simpl.
    - by destruct (m ic r _ _).
    - destruct (m ic r _ _); [done|]. by rewrite search_from_Bol. }
  rewrite m_is_Some. split.
  - intros (c' & HM & _). eauto.
  - intros (c' & HM). eauto.
Qed.

(** What a global replacement leaves of a text: units of the text and units
    of the replacement. *)
Lemma replace_go_Forall (P : N -> Prop) fuel ic r repl sn rs :
  Forall P repl -> Forall P rs -> Forall P (replace_go fuel ic r repl sn rs).
Proof.
  intros Hrepl. revert sn rs.
  induction fuel as [|fuel IH]; intros sn rs Hrs; simpl; [done|].
  assert (Forall P match rs with
                   | [] => []
                   | x :: t => x :: replace_go fuel ic r repl (x :: sn) t
                   end) as Hskip.
  { destruct Hrs; [done|]. constructor; [done|]. by apply IH. }
  destruct (m ic r (Cursor sn rs ∅) Some) as [c'|] eqn:E; [|done].
  apply m_sound in E as (c1 & HM & [= ->]).
  apply Match_reads in HM as (w & Hw & _). simpl in Hw.
  destruct (length (rest c') <? length rs)%nat.
  - apply Forall_app. split; [done|]. apply IH.
    rewrite Hw in Hrs. by apply Forall_app in Hrs as [_ ?].
  - apply Forall_app. by split.
Qed.

Lemma replace_all_Forall (P : N -> Prop) ic r repl s :
  Forall P repl -> Forall P s -> Forall P (replace_all ic r repl s).
Proof. apply replace_go_Forall. Qed.

(** Replacing the units of a class by nothing leaves no unit of the class. *)
Lemma replace_go_class cl fuel sn rs :
  (length rs <= fuel)%nat ->
  Forall (fun x => class_mem false cl x = false)
         (replace_go fuel false (Chr cl) [] sn rs).
Proof.
  revert sn rs. induction fuel as [|fuel IH]; intros sn rs Hl.
  - destruct rs; [done | simpl in Hl; lia].
  - destruct rs as [|x t]; simpl; [done|].
    destruct (class_mem false cl x) eqn:Hx; simpl.
    + rewrite (proj2 (Nat.ltb_lt _ _)) by lia. simpl. apply IH. simpl in Hl. lia.
    + constructor; [done|]. apply IH. simpl in Hl. lia.
Qed.

Lemma drop_while_Forall (P : N -> Prop) p s :
  Forall P s -> Forall P (drop_while p s).
Proof.
  induction 1 as [|x t Hx Ht IH]; simpl; [done|]. destruct (p x); [done|]. by constructor.
Qed.

Lemma trim_Forall (P : N -> Prop) s : Forall P s -> Forall P (trim s).
Proof.
  intros Hs. unfold trim, trimStart.
  apply Forall_rev, drop_while_Forall, Forall_rev. by apply drop_while_Forall.
Qed.

End RegexFacts.

(** ** The built-ins on small inputs *)

Module BuiltinExamples.
Import JS Regex JSDate Validators.
Local Open Scope string_scope.
Local Open Scope list_scope.

Example parseFloat_decimal : parseFloat (lit "12.34") = Num (1234 # 100).
Proof. by vm_compute. Qed.

(** [parseFloat] skips white space in front and stops at the first unit
    that does not continue a number. *)
Example parseFloat_prefix : parseFloat (lit "  -0.5e1x") = Num (-50 # 10).
Proof. by vm_compute. Qed.

Example parseFloat_no_number : parseFloat (lit "abc") = NaN.
Proof. by vm_compute. Qed.

Example trim_both_ends : trim (lit "  a b ") = lit "a b".
Proof. by vm_compute. Qed.

(** The pattern of the duplicate words ignores the case. *)
Example duplicateWords_found :
  test true re_duplicateWords (lit "pizza Pizza") = true
  /\ test true re_duplicateWords (lit "pizza pie") = false.
Proof. by vm_compute. Qed.

Example sanitizeInput_markup :
  sanitizeInput (lit " <b>hi</b>   there ") = lit "bhi&#x2F;b   there".
Proof. by vm_compute. Qed.

(** 2024-02-30 on a host that rolls a day past the end of its month over,
    where it is 2024-03-01, and on one that does not. *)
Example parse_date_day_30_of_February :
  parse_date (Host 0 true) (lit "2024-02-30") = Some 1709251200000%Z
  /\ parse_date (Host 0 false) (lit "2024-02-30") = None.
Proof. by vm_compute. Qed.

(** Noon UTC of 2024-02-29 set to the year 2023 is noon of 2023-03-01. *)
Example setFullYear_leap_day :
  civil_from_days (Day 1709208000000) = (2024, 2, 29)%Z
  /\ setFullYear (Host 0 true) 1709208000000 2023 = 1677672000000%Z
  /\ civil_from_days (Day 1677672000000) = (2023, 3, 1)%Z.
Proof. by vm_compute. Qed.

(** The first instant of 2024 UTC is still in 2023 five hours to the west. *)
Example getFullYear_local :
  getFullYear (Host 0 true) 1704067200000 = 2024%Z
  /\ getFullYear (Host (-5 * 3600000) true) 1704067200000 = 2023%Z.
Proof. by vm_compute. Qed.

End BuiltinExamples.

(** ** validators.js: sanitizeInput *)

Module SanitizeProps.
Import JS Regex RegexFacts Validators ValidatorsSpec.

Lemma no_angle_lit s :
  forallb (fun x => negb (class_mem false (COneOf [60; 62]) x)) (lit s) = true ->
  Forall no_angle (lit s).
Proof.
  intros H. apply Forall_forall. intros x Hx.
  rewrite forallb_forall in H. apply negb_true_iff, H. by apply list_elem_of_In.
Qed.

Lemma sanitizeInput_no_angle input : Forall no_angle (sanitizeInput input).
Proof.
  unfold sanitizeInput.
  apply trim_Forall.
  do 6 (apply replace_all_Forall; [by (apply no_angle_lit) || by constructor|]).
  unfold replace_all. apply replace_go_class. lia.
Qed.

(** C10: for every text, the result of [sanitizeInput] contains neither
    the character [<] (code unit 60) nor the character [>] (code unit 62):
    the first step removes them and no later step brings one back. *)
Theorem sanitizeInput_strips_angle_brackets (input : jsstring) :
  (60 ∉ sanitizeInput input) /\ (62 ∉ sanitizeInput input).
Proof.
  pose proof (sanitizeInput_no_angle input) as H.
  rewrite Forall_forall in H.
  split; intros Hin; apply H in Hin; discriminate Hin.
Qed.

End SanitizeProps.

(** ** validators.js: the field patterns *)

Module PatternProps.
Import JS Regex RegexFacts JSDate Validators ValidatorsSpec.
Local Open Scope string_scope.
Local Open Scope list_scope.

Lemma Match_star_class ic cl c c' :
  Match ic (Star (Chr cl)) c c' ->
  exists w, Forall (fun x => class_mem ic cl x = true) w
            /\ rest c = w ++ rest c' /\ seen c' = rev w ++ seen c.
Proof.
  remember (Star (Chr cl)) as r eqn:Er. intros HM. revert Er.
  induction HM as [| | | | | | | | r c | r c c1 c2 H1 _ Hlt _ IH2 | | |];
    intros Er; try discriminate Er.
  - by exists [].
  - injection Er as ->. destruct (IH2 eq_refl) as (w & Hw & E & F).
    inversion H1; subst; simpl in *.
    exists (x :: w). split; [by constructor|]. simpl.
    rewrite E, F. by rewrite <- app_assoc.
Qed.

Lemma Match_star_class_intro ic cl w sn rs cp :
  Forall (fun x => class_mem ic cl x = true) w ->
  Match ic (Star (Chr cl)) (Cursor sn (w ++ rs) cp) (Cursor (rev w ++ sn) rs cp).
Proof.
  intros Hw. revert sn. induction Hw as [|x w Hx Hw IH]; intros sn; simpl.
  - constructor.
  - eapply M_StarS.
    + unfold clear_caps. simpl. by apply M_Chr.
    + simpl. lia.
    + rewrite <- app_assoc. apply IH.
Qed.

Ltac inv_Match :=
  repeat match goal with
  | H : Match _ (Seq _ _) _ _ |- _ => inversion H; subst; clear H
  | H : Match _ (Alt _ _) _ _ |- _ => inversion H; subst; clear H
  | H : Match _ (Group _ _) _ _ |- _ => inversion H; subst; clear H
  | H : Match _ (Chr _) _ _ |- _ => inversion H; subst; clear H
  | H : Match _ Eps _ _ |- _ => inversion H; subst; clear H
  | H : Match _ Bol _ _ |- _ => inversion H; subst; clear H
  | H : Match _ Eol _ _ |- _ => inversion H; subst; clear H
  end.

Ltac norm_units :=
  simpl in *;
  repeat match goal with
  | H : (_ =? _)%N = true |- _ => apply N.eqb_eq in H; subst
  | H : (_ || false) = true |- _ => rewrite orb_false_r in H
  end.

Lemma fraction_tail sn fp cp c' :
  Match false
    (Seq (Alt (Group 2 (Seq (Chr (CLit 46)) (Seq (Chr CDigit) (Alt (Chr CDigit) Eps)))) Eps) Eol)
    (Cursor sn fp cp) c' ->
  fp = [] \/ fraction_text fp.
Proof.
  intros HM. inv_Match; norm_units.
  - right. eexists [_; _]. split; [done|]. split; [by right|]. by repeat constructor.
  - right. eexists [_]. split; [done|]. split; [by left|]. by repeat constructor.
  - by left.
Qed.

Lemma integer_head sn s cp c1 :
  Match false
    (Group 1 (Alt (Chr (CLit 48)) (Seq (Chr (CRange 49 57)) (Star (Chr CDigit)))))
    (Cursor sn s cp) c1 ->
  exists ip, s = ip ++ rest c1 /\ integer_text ip.
Proof.
  intros HM. inv_Match; norm_units.
  - exists [48%N]. split; [done | by left].
  - match goal with H : Match _ (Star _) _ _ |- _ =>
      apply Match_star_class in H as (w & Hw & E & _) end.
    simpl in E. subst.
    eexists (_ :: w). split; [done|]. right. eexists _, w.
    split; [done|]. split; [done | exact Hw].
Qed.

(** The amount pattern accepts exactly the texts of the amount format. *)
Lemma re_amount_format s : test false re_amount s = true <-> amount_format s.
Proof.
  change re_amount with
    (Seq Bol (Seq (Group 1 (Alt (Chr (CLit 48)) (Seq (Chr (CRange 49 57)) (Star (Chr CDigit)))))
       (Seq (Alt (Group 2 (Seq (Chr (CLit 46)) (Seq (Chr CDigit) (Alt (Chr CDigit) Eps)))) Eps) Eol))).
  rewrite test_Bol. unfold start. split.
  - intros (c' & HM).
    inversion HM as [| | | | | r1 r2 c c1 c2 H1 H2 | | | | | | |]; subst; clear HM.
    inversion H1; subst; clear H1.
    inversion H2 as [| | | | | r1 r2 c c1' c2 HG HT | | | | | | |]; subst; clear H2.
    apply integer_head in HG as (ip & -> & Hip).
    destruct c1' as [sn1 fp cp1]. apply fraction_tail in HT. simpl.
    by exists ip, fp.
  - intros (ip & fp & -> & Hip & Hfp).
    assert (exists cp, Match false
              (Group 1 (Alt (Chr (CLit 48)) (Seq (Chr (CRange 49 57)) (Star (Chr CDigit)))))
              (Cursor [] (ip ++ fp) ∅) (Cursor (rev ip) fp cp)) as (cp & HG).
    { destruct Hip as [-> | (d & ds & -> & Hd & Hds)].
      - eexists. eapply (M_Group _ 1 _ (Cursor [] _ ∅) (Cursor [48%N] fp ∅)).
        apply M_AltL. by apply M_Chr.
      - eexists. eapply (M_Group _ 1 _ (Cursor [] _ ∅) (Cursor (rev (d :: ds)) fp ∅)).
        apply M_AltR. eapply M_Seq.
        { apply M_Chr. simpl. rewrite orb_false_r. exact Hd. }
        simpl. rewrite <- (app_nil_r (rev ds ++ [d])), <- app_assoc.
        by apply Match_star_class_intro. }
    destruct Hfp as [-> | (ds & -> & Hl & Hds)].
    + eexists. eapply M_Seq; [by apply M_Bol|]. eapply M_Seq; [apply HG|].
      eapply M_Seq; [apply M_AltR, M_Eps|]. by apply M_Eol.
    + destruct ds as [|d1 [|d2 [|? ?]]]; simpl in Hl; try lia.
      * apply Forall_cons in Hds as [H1 _].
        eexists. eapply M_Seq; [by apply M_Bol|]. eapply M_Seq; [apply HG|].
        eapply M_Seq.
        { apply M_AltL.
          eapply (M_Group _ 2 _ (Cursor _ _ _) (Cursor _ _ _)).
          eapply M_Seq; [by apply M_Chr|]. eapply M_Seq; [by apply M_Chr|].
          apply M_AltR, M_Eps. }
        by apply M_Eol.
      * apply Forall_cons in Hds as [H1 Hds]. apply Forall_cons in Hds as [H2 _].
        eexists. eapply M_Seq; [by apply M_Bol|]. eapply M_Seq; [apply HG|].
        eapply M_Seq.
        { apply M_AltL.
          eapply (M_Group _ 2 _ (Cursor _ _ _) (Cursor _ _ _)).
          eapply M_Seq; [by apply M_Chr|]. eapply M_Seq; [by apply M_Chr|].
          apply M_AltL. by apply M_Chr. }
        by apply M_Eol.
Qed.


Ltac units_to_Prop :=
  simpl in *;
  unfold digit_unit, nonzero_digit_unit, is_digit, in_range, digits_value in *;
  simpl in *;
  repeat (progress rewrite ?andb_true_iff, ?orb_true_iff, ?N.leb_le, ?N.eqb_eq in * ).

Ltac chr := apply M_Chr; first [reflexivity | units_to_Prop; lia].

Lemma re_date_format s : test false re_date s = true <-> date_format s.
Proof.
  let r := eval vm_compute in re_date in change re_date with r.
  rewrite test_Bol. unfold start. split.
  - intros (c' & HM). inv_Match; norm_units; subst;
      (eexists _, _, _, _, _, _, _, _; split; [reflexivity|]);
      units_to_Prop; (split; [repeat constructor|]); units_to_Prop; lia.
  - intros (y1 & y2 & y3 & y4 & m1 & m2 & d1 & d2 & -> & Hd & Hm & Hday).
    repeat match goal with H : Forall _ (_ :: _) |- _ =>
      apply Forall_cons in H as [? H] end.
    units_to_Prop.
    assert (Hm1 : m1 = 48%N \/ m1 = 49%N) by lia.
    assert (Hd1 : d1 = 48%N \/ (d1 = 49%N \/ d1 = 50%N) \/ d1 = 51%N) by lia.
    eexists. eapply M_Seq; [by apply M_Bol|].
    do 5 (eapply M_Seq; [chr|]).
    eapply M_Seq.
    { eapply (M_Group _ 1 _ (Cursor _ _ _) (Cursor _ _ _)).
      destruct Hm1 as [-> | ->].
      - apply M_AltL. eapply M_Seq; chr.
      - apply M_AltR. eapply M_Seq; chr. }
    eapply M_Seq; [chr|].
    eapply M_Seq.
    { eapply (M_Group _ 2 _ (Cursor _ _ _) (Cursor _ _ _)).
      destruct Hd1 as [-> | [Hd1 | ->]].
      - apply M_AltL. eapply M_Seq; chr.
      - apply M_AltR, M_AltL. eapply M_Seq; chr.
      - apply M_AltR, M_AltR. eapply M_Seq; chr. }
    by apply M_Eol.
Qed.



(** *** What [validateForm] reports for one field *)

Lemma errors_fail f g msg r :
  errors (fail f msg r) !! g = if decide (f = g) then Some msg else errors r !! g.
Proof. unfold fail. simpl. rewrite lookup_insert. by repeat case_decide. Qed.

Lemma errors_fail_ne f g msg r :
  f <> g -> errors (fail f msg r) !! g = errors r !! g.
Proof. intros Hne. rewrite errors_fail. by case_decide. Qed.

Lemma errors_check_required_ne fd f g r :
  f <> g -> errors (check_required fd f r) !! g = errors r !! g.
Proof.
  intros Hne. unfold check_required.
  destruct (fd !! f) as [v|]; [destruct (blank v)|]; by rewrite ?errors_fail_ne.
Qed.

Lemma errors_check_description_ne fd g r :
  "description" <> g -> errors (check_description fd r) !! g = errors r !! g.
Proof.
  intros Hne. unfold check_description.
  destruct (given fd "description") as [v|]; [|done].
  destruct (isValid _); by rewrite ?errors_fail_ne.
Qed.

Lemma errors_check_amount_ne fd g r :
  "amount" <> g -> errors (check_amount fd r) !! g = errors r !! g.
Proof.
  intros Hne. unfold check_amount.
  destruct (given fd "amount") as [v|]; [|done].
  destruct (negb _); [by rewrite errors_fail_ne|].
  destruct (nle _ _); [by rewrite errors_fail_ne|].
  destruct (ngt _ _); by rewrite ?errors_fail_ne.
Qed.

Lemma errors_check_date_ne h today now' fd g r :
  "date" <> g -> errors (check_date h today now' fd r) !! g = errors r !! g.
Proof.
  intros Hne. unfold check_date.
  destruct (given fd "date") as [v|]; [|done].
  destruct (negb _); [by rewrite errors_fail_ne|].
  destruct (after _ _); [by rewrite errors_fail_ne|].
  destruct (before _ _); by rewrite ?errors_fail_ne.
Qed.

Lemma errors_warnings fd r :
  errors (check_largeAmount fd (check_duplicateWords fd r)) = errors r.
Proof.
  unfold check_largeAmount, check_duplicateWords.
  destruct (given fd "amount") as [a|], (given fd "description") as [d|];
    repeat match goal with |- context [if ?b then _ else _] => destruct b end; done.
Qed.

(** The entry of [field] in the errors once the required fields have been
    looked at. *)
Lemma errors_required fd field :
  field ∈ requiredFields ->
  errors (foldl (fun r f => check_required fd f r) (FormResult true ∅ ∅) requiredFields)
    !! field
  = match fd !! field with
    | Some v => if blank v then Some (capitalize field ++ " is required.")%string else None
    | None => Some (capitalize field ++ " is required.")%string
    end.
Proof.
  intros Hin. unfold requiredFields in *. simpl.
  repeat (apply elem_of_cons in Hin as [-> | Hin]);
    [ .. | by apply elem_of_nil in Hin];
    rewrite ?errors_check_required_ne by discriminate;
    unfold check_required at 1;
    (destruct (fd !! _) as [v|]; [destruct (blank v)|]);
    rewrite ?errors_fail;
    try (case_decide; [|done]);
    rewrite ?errors_check_required_ne by discriminate; done.
Qed.

Lemma validateField_amount v :
  isValid (validateField "amount" v) = negb (blank v) && test false re_amount v.
Proof.
  unfold validateField. destruct (blank v); [done|].
  change (REGEX_PATTERNS !! "amount") with (Some (false, re_amount)).
  simpl. by destruct (test false re_amount v).
Qed.

Lemma validateField_date v :
  isValid (validateField "date" v) = negb (blank v) && test false re_date v.
Proof.
  unfold validateField. destruct (blank v); [done|].
  change (REGEX_PATTERNS !! "date") with (Some (false, re_date)).
  simpl. by destruct (test false re_date v).
Qed.

Lemma blank_truthy v : blank v = false -> truthy_str v = true.
Proof. unfold blank. by destruct (truthy_str v). Qed.

Lemma message_validateField_amount v :
  message (validateField "amount" v) =
  if blank v then "This field is required."
  else if test false re_amount v then EmptyString
  else "Amount must be a positive number with maximum 2 decimal places.".
Proof.
  unfold validateField. destruct (blank v); [done|].
  change (REGEX_PATTERNS !! "amount") with (Some (false, re_amount)).
  cbn [String.eqb Ascii.eqb Bool.eqb andb]. by destruct (test false re_amount v).
Qed.

Lemma errors_amount h today now' (fd : form) (s : jsstring) :
  fd !! "amount" = Some s ->
  errors (validateForm h today now' fd) !! "amount" = amount_error s.
Proof.
  intros Hs. unfold validateForm, amount_error. rewrite errors_warnings.
  rewrite errors_check_date_ne by discriminate.
  unfold check_amount, given. rewrite Hs.
  pose proof (errors_required fd "amount") as Hreq.
  rewrite Hs in Hreq.
  destruct (truthy_str s) eqn:Ht.
  - rewrite validateField_amount, message_validateField_amount.
    destruct (blank s) eqn:Hb; cbn [negb andb].
    { rewrite errors_fail. by case_decide. }
    destruct (test false re_amount s); cbn [negb andb].
    2:{ rewrite errors_fail. by case_decide. }
    destruct (nle _ _).
    { rewrite errors_fail. by case_decide. }
    destruct (ngt _ _).
    { rewrite errors_fail. by case_decide. }
    rewrite errors_check_description_ne by discriminate.
    rewrite Hreq by (unfold requiredFields; set_solver). done.
  - assert (blank s = true) as Hb by (unfold blank; by rewrite Ht).
    rewrite errors_check_description_ne by discriminate.
    rewrite Hreq by (unfold requiredFields; set_solver). by rewrite Hb.
Qed.

Lemma drop_while_head p x t : p x = false -> drop_while p (x :: t) = x :: t.
Proof. intros H. simpl. by rewrite H. Qed.

(** A text without white space is not blank, unless it is empty. *)
Lemma trim_no_space s :
  Forall (fun x => is_white_space x = false) s -> trim s = s.
Proof.
  intros Hs. unfold trim, trimStart.
  assert (drop_while is_white_space s = s) as ->.
  { destruct Hs; [done|]. by apply drop_while_head. }
  apply Forall_rev in Hs.
  assert (drop_while is_white_space (rev s) = rev s) as ->.
  { destruct Hs; [done|]. by apply drop_while_head. }
  apply rev_involutive.
Qed.

Lemma digit_not_space x : is_digit x = true -> is_white_space x = false.
Proof.
  intros H. apply not_true_iff_false. intros Hw.
  unfold is_white_space in Hw. units_to_Prop. lia.
Qed.

Lemma amount_format_units s :
  amount_format s ->
  exists d t, s = d :: t /\ is_digit d = true
              /\ Forall (fun x => is_white_space x = false) s.
Proof.
  intros (ip & fp & -> & Hip & Hfp).
  assert (Forall (fun x => is_white_space x = false) fp) as Hfp'.
  { destruct Hfp as [-> | (ds & -> & _ & Hds)]; [done|].
    constructor; [done|]. eapply Forall_impl; [exact Hds|]. apply digit_not_space. }
  destruct Hip as [-> | (d & ds & -> & Hd & Hds)].
  - exists 48%N, fp. split; [done|]. split; [done|]. by constructor.
  - exists d, (ds ++ fp). split; [done|].
    assert (is_digit d = true) as Hd' by (units_to_Prop; lia).
    split; [done|]. constructor; [by apply digit_not_space|].
    apply Forall_app. split; [|done].
    eapply Forall_impl; [exact Hds|]. apply digit_not_space.
Qed.

Lemma amount_format_not_blank s : amount_format s -> blank s = false.
Proof.
  intros (d & t & -> & _ & Hs)%amount_format_units.
  unfold blank. by rewrite trim_no_space.
Qed.

(** A text that starts with a digit reads as a number. *)
Lemma parseFloat_digit d t :
  is_digit d = true -> exists q, parseFloat (d :: t) = Num q.
Proof.
  intros Hd. unfold parseFloat, trimStart.
  rewrite drop_while_head by (by apply digit_not_space).
  assert (take_sign (d :: t) = (false, d :: t)) as ->.
  { unfold take_sign.
    assert ((d =? 45)%N = false) as -> by (apply N.eqb_neq; units_to_Prop; lia).
    assert ((d =? 43)%N = false) as -> by (apply N.eqb_neq; units_to_Prop; lia).
    done. }
  simpl. rewrite Hd. destruct (span_digits t) as [ds r].
  destruct r as [|x r']; [by eexists|].
  destruct (x =? 46)%N; [destruct (span_digits r')|]; by eexists.
Qed.



Lemma Qltb_lt x y : Qltb x y = true <-> (x < y)%Q.
Proof. unfold Qltb. rewrite Qlt_alt. by destruct (x ?= y)%Q. Qed.

Lemma nle_Num_false q z : nle (Num q) (of_Z z) = false <-> (inject_Z z < q)%Q.
Proof.
  simpl. rewrite <- not_true_iff_false, Qle_bool_iff. split.
  - apply Qnot_le_lt.
  - apply Qlt_not_le.
Qed.

Lemma ngt_Num_false q b : ngt (Num q) (Num b) = false <-> (q <= b)%Q.
Proof.
  unfold ngt. simpl. rewrite <- not_true_iff_false, Qltb_lt. split.
  - apply Qnot_lt_le.
  - apply Qle_not_lt.
Qed.

(** C1: for every amount text [s] put in a form, [validateForm] leaves no
    error for the amount exactly when [s] has the amount format (an integer
    with no leading zero, or exactly 0, optionally followed by a decimal
    point and one or two digits) and the number it reads as is greater than
    0 and at most 999999.99.  Of the four texts of the specification,
    12.34 passes, 12.345 fails on the format, 0 has the format and fails
    the positivity check, and 1000000 fails the upper bound. *)
Theorem amount_accepted_iff (h : host) (today now' : Z) (formData : form)
  (s : jsstring) :
  let amount_of x :=
    errors (validateForm h today now' (<["amount" := x]> formData)) !! "amount" in
  (amount_of s = None <->
   amount_format s /\
   exists q, parseFloat s = Num q /\ (0 < q)%Q /\ (q <= 99999999 # 100)%Q)
  /\ amount_of (lit "12.34") = None
  /\ amount_of (lit "12.345")
     = Some "Amount must be a positive number with maximum 2 decimal places."
  /\ (amount_format (lit "0")
      /\ amount_of (lit "0") = Some "Amount must be greater than 0.")
  /\ amount_of (lit "1000000") = Some "Amount is too large.".
Proof.
  intros amount_of.
  assert (Heq : forall x, amount_of x = amount_error x).
  { intros x. apply errors_amount. by rewrite lookup_insert_eq. }
  rewrite !Heq. split.
  { unfold amount_error. split.
    - destruct (blank s) eqn:Hb; [done|].
      destruct (test false re_amount s) eqn:Ht; [|done]. cbn [negb].
      apply re_amount_format in Ht as Hf.
      destruct (amount_format_units s Hf) as (d & t & -> & Hd & _).
      destruct (parseFloat_digit d t Hd) as (q & Hq). rewrite Hq.
      destruct (nle _ _) eqn:Hle; [done|].
      destruct (ngt _ _) eqn:Hgt; [done|]. intros _.
      split; [done|]. exists q. split; [done|].
      apply nle_Num_false in Hle. apply ngt_Num_false in Hgt. done.
    - intros (Hf & q & Hq & Hpos & Hmax).
      rewrite (amount_format_not_blank s Hf).
      apply re_amount_format in Hf as ->. cbn [negb]. rewrite Hq.
      apply (nle_Num_false q 0) in Hpos as ->.
      by apply ngt_Num_false in Hmax as ->. }
  split; [by vm_compute|]. split; [by vm_compute|].
  split; [|by vm_compute].
  split; [|by vm_compute]. apply re_amount_format. by vm_compute.
Qed.

End PatternProps.

(** ** Dates: one year back *)

Module DateProps.
Import JS JSDate EraCheck ZoneSpec.
Local Open Scope Z_scope.

Lemma in_digits53 x : 0 <= x < 53 -> In x digits53.
Proof.
  intros Hx. unfold digits53. apply in_map_iff. exists (Z.to_nat x).
  split; [lia|]. apply in_seq. lia.
Qed.


Lemma check_all : forallb check1 digits53 = true.
Proof. vm_cast_no_check (eq_refl true). Qed.

Lemma doe_round_trip_ok doe : 0 <= doe < 146097 -> doe_round_trip doe = true.
Proof.
  intros Hd.
  assert (0 <= doe / 2809 < 53) as Ha.
  { split; [apply Z.div_pos; lia | apply Z.div_lt_upper_bound; lia]. }
  assert (0 <= doe / 53 mod 53 < 53) as Hb by (apply Z.mod_pos_bound; lia).
  assert (0 <= doe mod 53 < 53) as Hc by (apply Z.mod_pos_bound; lia).
  pose proof (proj1 (forallb_forall check1 digits53) check_all _ (in_digits53 _ Ha)) as H1.
  pose proof (proj1 (forallb_forall (check2 _) digits53) H1 _ (in_digits53 _ Hb)) as H2.
  pose proof (proj1 (forallb_forall (check3 _ _) digits53) H2 _ (in_digits53 _ Hc)) as H3.
  unfold check3 in H3.
  assert (((doe / 2809) * 53 + doe / 53 mod 53) * 53 + doe mod 53 = doe) as E.
  { change 2809 with (53 * 53). rewrite <- Z.div_div by lia.
    pose proof (Z.div_mod (doe / 53) 53). pose proof (Z.div_mod doe 53). lia. }
  rewrite E in H3.
  destruct (146097 <=? doe) eqn:Hle; [lia|]. exact H3.
Qed.

Lemma civil_from_days_spec z y mth d :
  civil_from_days z = (y, mth, d) ->
  1 <= mth <= 12 /\ days_from_civil y mth d = z.
Proof.
  unfold civil_from_days.
  set (z' := z + 719468). set (era := z' / 146097). set (doe := z' mod 146097).
  assert (0 <= doe < 146097) as Hdoe by (apply Z.mod_pos_bound; lia).
  pose proof (doe_round_trip_ok doe Hdoe) as Hrt.
  unfold doe_round_trip, civil_of_doe in Hrt.
  set (yoe := (doe - doe / 1460 + doe / 36524 - doe / 146096) / 365) in *.
  set (doy := doe - (365 * yoe + yoe / 4 - yoe / 100)) in *.
  set (mp := (5 * doy + 2) / 153) in *.
  set (m0 := if mp <? 10 then mp + 3 else mp - 9) in *.
  set (d0 := doy - (153 * mp + 2) / 5 + 1) in *.
  intros [= <- <- <-].
  rewrite !andb_true_iff in Hrt. destruct Hrt as ((((H0 & H399) & H1) & H12) & Heq).
  apply Z.leb_le in H0, H399, H1, H12. apply Z.eqb_eq in Heq.
  split; [lia|].
  unfold days_from_civil.
  assert ((if m0 <=? 2 then (if m0 <=? 2 then yoe + era * 400 + 1 else yoe + era * 400) - 1
           else (if m0 <=? 2 then yoe + era * 400 + 1 else yoe + era * 400))
          = yoe + era * 400) as -> by (destruct (m0 <=? 2); lia).
  assert ((yoe + era * 400) / 400 = era) as ->.
  { rewrite Z.div_add by lia. rewrite Z.div_small by lia. lia. }
  assert ((yoe + era * 400) mod 400 = yoe) as ->.
  { rewrite Z.mod_add by lia. apply Z.mod_small. lia. }
  unfold doe_of_civil in Heq.
  pose proof (Z.div_mod z' 146097 ltac:(lia)). subst z' era doe. lia.
Qed.


(** From one year to the next the same month and day lie 365 days apart, or
    366 with a 29 February in between. *)
Lemma days_from_civil_year y mth d :
  1 <= mth <= 12 ->
  days_from_civil y mth d - days_from_civil (y - 1) mth d
  = if (if mth <=? 2 then is_leap (y - 1) else is_leap y) then 366 else 365.
Proof.
  intros Hm. unfold days_from_civil, is_leap.
  destruct (mth <=? 2);
    repeat match goal with
           | |- context [?a =? ?b] => destruct (Z.eqb_spec a b)
           end; cbn [andb orb negb];
    Z.div_mod_to_equations; lia.
Qed.

Lemma MakeDay_month y mth d :
  1 <= mth <= 12 -> MakeDay y (mth - 1) d = days_from_civil y mth d.
Proof.
  intros Hm. unfold MakeDay.
  rewrite Z.div_small, Z.mod_small by lia. f_equal; lia.
Qed.

(** [setFullYear] to the year before keeps the local time of day and goes
    back 365 days on the local calendar, or 366 across a 29 February; the
    instant it gives depends on the daylight saving adjustments at the two
    ends. *)
Lemma setFullYear_back h t :
  let k := if leap_day_behind h t then 366 else 365 in
  setFullYear h t (getFullYear h t - 1)
  = t - k * msPerDay
    + (dst h t true - dst h (LocalTime h t - k * msPerDay) false).
Proof.
  unfold leap_day_behind, setFullYear, getFullYear, YearFromTime, MonthFromTime,
    DateFromTime, UTC, MakeDate, TimeWithinDay.
  set (lt := LocalTime h t).
  destruct (civil_from_days (Day lt)) as [[y mth] d] eqn:E.
  apply civil_from_days_spec in E as [Hm E]. cbn [fst snd].
  rewrite MakeDay_month by done.
  pose proof (days_from_civil_year y mth d Hm) as Hy. rewrite E in Hy.
  assert ((mth - 1 <=? 1) = (mth <=? 2)) as -> by (destruct (Z.leb_spec mth 2); lia).
  set (k := if (if mth <=? 2 then is_leap (y - 1) else is_leap y) then 366 else 365)
    in *.
  pose proof (Z.div_mod lt msPerDay ltac:(done)) as Hdm. unfold Day in Hy.
  assert (days_from_civil (y - 1) mth d * msPerDay + lt mod msPerDay
          = lt - k * msPerDay) as -> by (unfold msPerDay in *; lia).
  unfold LocalTZA. subst lt. unfold LocalTime, LocalTZA. lia.
Qed.

(** So it lies between 365 and 366 days back, give or take the largest
    difference of two adjustments. *)
Lemma setFullYear_back_within h t delta :
  dst_within h delta ->
  t - 366 * msPerDay - delta <= setFullYear h t (getFullYear h t - 1)
  <= t - 365 * msPerDay + delta.
Proof.
  intros Hd. rewrite setFullYear_back. cbv zeta.
  set (k := if leap_day_behind h t then 366 else 365).
  pose proof (Hd t (LocalTime h t - k * msPerDay) true false).
  pose proof (Hd (LocalTime h t - k * msPerDay) t false true).
  assert (365 <= k <= 366) by (unfold k; destruct (leap_day_behind h t); lia).
  unfold msPerDay in *. lia.
Qed.

Lemma setFullYear_back_steady h t :
  dst_within h 0 ->
  setFullYear h t (getFullYear h t - 1)
  = t - (if leap_day_behind h t then 366 else 365) * msPerDay.
Proof.
  intros Hd. rewrite setFullYear_back. cbv zeta.
  set (k := if leap_day_behind h t then 366 else 365).
  pose proof (Hd t (LocalTime h t - k * msPerDay) true false).
  pose proof (Hd (LocalTime h t - k * msPerDay) t false true). lia.
Qed.

Lemma dst_within_Host z b : dst_within (Host z b) 0.
Proof. by intros t t' i i'. Qed.

Lemma dst_within_new_york : dst_within new_york 3600000.
Proof.
  intros t t' i i'. unfold new_york. cbn [dst].
  repeat match goal with |- context [if ?c then _ else _] => destruct c end; lia.
Qed.

End DateProps.

(** ** validators.js: the date of a form *)

Module DateValidation.
Import JS Regex RegexFacts JSDate Validators ValidatorsSpec PatternProps DateProps
  ZoneSpec.
Local Open Scope string_scope.
Local Open Scope list_scope.

Lemma message_validateField_date v :
  message (validateField "date" v) =
  if blank v then "This field is required."
  else if test false re_date v then EmptyString
  else "Date must be in YYYY-MM-DD format.".
Proof.
  unfold validateField. destruct (blank v); [done|].
  change (REGEX_PATTERNS !! "date") with (Some (false, re_date)).
  cbn [String.eqb Ascii.eqb Bool.eqb andb]. by destruct (test false re_date v).
Qed.

Lemma errors_date h today now' (fd : form) (s : jsstring) :
  fd !! "date" = Some s ->
  errors (validateForm h today now' fd) !! "date" = date_error h today now' s.
Proof.
  intros Hs. unfold validateForm, date_error. rewrite errors_warnings.
  unfold check_date, given. rewrite Hs.
  pose proof (errors_required fd "date") as Hreq.
  rewrite Hs in Hreq.
  destruct (truthy_str s) eqn:Ht.
  - rewrite validateField_date, message_validateField_date.
    destruct (blank s) eqn:Hb; cbn [negb andb].
    { rewrite errors_fail. by case_decide. }
    destruct (test false re_date s); cbn [negb andb].
    2:{ rewrite errors_fail. by case_decide. }
    destruct (after _ _).
    { rewrite errors_fail. by case_decide. }
    destruct (before _ _).
    { rewrite errors_fail. by case_decide. }
    rewrite errors_check_amount_ne by discriminate.
    rewrite errors_check_description_ne by discriminate.
    rewrite Hreq by (unfold requiredFields; set_solver). done.
  - assert (blank s = true) as Hb by (unfold blank; by rewrite Ht).
    rewrite errors_check_amount_ne by discriminate.
    rewrite errors_check_description_ne by discriminate.
    rewrite Hreq by (unfold requiredFields; set_solver). by rewrite Hb.
Qed.

Lemma date_format_not_blank s : date_format s -> blank s = false.
Proof.
  intros (y1 & y2 & y3 & y4 & m1 & m2 & d1 & d2 & -> & Hd & _).
  unfold blank. rewrite trim_no_space; [done|].
  repeat match goal with H : Forall _ (_ :: _) |- _ =>
    apply Forall_cons in H as [? H] end.
  repeat constructor; by apply digit_not_space.
Qed.

Lemma date_error_None h today now' s :
  date_error h today now' s = None <->
  date_format s /\ after (parse_date h s) today = false
  /\ before (parse_date h s) (setFullYear h now' (getFullYear h today - 1)) = false.
Proof.
  unfold date_error. split.
  - destruct (blank s); [done|].
    destruct (test false re_date s) eqn:Ht; [|done]. cbn [negb].
    apply re_date_format in Ht.
    destruct (after _ _); [done|]. by destruct (before _ _).
  - intros (Hf & -> & ->). rewrite (date_format_not_blank s Hf).
    by apply re_date_format in Hf as ->.
Qed.

(** A text that [parse_date] reads has the format of a date. *)
Lemma parse_date_format h s t : parse_date h s = Some t -> date_format s.
Proof.
  unfold parse_date.
  do 10 (destruct s as [|? s]; [done|]). destruct s; [|done].
  destruct (_ && _ && forallb _ _) eqn:Hc; [|done].
  destruct (_ && _ && _ && _ && _) eqn:Hr; [|done]. intros _.
  apply andb_prop in Hc as [Hc Hd]. apply andb_prop in Hc as [H1 H2].
  apply N.eqb_eq in H1 as ->. apply N.eqb_eq in H2 as ->.
  repeat (apply andb_prop in Hr as [Hr ?]).
  eexists _, _, _, _, _, _, _, _. split; [done|]. split.
  - apply Forall_forall. intros x Hx. apply list_elem_of_In in Hx.
    eapply forallb_forall in Hd; [exact Hd|done].
  - lia.
Qed.

(** C2: for every date text [s] put in a form, [validateForm] leaves no
    error for the date exactly when [s] has the form YYYY-MM-DD with a month
    from 01 to 12 and a day from 01 to 31 (2024-02-30 has it) and the date it
    parses to is neither after the clock reading nor before the reading set
    back by one year.  A date still to come, such as 2031-01-01 before the
    year 2031, is refused.  With [delta] the most that two daylight saving
    adjustments of the host differ by (0 for a zone without daylight saving)
    and the two readings of the clock in one local year: a date whose
    midnight UTC lies more than 366 days and [delta] before the clock reading
    is refused, and a date whose midnight UTC lies at most 365 days less
    [delta] before it passes, so one that lies 300 days back does.  Where
    the adjustments are all the same, a date whose midnight UTC lies 366 days
    back to the millisecond passes exactly when a 29 February lies in the
    year behind.  A text of the form that the host reads as Invalid Date,
    as 2024-02-30 is outside V8, passes whatever the clock reads. *)
Theorem date_accepted_iff (h : host) (today now' : Z) (formData : form)
  (s : jsstring) :
  let date_of t t' x :=
    errors (validateForm h t t' (<["date" := x]> formData)) !! "date" in
  (date_of today now' s = None <->
   date_format s /\ after (parse_date h s) today = false
   /\ before (parse_date h s) (setFullYear h now' (getFullYear h today - 1)) = false)
  /\ date_format (lit "2024-02-30")
  /\ ((today < 1924992000000)%Z ->
      date_of today now' (lit "2031-01-01") = Some "Date cannot be in the future.")
  /\ (forall t delta, parse_date h s = Some t ->
        dst_within h delta ->
        getFullYear h now' = getFullYear h today ->
        (t <= today)%Z ->
        (t + 366 * msPerDay + delta < now')%Z ->
        date_of today now' s = Some "Date cannot be more than one year ago.")
  /\ (forall t delta, parse_date h s = Some t ->
        dst_within h delta ->
        getFullYear h now' = getFullYear h today ->
        (now' - 365 * msPerDay + delta <= t <= today)%Z ->
        date_of today now' s = None)
  /\ (dst_within h 0 ->
      parse_date h s = Some (today - 366 * msPerDay)%Z ->
      (date_of today today s = None <-> leap_day_behind h today = true))
  /\ (date_format s -> parse_date h s = None -> date_of today now' s = None).
Proof.
  intros date_of.
  assert (Heq : forall t t' x, date_of t t' x = date_error h t t' x).
  { intros t t' x. apply errors_date. by rewrite lookup_insert_eq. }
  split; [rewrite Heq; apply date_error_None|].
  split; [apply re_date_format; by vm_compute|].
  split; [|split; [|split; [|split]]].
  - intros Hlt. rewrite Heq. unfold date_error.
    change (blank (lit "2031-01-01")) with false.
    change (test false re_date (lit "2031-01-01")) with true.
    assert (parse_date h (lit "2031-01-01") = Some 1924992000000%Z) as ->.
    { unfold parse_date. destruct (rolls_over h); by vm_compute. }
    cbn [negb after]. by rewrite (proj2 (Z.ltb_lt _ _) Hlt).
  - intros t delta Ht Hd Hy Hle Hlt. pose proof (parse_date_format h s t Ht) as Hf.
    rewrite Heq. unfold date_error.
    rewrite (date_format_not_blank s Hf). apply re_date_format in Hf as ->.
    rewrite Ht. cbn [negb after before]. rewrite <- Hy.
    pose proof (setFullYear_back_within h now' delta Hd) as Hb. unfold msPerDay in *.
    rewrite (proj2 (Z.ltb_ge _ _)) by lia.
    by rewrite (proj2 (Z.ltb_lt _ _)) by lia.
  - intros t delta Ht Hd Hy Hlt. pose proof (parse_date_format h s t Ht) as Hf.
    rewrite Heq. apply date_error_None.
    split; [done|]. rewrite Ht. cbn [after before]. rewrite <- Hy.
    pose proof (setFullYear_back_within h now' delta Hd) as Hb. unfold msPerDay in *.
    split; apply Z.ltb_ge; lia.
  - intros Hd Ht. pose proof (parse_date_format h s _ Ht) as Hf.
    rewrite Heq, date_error_None, Ht. cbn [after before].
    rewrite (setFullYear_back_steady h today Hd). unfold msPerDay.
    destruct (leap_day_behind h today).
    + split; [done|]. intros _. split; [done|]. split; apply Z.ltb_ge; lia.
    + split; [|done]. intros (_ & _ & Hb). apply Z.ltb_ge in Hb. lia.
  - intros Hf Hp. rewrite Heq. apply date_error_None. by rewrite Hp.
Qed.

(** At noon UTC of 2026-11-03, in a zone without daylight saving:
    2031-01-01 is refused, 2025-11-02 (366 days back) is refused, 2026-01-07
    (300 days back) passes.  In New York at 19:30 of 2024-11-04, 2023-11-03 is
    refused: its midnight UTC lies more than 366 days and an hour back. *)
Lemma date_accepted_iff_witness :
  let h := Host 0 true in
  let now := 1793707200000%Z in
  let date_of x := errors (validateForm h now now (<["date" := lit x]> ∅)) !! "date" in
  date_of "2031-01-01" = Some "Date cannot be in the future."
  /\ date_of "2025-11-02" = Some "Date cannot be more than one year ago."
  /\ date_of "2026-01-07" = None
  /\ errors (validateForm new_york 1730766600000 1730766600000
               (<["date" := lit "2023-11-03"]> ∅)) !! "date"
     = Some "Date cannot be more than one year ago.".
Proof.
  intros h now date_of. split; [|split; [|split]].
  - by apply (date_accepted_iff h now now ∅ (lit "2031-01-01")).
  - apply (proj1 (proj2 (proj2 (proj2
             (date_accepted_iff h now now ∅ (lit "2025-11-02")))))
             1762041600000%Z 0%Z).
    + by vm_compute.
    + apply dst_within_Host.
    + done.
    + by vm_compute.
    + by vm_compute.
  - apply (proj1 (proj2 (proj2 (proj2 (proj2
             (date_accepted_iff h now now ∅ (lit "2026-01-07"))))))
             1767744000000%Z 0%Z).
    + by vm_compute.
    + apply dst_within_Host.
    + done.
    + unfold now, msPerDay. lia.
  - apply (proj1 (proj2 (proj2 (proj2
             (date_accepted_iff new_york 1730766600000 1730766600000 ∅
                (lit "2023-11-03")))))
             1698969600000%Z 3600000%Z).
    + by vm_compute.
    + apply dst_within_new_york.
    + done.
    + by vm_compute.
    + by vm_compute.
Defined.

(** At midnight UTC of 2024-03-01 the date 2023-03-01 lies 366 days back to
    the millisecond, and it is accepted: the year behind contains a
    29 February, so it is also the clock reading set back by one year. *)
Lemma date_366_days_back_accepted :
  let h := Host 0 true in
  let now := 1709251200000%Z in
  parse_date h (lit "2023-03-01") = Some (now - 366 * msPerDay)%Z
  /\ setFullYear h now (getFullYear h now - 1) = (now - 366 * msPerDay)%Z
  /\ errors (validateForm h now now {["date" := lit "2023-03-01"]}) !! "date" = None.
Proof. by vm_compute. Qed.

(** Two hours east of UTC, at one in the morning of 2024-06-15: the same day
    of the year before, 366 days back on the calendar, is accepted, since
    its midnight UTC comes after one in the morning, local time, of that
    day; the day before it is refused. *)
Lemma date_same_day_last_year_east :
  let h := Host (2 * 3600000) true in
  let now := 1718406000000%Z in
  civil_from_days (Day (LocalTime h now)) = (2024, 6, 15)%Z
  /\ TimeWithinDay (LocalTime h now) = 3600000%Z
  /\ (days_from_civil 2024 6 15 - days_from_civil 2023 6 15 = 366)%Z
  /\ errors (validateForm h now now {["date" := lit "2023-06-15"]}) !! "date" = None
  /\ errors (validateForm h now now {["date" := lit "2023-06-14"]}) !! "date"
     = Some "Date cannot be more than one year ago.".
Proof. by vm_compute. Qed.

(** New York, 19:30 of 2024-11-04 on its clocks, which went back an hour the
    day before: the reading set back by one year is 19:30 of 2023-11-04, when
    daylight time was still on, and so an hour more than 366 days back.  The
    date 2023-11-05, whose midnight UTC lies 366 days and 30 minutes back, is
    accepted; in a zone five hours west without daylight saving it is
    refused. *)
Lemma date_366_days_back_daylight_saving :
  let now := 1730766600000%Z in
  parse_date new_york (lit "2023-11-05")
  = Some (now - 366 * msPerDay - 30 * 60000)%Z
  /\ setFullYear new_york now (getFullYear new_york now - 1)
     = (now - 366 * msPerDay - 3600000)%Z
  /\ leap_day_behind new_york now = true
  /\ errors (validateForm new_york now now {["date" := lit "2023-11-05"]}) !! "date"
     = None
  /\ errors (validateForm (Host (-5 * 3600000) true) now now
               {["date" := lit "2023-11-05"]}) !! "date"
     = Some "Date cannot be more than one year ago.".
Proof. by vm_compute. Qed.

End DateValidation.

(** ** validators.js: the description *)

Module DescriptionProps.
Import JS Regex RegexFacts Validators ValidatorsSpec PatternProps.
Local Open Scope string_scope.
Local Open Scope list_scope.

(** C3: [validateField] refuses the description [" pizza "], with a blank
    in front and one behind, and accepts ["pizza"].  The message of the
    refusal is the one of the formats without a message of their own,
    ["Invalid format."], and not ["Description cannot have leading or
    trailing spaces."]: the test in front of that message is run on the
    trimmed value, which has no blank left at its ends. *)
Theorem validateField_description_padded :
  validateField "description" (lit " pizza ") = FieldResult false "Invalid format."
  /\ validateField "description" (lit "pizza") = FieldResult true EmptyString
  /\ getValidationMessage "description" = "Invalid format.".
Proof. by vm_compute. Qed.

(** The same for every description that is not blank and starts with white
    space: whenever its trimmed form passes the pattern, the message is
    ["Invalid format."]. *)
Lemma validateField_description_leading_space x t :
  is_white_space x = true ->
  blank (x :: t) = false ->
  test false re_description (trim (x :: t)) = true ->
  validateField "description" (x :: t) = FieldResult false "Invalid format.".
Proof.
  intros Hx Hb Ht. unfold validateField. rewrite Hb.
  change (REGEX_PATTERNS !! "description") with (Some (false, re_description)).
  cbv iota beta. rewrite Ht. cbn [negb andb String.eqb Ascii.eqb Bool.eqb].
  assert (test false re_description (x :: t) = false) as ->; [|done].
  apply not_true_iff_false. intros H.
  change re_description with
    (Seq Bol (Seq (Chr CNotSpace)
       (Seq (Alt (Seq (Star (Chr CAny)) (Chr CNotSpace)) Eps) Eol))) in H.
  apply test_Bol in H as (c' & HM). unfold start in HM.
  inversion HM as [| | | | | r1 r2 c c1 c2 H1 H2 | | | | | | |]; subst; clear HM.
  inversion H1; subst; clear H1.
  inversion H2 as [| | | | | r1 r2 c c1' c2 H3 _ | | | | | | |]; subst; clear H2.
  inversion H3 as [| cl y u sn cp Hy | | | | | | | | | | |]; subst.
  simpl in Hy. by rewrite Hx in Hy.
Qed.

End DescriptionProps.

(** ** search.js: compileRegex *)

Module SearchProps.
Import JS Regex Search.
Local Open Scope string_scope.
Local Open Scope list_scope.

Lemma fragment_host_conforms : conforms fragment_host.
Proof.
  intros p f. simpl.
  destruct (parse_pattern p) as [r| |], (parse_flags f) as [ic|]; eauto.
Defined.

(** Slashes at both ends are taken off, whatever the host. *)
Lemma compileRegex_delimiters `{RegExpHost} :
  compileRegex1 (lit " /coffee|tea/ ") = compileRegex1 (lit "coffee|tea").
Proof. reflexivity. Qed.

(** A pattern with an open group compiles to [null]. *)
Lemma compileRegex_unclosed (h : RegExpHost) :
  conforms h -> compileRegex1 (lit "(unclosed") = None.
Proof.
  intros Hc. change (compileRegex1 (lit "(unclosed"))
    with (RegExp_new (lit "(unclosed") (lit "ig")).
  exact (Hc (lit "(unclosed") (lit "ig")).
Qed.

(** An input that is empty, or empty once trimmed and stripped of its
    slashes, compiles to [null] without a call of the constructor. *)
Lemma compileRegex_empty `{RegExpHost} input flags :
  input = [] \/ trim input = [] \/ trim input = lit "/" \/ trim input = lit "//" ->
  compileRegex input flags = None.
Proof.
  unfold compileRegex. intros [-> | [H0 | [H0 | H0]]]; [done| | |];
    destruct (truthy_str input); try done; by rewrite H0.
Qed.

(** C4: [compileRegex] does not take the slashes off [/coffee|tea/i]: the
    text ends with the flag letter and not with a slash, so the whole of it,
    slashes and [i] included, is the pattern handed to the constructor.  On
    a host that agrees with ECMAScript on such patterns the result matches
    [/coffee] and [tea/i] but not [coffee], which the result for
    [coffee|tea] matches: the two are not equivalent. *)
Theorem compileRegex_slash_flags (h : RegExpHost) :
  compileRegex1 (lit "/coffee|tea/i") = RegExp_new (lit "/coffee|tea/i") (lit "ig")
  /\ compileRegex1 (lit "coffee|tea") = RegExp_new (lit "coffee|tea") (lit "ig")
  /\ (conforms h ->
      exists o1 o2,
        compileRegex1 (lit "/coffee|tea/i") = Some o1
        /\ compileRegex1 (lit "coffee|tea") = Some o2
        /\ matches o1 (lit "coffee") = false
        /\ matches o2 (lit "coffee") = true
        /\ matches o1 (lit "tea/i") = true).
Proof.
  split; [reflexivity|]. split; [reflexivity|]. intros Hc.
  change (compileRegex1 (lit "/coffee|tea/i"))
    with (RegExp_new (lit "/coffee|tea/i") (lit "ig")).
  change (compileRegex1 (lit "coffee|tea"))
    with (RegExp_new (lit "coffee|tea") (lit "ig")).
  pose proof (Hc (lit "/coffee|tea/i") (lit "ig")) as H1.
  pose proof (Hc (lit "coffee|tea") (lit "ig")) as H2.
  destruct (parse_pattern (lit "/coffee|tea/i")) as [r1| |] eqn:E1; try discriminate E1.
  destruct (parse_pattern (lit "coffee|tea")) as [r2| |] eqn:E2; try discriminate E2.
  change (parse_flags (lit "ig")) with (Some true) in H1, H2.
  destruct H1 as (o1 & -> & M1), H2 as (o2 & -> & M2).
  exists o1, o2. rewrite !M1, M2.
  injection E1 as <-. injection E2 as <-.
  repeat split; by vm_compute.
Qed.

Lemma compileRegex_slash_flags_witness :
  exists o1 o2 : @RegExp fragment_host,
    compileRegex1 (lit "/coffee|tea/i") = Some o1
    /\ compileRegex1 (lit "coffee|tea") = Some o2
    /\ matches o1 (lit "coffee") = false
    /\ matches o2 (lit "coffee") = true
    /\ matches o1 (lit "tea/i") = true.
Proof.
  exact (proj2 (proj2 (compileRegex_slash_flags fragment_host)) fragment_host_conforms).
Defined.

End SearchProps.

(** ** storage.js: importData *)

Module StorageProps.
Import JS Storage StorageSpec.
Local Open Scope string_scope.
Local Open Scope list_scope.

Section ImportFacts.
Context `{JsonHost}.

Lemma structurally_valid_object props :
  structurally_valid (JObj props) =
  Return (truthy (props !! lit "id")
          && is_string (props !! lit "description")
          && is_number (props !! lit "amount")
          && truthy (props !! lit "date")
          && truthy (props !! lit "category")).
Proof.
  unfold structurally_valid. simpl.
  destruct (truthy (props !! lit "id")); [|done].
  destruct (is_string (props !! lit "description")); [|done].
  destruct (is_number (props !! lit "amount")); [|done].
  by destruct (truthy (props !! lit "date")).
Qed.

Lemma structurally_valid_cases v :
  (structurally_valid v = Return true /\ well_formed_record v)
  \/ (structurally_valid v = Return false /\ ~ well_formed_record v)
  \/ (structurally_valid v = Throw null_property_message /\ v = JNull).
Proof.
  destruct v as [| b | n | s | items | props];
    try (right; left; split; [done | by intros (? & ? & _)]).
  - right; right. by split.
  - rewrite structurally_valid_object.
    destruct (_ && _) eqn:E.
    + left. split; [done|]. exists props.
      rewrite !andb_true_iff in E. by destruct E as ((((? & ?) & ?) & ?) & ?).
    + right; left. split; [done|]. intros (props' & [= <-] & H1 & H2 & H3 & H4 & H5).
      by rewrite H1, H2, H3, H4, H5 in E.
Qed.

Lemma not_well_formed_null : ~ well_formed_record JNull.
Proof. by intros (? & ? & _). Qed.

(** [every] answers for the elements up to the first one that is not well
    formed: it throws when that one is [null]. *)
Lemma every_cases items :
  (every items = Return true /\ Forall well_formed_record items)
  \/ (every items = Return false /\ ~ Forall well_formed_record items)
  \/ (every items = Throw null_property_message
      /\ exists before after,
           items = before ++ JNull :: after /\ Forall well_formed_record before).
Proof.
  induction items as [|v items IH]; simpl.
  - left. by split.
  - destruct (structurally_valid_cases v) as [[-> Hv] | [[-> Hv] | [-> ->]]]; simpl.
    + destruct IH as [[-> HF] | [[-> HF] | [-> (pre & post & -> & HF)]]].
      * left. split; [done | by constructor].
      * right; left. split; [done|]. by intros [_ ?]%Forall_cons.
      * right; right. split; [done|]. exists (v :: pre), post. split; [done|].
        by constructor.
    + right; left. split; [done|]. by intros [? _]%Forall_cons.
    + right; right. split; [done|]. by exists [], items.
Qed.

Lemma every_null before after :
  Forall well_formed_record before ->
  every (before ++ JNull :: after) = Throw null_property_message.
Proof.
  induction 1 as [|v before Hv _ IH]; [done|]. cbn [app every].
  destruct (structurally_valid_cases v) as [[-> _] | [[_ Hn] | [_ ->]]];
    [by simpl | done | by destruct not_well_formed_null].
Qed.

(** The import is all or nothing.  [importData] succeeds exactly on the
    texts that parse to an array whose elements all are objects with a truthy
    [id], a text as [description], a number as [amount], a truthy [date] and
    a truthy [category]; the empty array is one of them.  On success the
    data is the whole array.  In every other case the result is a failure
    without data, never a part of the array; its message is the parser's for
    a text that does not parse, ["Data must be an array."] for another value
    than an array, and for an array the structural message, but for an array
    whose first element that is not well formed is [null]. *)
Lemma importData_all_or_nothing (jsonString : jsstring) :
  let r := importData jsonString in
  (success r = true <->
   exists items, JSON_parse jsonString = inl (JArr items)
                 /\ Forall well_formed_record items)
  /\ (success r = true ->
      exists items, JSON_parse jsonString = inl (JArr items) /\ data r = Some items)
  /\ (success r = false ->
      data r = None
      /\ match JSON_parse jsonString with
         | inr msg => message r = msg
         | inl (JArr items) =>
             message r = "JSON structure is invalid or missing required fields."
             \/ (message r = null_property_message
                 /\ exists before after,
                      items = before ++ JNull :: after
                      /\ Forall well_formed_record before)
         | inl _ => message r = "Data must be an array."
         end).
Proof.
  unfold importData, import_body.
  destruct (JSON_parse jsonString) as [v | msg]; simpl.
  2:{ split; [split; [done | by intros (? & ? & _)]|]. by split. }
  destruct v as [| b | n | s | items | props]; simpl;
    try (split; [split; [done | by intros (? & [=] & _)]|]; by split).
  destruct items as [|v items]; simpl.
  { split; [split; [by exists [] | done]|]. split; [by exists [] | done]. }
  change (let* ok := structurally_valid v in if ok then every items else Return false)
    with (every (v :: items)).
  destruct (every_cases (v :: items))
    as [[-> HF] | [[-> HF] | [-> (pre & post & E & HF)]]]; simpl.
  - split; [split; [by exists (v :: items) | done]|].
    split; [by exists (v :: items) | done].
  - split; [split; [done | by intros (? & [= <-] & ?)]|]. split; [done|]. auto.
  - split; [split; [done|]|].
    + intros (items' & [= <-] & HF'). rewrite E in HF'.
      apply Forall_app in HF' as [_ [Hn _]%Forall_cons].
      by destruct not_well_formed_null.
    + split; [done|]. intros _. split; [done|]. right. split; [done|].
      by exists pre, post.
Qed.

(** C5: an array with a [null] in it, the elements before the [null] well
    formed, is not refused with the structural message: reading [id] of
    [null] throws a TypeError inside [every], the [catch] takes it, and the
    result carries the message of that TypeError.  It is a failure without
    data all the same. *)
Theorem importData_null_element (jsonString : jsstring) (before after : list json) :
  JSON_parse jsonString = inl (JArr (before ++ JNull :: after)) ->
  Forall well_formed_record before ->
  importData jsonString = ImportResult false None null_property_message.
Proof.
  intros Hp HF. unfold importData, import_body. rewrite Hp.
  pose proof (every_null before after HF) as He.
  destruct (before ++ JNull :: after) as [|v items] eqn:E.
  { by destruct before. }
  change (let* ok := structurally_valid v in if ok then every items else Return false)
    with (every (v :: items)).
  by rewrite He.
Qed.

End ImportFacts.

(** The text [[null]] on the host of the examples: the message is V8's for
    the TypeError, not the structural one. *)
Lemma importData_null_element_witness :
  @importData literals_host (lit "[null]")
  = ImportResult false None "Cannot read properties of null (reading 'id')"
  /\ "Cannot read properties of null (reading 'id')"
     <> "JSON structure is invalid or missing required fields.".
Proof.
  split; [|done].
  apply (@importData_null_element literals_host (lit "[null]") [] []);
    [by vm_compute | constructor].
Defined.

End StorageProps.

(** ** state.js: the stable sort *)

Module SortProps.
Import JS State StateSpec.
Local Open Scope string_scope.
Local Open Scope list_scope.

Section Insertion.
Context {A : Type}.
Variable compareFn : A -> A -> number.

Local Abbreviation gt := (greater compareFn).
Local Abbreviation insert := (State.insert compareFn).
Local Abbreviation sort := (State.sort compareFn).
Local Abbreviation in_order := (State.in_order compareFn).

Lemma in_order_tail x l : in_order (x :: l) = true -> in_order l = true.
Proof. destruct l as [|y l]; [done|]. simpl. by intros [_ ?]%andb_true_iff. Qed.

(** An element in front of a list that is in order stays in front. *)
Lemma insert_in_order x l : in_order (x :: l) = true -> insert x l = x :: l.
Proof.
  destruct l as [|y l]; [done|]. simpl.
  intros [Hxy _]%andb_true_iff. by destruct (gt x y).
Qed.

(** Sorting a list that is in order changes nothing. *)
Lemma sort_in_order l : in_order l = true -> sort l = l.
Proof.
  induction l as [|x l IH]; [done|]. intros Hl.
  change (sort (x :: l)) with (insert x (sort l)).
  rewrite IH by (by eapply in_order_tail). by apply insert_in_order.
Qed.

Hypothesis greater_asym : forall a b, gt a b = true -> gt b a = false.

Lemma in_order_insert x l : in_order l = true -> in_order (insert x l) = true.
Proof.
  induction l as [|y l IH]; [done|]. intros Hl. simpl.
  destruct (gt x y) eqn:Hxy.
  - specialize (IH (in_order_tail _ _ Hl)).
    destruct l as [|z l]; simpl in *.
    + by rewrite (greater_asym _ _ Hxy).
    + destruct (gt x z) eqn:Hxz.
      * apply andb_true_iff in Hl as [-> _]. simpl. exact IH.
      * rewrite (greater_asym _ _ Hxy). simpl. exact IH.
  - change (in_order (x :: y :: l)) with (negb (gt x y) && in_order (y :: l)).
    by rewrite Hxy, Hl.
Qed.

Lemma in_order_sort l : in_order (sort l) = true.
Proof.
  induction l as [|x l IH]; [done|].
  change (sort (x :: l)) with (insert x (sort l)). by apply in_order_insert.
Qed.

(** Sorting twice is sorting once. *)
Lemma sort_idempotent l : sort (sort l) = sort l.
Proof. apply sort_in_order, in_order_sort. Qed.

End Insertion.

Section Elements.
Context {A : Type}.
Variable compareFn : A -> A -> number.

Lemma Forall_insert (P : A -> Prop) x l :
  P x -> Forall P l -> Forall P (insert compareFn x l).
Proof.
  intros Hx. induction 1 as [|y l Hy Hl IH]; simpl.
  - by constructor.
  - destruct (greater compareFn x y); repeat constructor; done.
Qed.

Lemma Forall_sort (P : A -> Prop) l : Forall P l -> Forall P (sort compareFn l).
Proof.
  induction 1 as [|x l Hx Hl IH]; [done|].
  change (sort compareFn (x :: l)) with (insert compareFn x (sort compareFn l)).
  by apply Forall_insert.
Qed.

(** Taking out what [insert] put in gives the list back. *)
Lemma filter_insert (P : A -> Prop) `{forall x, Decision (P x)} x l :
  ~ P x -> filter P (insert compareFn x l) = filter P l.
Proof.
  intros Hx. induction l as [|y l IH]; simpl.
  - by rewrite filter_cons_False.
  - destruct (greater compareFn x y).
    + rewrite !filter_cons, IH. done.
    + by rewrite (filter_cons_False _ x).
Qed.

Lemma elem_of_insert x y l : y ∈ insert compareFn x l <-> y = x \/ y ∈ l.
Proof.
  induction l as [|z l IH]; simpl.
  - rewrite list_elem_of_singleton, elem_of_nil. tauto.
  - destruct (greater compareFn x z).
    + rewrite !elem_of_cons, IH. tauto.
    + rewrite elem_of_cons. tauto.
Qed.

End Elements.



(** *** Sorting by amount *)

Lemma Qltb_minus x y : Qltb 0 (x - y) = Qltb y x.
Proof.
  apply eq_true_iff_eq. rewrite !PatternProps.Qltb_lt.
  rewrite (Qlt_minus_iff y x). done.
Qed.

Lemma Qltb_minus_neg x y : Qltb 0 ((x - y) * inject_Z (-1)) = Qltb x y.
Proof.
  apply eq_true_iff_eq. rewrite !PatternProps.Qltb_lt.
  rewrite (Qlt_minus_iff x y).
  assert ((x - y) * inject_Z (-1) == y + - x)%Q as -> by (simpl; ring). done.
Qed.

Section Amount.
Context `{Collation}.

Lemma greater_amount_asc a b :
  greater (compareRecords "amount" "asc") a b = nlt (amount b) (amount a).
Proof.
  unfold greater, compareRecords, ngt. simpl.
  destruct (amount a) as [|x], (amount b) as [|y]; simpl; try done.
  apply Qltb_minus.
Qed.

Lemma greater_amount_desc a b :
  greater (compareRecords "amount" "desc") a b = nlt (amount a) (amount b).
Proof.
  unfold greater, compareRecords, ngt. simpl.
  destruct (amount a) as [|x], (amount b) as [|y]; simpl; try done.
  apply Qltb_minus_neg.
Qed.

Lemma amount_lt_trans a b c : amount_lt a b -> amount_lt b c -> amount_lt a c.
Proof.
  unfold amount_lt.
  destruct (amount a) as [|x], (amount b) as [|y], (amount c) as [|z]; simpl; try done.
  rewrite !PatternProps.Qltb_lt. apply Qlt_trans.
Qed.

Lemma amount_lt_asym a b : amount_lt a b -> nlt (amount b) (amount a) = false.
Proof.
  unfold amount_lt.
  destruct (amount a) as [|x], (amount b) as [|y]; simpl; try done.
  rewrite PatternProps.Qltb_lt. intros Hxy.
  apply not_true_iff_false. rewrite PatternProps.Qltb_lt.
  by apply Qle_not_lt, Qlt_le_weak.
Qed.

Lemma increasing_insert x l :
  Forall (amounts_differ x) l -> increasing l ->
  increasing (insert (compareRecords "amount" "asc") x l).
Proof.
  induction l as [|y l IH]; intros Hx Hl; simpl; [done|].
  apply Forall_cons in Hx as [Hxy Hx]. destruct Hl as [Hy Hl].
  rewrite greater_amount_asc. destruct (nlt (amount y) (amount x)) eqn:Hyx.
  - simpl. split; [|by apply IH].
    apply Forall_insert; [exact Hyx | exact Hy].
  - assert (amount_lt x y) as Hlt.
    { destruct Hxy as [?|Hyx']; [done|]. unfold amount_lt in Hyx'. congruence. }
    simpl. split; [|done]. constructor; [done|].
    eapply Forall_impl; [exact Hy|]. intros z. by apply amount_lt_trans.
Qed.

(** With distinct amounts the ascending sort is strictly increasing. *)
Lemma increasing_sort l :
  distinct_amounts l -> increasing (sort (compareRecords "amount" "asc") l).
Proof.
  induction l as [|x l IH]; [done|]. intros [Hx Hl].
  change (sort ?c (x :: l)) with (insert c x (sort c l)).
  apply increasing_insert; [by apply Forall_sort | by apply IH].
Qed.

Lemma insert_desc_last x l :
  Forall (amount_lt x) l ->
  insert (compareRecords "amount" "desc") x l = l ++ [x].
Proof.
  induction 1 as [|y l Hy Hl IH]; simpl; [done|].
  rewrite greater_amount_desc. unfold amount_lt in Hy. by rewrite Hy, IH.
Qed.

(** The descending sort of a strictly increasing list is its reverse. *)
Lemma sort_desc_increasing l :
  increasing l -> sort (compareRecords "amount" "desc") l = rev l.
Proof.
  induction l as [|x l IH]; [done|]. intros [Hx Hl].
  change (sort ?c (x :: l)) with (insert c x (sort c l)).
  rewrite IH by done. simpl. apply insert_desc_last. by apply Forall_rev.
Qed.

(** Swapping the records swaps what decides the order: under a consistent
    collation no two records are each greater than the other. *)
Lemma greater_asym key direction :
  consistent H ->
  forall a b, greater (compareRecords key direction) a b = true ->
              greater (compareRecords key direction) b a = false.
Proof.
  intros Hc a b. unfold greater, compareRecords, ngt.
  destruct (get_field a key) as [|x|s] eqn:Ea, (get_field b key) as [|y|t] eqn:Eb;
    destruct (String.eqb direction "asc"); simpl;
    try (destruct x as [|x]); try (destruct y as [|y]); simpl; try done;
    rewrite ?Qltb_minus, ?Qltb_minus_neg;
    try (intros Hlt; apply (amount_lt_asym (Rec [] [] (Num _) [] [] [] [])
                                           (Rec [] [] (Num _) [] [] [] [])); exact Hlt).
  all: rewrite <- !not_true_iff_false, !PatternProps.Qltb_lt;
    unfold Qlt; simpl; rewrite !Z.mul_1_r;
    match goal with |- context [localeCompare ?u ?v] =>
      pose proof (Hc u v); pose proof (Hc v u) end; lia.
Qed.

End Amount.



Lemma unit_compare_swap a b : unit_compare b a = (- unit_compare a b)%Z.
Proof.
  revert b. induction a as [|x a IH]; intros [|y b]; simpl; try done.
  destruct (N.ltb_spec x y), (N.ltb_spec y x); first [done | lia | apply IH].
Qed.

Lemma unit_collation_consistent : consistent unit_collation.
Proof. intros a b. simpl. rewrite unit_compare_swap. apply Z.sgn_opp. Defined.

(** C7: under a consistent collation, sorting a list whose amounts are
    numbers no two of which are equal by amount, ascending, and the result
    by amount, descending, gives the reverse of the ascending list; and for
    every list, key and direction, sorting the sorted list again with the
    same key and direction changes nothing. *)
Theorem sortRecords_reverse_idempotent (c : Collation) (st : store)
  (l : list record) (key direction : string) :
  consistent c ->
  (distinct_amounts l ->
   let asc := sortRecords l "amount" "asc" st in
   (sortRecords (asc.1) "amount" "desc" (asc.2)).1 = rev (asc.1))
  /\ (let once := sortRecords l key direction st in
      (sortRecords (once.1) key direction (once.2)).1 = once.1).
Proof.
  intros Hc. split.
  - intros Hd. unfold sortRecords. simpl.
    apply sort_desc_increasing. by apply increasing_sort.
  - unfold sortRecords. simpl. apply sort_idempotent. by apply greater_asym.
Qed.

Lemma sortRecords_reverse_idempotent_witness :
  let l := [sample "a" 3; sample "b" 1; sample "c" 2] in
  let asc := @sortRecords unit_collation l "amount" "asc" initial in
  asc.1 = [sample "b" 1; sample "c" 2; sample "a" 3]
  /\ (@sortRecords unit_collation (asc.1) "amount" "desc" (asc.2)).1 = rev (asc.1).
Proof.
  intros l asc. split; [by vm_compute|].
  apply (proj1 (sortRecords_reverse_idempotent unit_collation initial l
                  "amount" "asc" unit_collation_consistent)).
  unfold l, distinct_amounts, amounts_differ, amount_lt.
  repeat split; repeat constructor; by vm_compute.
Defined.

(** Two records of one amount stay as they are under both sorts; the
    descending sort of the ascending list is not its reverse. *)
Lemma sortRecords_desc_keeps_ties :
  let l := [sample "a" 5; sample "b" 5] in
  let asc := @sortRecords unit_collation l "amount" "asc" initial in
  asc.1 = [sample "a" 5; sample "b" 5]
  /\ (@sortRecords unit_collation (asc.1) "amount" "desc" (asc.2)).1
     = [sample "a" 5; sample "b" 5]
  /\ rev (asc.1) = [sample "b" 5; sample "a" 5].
Proof. by vm_compute. Qed.

End SortProps.

(** ** state.js: the record store *)

Module StoreProps.
Import JS State StateSpec SortProps.
Local Open Scope string_scope.
Local Open Scope list_scope.

Lemma findIndex_None i l :
  findIndex i l = None <-> Forall (fun r => id r <> i) l.
Proof.
  unfold findIndex. rewrite fmap_None. apply list_find_None.
Qed.

Section Store.
Context `{Collation}.

(** C9: when no record of the collection has the id, [updateRecord] and
    [deleteRecord] return [null] and leave the whole store as it was: the
    records, the current sort order, and the log of what was handed to
    [saveRecords]. *)
Theorem not_found_leaves_store (st : store) (now i : jsstring)
  (recordData : RecordData.t) :
  Forall (fun r => id r <> i) (records st) ->
  updateRecord now i recordData st = (None, st)
  /\ deleteRecord i st = (None, st).
Proof.
  intros Hi%findIndex_None. unfold updateRecord, deleteRecord. by rewrite Hi.
Qed.

Lemma filter_all {A} (P : A -> Prop) `{forall x, Decision (P x)} (l : list A) :
  Forall P l -> filter P l = l.
Proof.
  induction 1 as [|x l Hx Hl IH]; [done|]. by rewrite filter_cons_True, IH.
Qed.

(** C6: when the collection is in the current sort order and the new id is
    not in it, adding a record and deleting it by the id that [addRecord]
    returned leaves the collection as it was before, element for element
    and in the same order. *)
Theorem add_then_delete (st : store) (now uuid : jsstring)
  (recordData : RecordData.t) :
  in_order (compareRecords (key (currentSort st)) (direction (currentSort st)))
           (records st) = true ->
  Forall (fun r => id r <> lit "txn_" ++ uuid) (records st) ->
  let added := addRecord now uuid recordData st in
  let deleted := deleteRecord (id (added.1)) (added.2) in
  deleted.1 = Some (added.1) /\ records (deleted.2) = records st.
Proof.
  intros Hord Hfresh added deleted. unfold deleted, added, addRecord, sortRecords.
  cbn [fst snd records set_records saveRecords set_currentSort currentSort id].
  set (new := Rec _ _ _ _ _ _ _).
  set (cmp := compareRecords _ _) in *.
  change (sort cmp (new :: records st)) with (insert cmp new (sort cmp (records st))).
  rewrite (sort_in_order cmp (records st) Hord).
  unfold deleteRecord. cbn [records saveRecords set_records].
  destruct (findIndex _ _) as [n|] eqn:Ef.
  2:{ apply findIndex_None in Ef. rewrite Forall_forall in Ef.
      exfalso. apply (Ef new); [|done]. apply elem_of_insert. by left. }
  cbn [fst snd records set_records saveRecords].
  split.
  - unfold findIndex in Ef. apply fmap_Some in Ef as ([n' r] & Hfind & ->).
    apply list_find_Some in Hfind as (Hn & Hr & Hbefore). simpl in *.
    rewrite Hn. f_equal.
    apply list_elem_of_lookup_2, elem_of_insert in Hn as [-> | Hin]; [done|].
    rewrite Forall_forall in Hfresh. by destruct (Hfresh r Hin).
  - rewrite filter_insert by (intros Hne; by apply Hne).
    by apply filter_all.
Qed.

End Store.



Lemma not_found_leaves_store_witness :
  @updateRecord unit_collation (lit "2024-03-01T10:00:00.000Z") (lit "txn_none")
    lunch store_in_order = (None, store_in_order)
  /\ deleteRecord (lit "txn_none") store_in_order = (None, store_in_order).
Proof.
  apply (@not_found_leaves_store unit_collation).
  repeat constructor; by vm_compute.
Defined.

Lemma add_then_delete_witness :
  let added :=
    @addRecord unit_collation (lit "2024-03-01T10:00:00.000Z") (lit "u1") lunch
      store_in_order in
  let deleted := deleteRecord (id (added.1)) (added.2) in
  deleted.1 = Some (added.1) /\ records (deleted.2) = records store_in_order.
Proof.
  apply (@add_then_delete unit_collation).
  - by vm_compute.
  - repeat constructor; by vm_compute.
Defined.

(** Adding to a collection that is not in the current sort order and
    deleting what was added leaves the collection sorted: it is not the
    collection from before. *)
Lemma add_then_delete_reorders :
  let added :=
    @addRecord unit_collation (lit "2024-03-01T10:00:00.000Z") (lit "u1") lunch
      store_after_import in
  let deleted := deleteRecord (id (added.1)) (added.2) in
  records store_after_import = [sample "a" 10; sample "b" 20]
  /\ currentSort store_after_import = Sort "amount" "desc"
  /\ records (deleted.2) = [sample "b" 20; sample "a" 10].
Proof. by vm_compute. Qed.

End StoreProps.

(** ** Numbers as binary64 values: rounding, order and absolute value *)

Module Binary64Facts.
Import Binary64 Binary64Spec.
Local Open Scope Z_scope.

(** One shift to the right takes one bit off a mantissa of several bits. *)
Lemma shr_1_pos mrs m :
  shr_m mrs = Zpos m -> (1 < digits2_pos m)%positive ->
  exists m', shr_m (shr_1 mrs) = Zpos m'
             /\ Zpos (digits2_pos m') = Zpos (digits2_pos m) - 1.
Proof.
  destruct mrs as [mm r s]. simpl. intros -> Hd.
  destruct m as [p|p|]; simpl in *; [exists p | exists p | lia]; split; try done; lia.
Qed.

Lemma shr_iter_pos p : forall mrs m,
  shr_m mrs = Zpos m -> Zpos p < Zpos (digits2_pos m) ->
  exists m', shr_m (SpecFloat.iter_pos shr_1 p mrs) = Zpos m'
             /\ Zpos (digits2_pos m') = Zpos (digits2_pos m) - Zpos p.
Proof.
  induction p as [p IH|p IH|]; intros mrs m Hm Hp; simpl.
  - destruct (shr_1_pos mrs m Hm ltac:(lia)) as (m0 & H0 & D0).
    destruct (IH _ m0 H0 ltac:(lia)) as (m1 & H1 & D1).
    destruct (IH _ m1 H1 ltac:(lia)) as (m2 & H2 & D2).
    exists m2. split; [done|]. lia.
  - destruct (IH _ m Hm ltac:(lia)) as (m1 & H1 & D1).
    destruct (IH _ m1 H1 ltac:(lia)) as (m2 & H2 & D2).
    exists m2. split; [done|]. lia.
  - destruct (shr_1_pos mrs m Hm ltac:(lia)) as (m0 & H0 & D0).
    exists m0. split; [done|]. lia.
Qed.

Lemma shr_m_of_loc m l : shr_m (shr_record_of_loc m l) = m.
Proof. by destruct l as [|[]]. Qed.

(** Rounding a mantissa to the precision leaves a mantissa, and the
    exponent does not go down, when the exponent is not below the least
    one. *)
Lemma shr_fexp_pos m e l mrs e' :
  emin prec emax <= e ->
  shr_fexp prec emax (Zpos m) e l = (mrs, e') ->
  (exists m', shr_m mrs = Zpos m') /\ e <= e'.
Proof.
  intros He. unfold shr_fexp, shr, fexp, emin, prec, emax in *. cbn [Zdigits2].
  destruct (Z.max (Z.pos (digits2_pos m) + e - 53) (3 - 1024 - 53) - e) as [|p|p] eqn:En;
    intros [= <- <-].
  - split; [|lia]. exists m. apply shr_m_of_loc.
  - split; [|lia].
    destruct (shr_iter_pos p (shr_record_of_loc (Zpos m) l) m (shr_m_of_loc _ _))
      as (m' & Hm' & _); [lia|]. by exists m'.
  - split; [|lia]. exists m. apply shr_m_of_loc.
Qed.

Lemma round_nearest_even_pos m l : exists m', round_nearest_even (Zpos m) l = Zpos m'.
Proof.
  destruct l as [|[]]; cbn [round_nearest_even]; try destruct (Z.even _);
    eexists; reflexivity.
Qed.

Lemma binary_round_aux_signed s m e l :
  emin prec emax <= e -> signed s (binary_round_aux prec emax s (Zpos m) e l).
Proof.
  intros He. unfold binary_round_aux.
  destruct (shr_fexp prec emax (Zpos m) e l) as [mrs1 e1] eqn:E1.
  apply shr_fexp_pos in E1 as [[m1 H1] He1]; [|done]. rewrite H1.
  destruct (round_nearest_even_pos m1 (loc_of_shr_record mrs1)) as [m2 ->].
  destruct (shr_fexp prec emax (Zpos m2) e1 loc_Exact) as [mrs2 e2] eqn:E2.
  apply shr_fexp_pos in E2 as [[m3 H3] He2]; [|lia]. rewrite H3.
  destruct (e2 <=? emax - prec); simpl; [split; [done | lia] | done].
Qed.

Lemma binary_round_signed s m e :
  emin prec emax <= e -> signed s (binary_round prec emax s m e).
Proof.
  intros He. unfold binary_round.
  destruct (shl_align m e _) as [mz ez] eqn:E.
  apply binary_round_aux_signed.
  unfold shl_align in E.
  destruct (fexp prec emax (Z.pos (digits2_pos m) + e) - e) eqn:Ed;
    injection E as <- <-; try done.
  unfold fexp. lia.
Qed.

Lemma is_binary64_exp_ok x : is_binary64 x -> exp_ok x.
Proof.
  destruct x as [| | |s m e]; try done. unfold is_binary64. simpl.
  unfold bounded, canonical_mantissa, fexp. intros [H _]%andb_prop.
  apply Z.eqb_eq in H. lia.
Qed.

Lemma signed_exp_ok s x : signed s x -> exp_ok x.
Proof. destruct x; simpl; tauto. Qed.

Lemma binary_normalize_exp_ok z e :
  emin prec emax <= e -> exp_ok (binary_normalize prec emax z e false).
Proof.
  intros He. destruct z as [|p|p]; simpl; [done| |];
    eapply signed_exp_ok, binary_round_signed; done.
Qed.

Lemma fadd_exp_ok x y : exp_ok x -> exp_ok y -> exp_ok (fadd x y).
Proof.
  destruct x as [sx|sx| |sx mx ex], y as [sy|sy| |sy my ey]; simpl; intros Hx Hy;
    try done; try (by destruct sx, sy).
  apply binary_normalize_exp_ok. lia.
Qed.

End Binary64Facts.

Module Binary64Order.
Import Binary64 Binary64Spec Binary64Facts.
Local Open Scope Z_scope.

(** *** The sign of a difference *)

Lemma flt_zero x :
  flt x zero = true <->
  x = S754_infinity true \/ exists m e, x = S754_finite true m e.
Proof.
  destruct x as [s|s| |s m e]; unfold flt, SFltb, zero; cbn [SFcompare].
  - split; [done | by intros [? | (? & ? & ?)]].
  - destruct s; split; try done; [by left | by intros [? | (? & ? & ?)]].
  - split; [done | by intros [? | (? & ? & ?)]].
  - destruct s; split; try done; [right; by exists m, e | by intros [? | (? & ? & ?)]].
Qed.

Lemma signed_flt_zero s x : signed s x -> flt x zero = s.
Proof.
  destruct x as [| s' | |s' m e]; simpl; try done.
  - intros ->. by destruct s.
  - intros [-> _]. by destruct s.
Qed.

Lemma flt_binary_normalize z e :
  emin prec emax <= e ->
  flt (binary_normalize prec emax z e false) zero = (z <? 0).
Proof.
  intros He. destruct z as [|p|p]; simpl; [done| |].
  - by apply signed_flt_zero, binary_round_signed.
  - by apply signed_flt_zero, binary_round_signed.
Qed.

(** *** Mantissas brought to one exponent *)

Lemma iter_xO m d : Zpos (Pos.iter xO m d) = Zpos m * 2 ^ Zpos d.
Proof.
  induction d as [|d IH] using Pos.peano_ind.
  - simpl. lia.
  - rewrite Pos.iter_succ, Pos2Z.inj_succ, Z.pow_succ_r by lia.
    rewrite Pos2Z.inj_xO, IH. lia.
Qed.

Lemma shl_align_fst m e ez :
  ez <= e -> Zpos (fst (shl_align m e ez)) = Zpos m * 2 ^ (e - ez).
Proof.
  intros Hle. unfold shl_align.
  destruct (ez - e) as [|d|d] eqn:Ed; cbn [fst].
  - replace (e - ez) with 0 by lia. simpl. lia.
  - lia.
  - rewrite iter_xO. f_equal. f_equal. lia.
Qed.

Local Open Scope Q_scope.

Lemma two_power_pos e : 0 < 2 ^ e.
Proof. by apply Qpower_0_lt. Qed.

Lemma rational_aligned s m e ez :
  (ez <= e)%Z -> rational s m e == inject_Z (aligned s m e ez) * 2 ^ ez.
Proof.
  intros Hle. unfold rational, aligned.
  assert ((if s then Zneg m else Zpos m) = cond_Zopp s (Zpos m)) as -> by (by destruct s).
  rewrite shl_align_fst by done.
  assert (cond_Zopp s (Zpos m * 2 ^ (e - ez)) = (cond_Zopp s (Zpos m) * 2 ^ (e - ez))%Z)
    as -> by (destruct s; simpl; lia).
  rewrite inject_Z_mult, Zpower_Qpower by lia.
  replace e with ((e - ez) + ez)%Z at 1 by lia.
  rewrite Qpower_plus by done. change (inject_Z 2) with 2. ring.
Qed.

Lemma rational_lt sx mx ex sy my ey ez :
  (ez <= ex)%Z -> (ez <= ey)%Z ->
  rational sx mx ex < rational sy my ey <->
  (aligned sx mx ex ez < aligned sy my ey ez)%Z.
Proof.
  intros Hx Hy. rewrite (rational_aligned sx mx ex ez), (rational_aligned sy my ey ez)
    by done.
  rewrite Qmult_lt_r by apply two_power_pos. by rewrite Zlt_Qlt.
Qed.

Lemma scaled_neg z e : inject_Z z * 2 ^ e < 0 <-> (z < 0)%Z.
Proof.
  pose proof (two_power_pos e) as Hp. rewrite Zlt_Qlt. change (inject_Z 0) with 0.
  split; intros H.
  - apply (Qmult_lt_r _ _ (2 ^ e) Hp). by rewrite Qmult_0_l.
  - apply (Qmult_lt_r _ _ (2 ^ e) Hp) in H. by rewrite Qmult_0_l in H.
Qed.

Lemma scaled_pos z e : 0 < inject_Z z * 2 ^ e <-> (0 < z)%Z.
Proof.
  pose proof (two_power_pos e) as Hp. rewrite Zlt_Qlt. change (inject_Z 0) with 0.
  split; intros H.
  - apply (Qmult_lt_r _ _ (2 ^ e) Hp). by rewrite Qmult_0_l.
  - apply (Qmult_lt_r _ _ (2 ^ e) Hp) in H. by rewrite Qmult_0_l in H.
Qed.

Lemma rational_sign s m e :
  (rational s m e < 0 <-> s = true) /\ (0 < rational s m e <-> s = false).
Proof.
  unfold rational. rewrite scaled_neg, scaled_pos.
  destruct s; (split; split); intros H; try done; lia.
Qed.

(** The difference of two numbers is below zero exactly when the second
    exceeds the first. *)
Lemma fsub_negative x y :
  exp_ok x -> exp_ok y -> (flt (fsub x y) zero = true <-> exceeds y x).
Proof.
  intros Hx Hy. unfold exceeds.
  destruct x as [sx|sx| |sx mx ex], y as [sy|sy| |sy my ey];
    try done; try (by destruct sx, sy); try (by destruct sx); try (by destruct sy).
  - (* zero, finite *)
    cbn [fsub SFsub value below]. fold (rational sy my ey).
    rewrite (proj2 (rational_sign sy my ey)). by destruct sy.
  - (* finite, zero *)
    cbn [fsub SFsub value below]. fold (rational sx mx ex).
    rewrite (proj1 (rational_sign sx mx ex)). by destruct sx.
  - (* finite, finite *)
    simpl in Hx, Hy. cbn [value below]. fold (rational sx mx ex) (rational sy my ey).
    unfold fsub, SFsub. cbv zeta.
    rewrite flt_binary_normalize by lia.
    fold (aligned sx mx ex (Z.min ex ey)) (aligned sy my ey (Z.min ex ey)).
    rewrite (rational_lt sx mx ex sy my ey (Z.min ex ey)) by lia.
    rewrite Z.ltb_lt. lia.
Qed.

(** *** The absolute value of a difference *)

Lemma fabs_binary_round_aux s mx ex lx :
  fabs (binary_round_aux prec emax s mx ex lx) = binary_round_aux prec emax false mx ex lx.
Proof.
  unfold binary_round_aux.
  destruct (shr_fexp prec emax mx ex lx) as [mrs1 e1].
  destruct (shr_fexp prec emax _ e1 loc_Exact) as [mrs2 e2].
  destruct (shr_m mrs2); [done | by destruct (_ <=? _) | done].
Qed.

Lemma fabs_binary_round s m e :
  fabs (binary_round prec emax s m e) = binary_round prec emax false m e.
Proof.
  unfold binary_round. destruct (shl_align m e _) as [mz ez].
  apply fabs_binary_round_aux.
Qed.

Lemma flt_binary_round_false m e : flt (binary_round prec emax false m e) zero = false.
Proof.
  unfold binary_round, binary_round_aux. destruct (shl_align m e _) as [mz ez].
  destruct (shr_fexp prec emax (Zpos mz) ez loc_Exact) as [mrs1 e1].
  destruct (shr_fexp prec emax _ e1 loc_Exact) as [mrs2 e2].
  destruct (shr_m mrs2); [done | by destruct (_ <=? _) | done].
Qed.

(** When a difference is below zero, its absolute value is the difference
    the other way round. *)
Lemma fabs_fsub_negative x y :
  flt (fsub x y) zero = true -> fabs (fsub x y) = fsub y x.
Proof.
  destruct x as [sx|sx| |sx mx ex], y as [sy|sy| |sy my ey];
    try done; try (by destruct sx, sy); try (by destruct sx); try (by destruct sy).
  unfold fsub, SFsub. cbv zeta. rewrite (Z.min_comm ey ex).
  set (a := cond_Zopp sx _). set (b := cond_Zopp sy _).
  replace (b - a)%Z with (- (a - b))%Z by lia.
  destruct (a - b)%Z as [|p|p]; cbn [binary_normalize Z.opp].
  - done.
  - by rewrite flt_binary_round_false.
  - intros _. apply fabs_binary_round.
Qed.

(** A difference that is not below zero is its own absolute value, the
    zero with the minus sign apart. *)
Lemma fabs_not_negative r :
  flt r zero = false -> r <> S754_zero true -> fabs r = r.
Proof. destruct r as [[]|[]| |[] m e]; done. Qed.

End Binary64Order.

(** ** state.js: getBudgetInfo on binary64 numbers *)

Module BudgetInfoProps.
Import Binary64 Binary64Spec Binary64Facts Binary64Order Budget.

Lemma sum_amounts_exp_ok l :
  Forall (fun r => is_binary64 (amount r)) l -> exp_ok (sum_amounts l).
Proof.
  unfold sum_amounts. assert (exp_ok zero) as H0 by done. revert H0.
  generalize zero. intros acc Hacc Hl. revert acc Hacc.
  induction Hl as [|r l Hr _ IH]; intros acc Hacc; [done|].
  cbn [foldl]. apply IH, fadd_exp_ok; [done|]. by apply is_binary64_exp_ok.
Qed.

Lemma sum_amounts_foldl l : sum_amounts l = foldl fadd zero (amount <$> l).
Proof.
  unfold sum_amounts. generalize zero.
  induction l as [|r l IH]; intros acc; [done|]. cbn [foldl fmap list_fmap]. apply IH.
Qed.

Lemma or_zero_exp_ok x :
  (forall c, x = Some c -> is_binary64 c) -> exp_ok (or_zero x).
Proof.
  intros Hx. destruct x as [c|]; [|done]. simpl.
  destruct (truthy64 c); [|done]. by apply is_binary64_exp_ok, Hx.
Qed.

(** C8: the result of [getBudgetInfo] for records whose amounts, and a
    budget cap that, are binary64 numbers, with the arithmetic of such
    numbers.  The total spent is the sum of the amounts of the records,
    added from the left, starting from 0; [remaining] is the absolute value
    of the budget cap minus the total spent: it is the total spent minus the
    budget cap when the budget is exceeded and the budget cap minus the total
    spent otherwise, and never below zero; [isOverBudget] holds exactly when
    the total spent is the greater of the two numbers.  With a budget cap of
    100 and 150 spent, [remaining] is 50 and [isOverBudget] holds. *)
Theorem getBudgetInfo_remaining (st : store) :
  Forall (fun r => is_binary64 (amount r)) (records st) ->
  (forall c, budgetCap (settings st) = Some c -> is_binary64 c) ->
  let b := getBudgetInfo st in
  totalSpent b = foldl fadd zero (amount <$> records st)
  /\ bi_budgetCap b = or_zero (budgetCap (settings st))
  /\ remaining b = fabs (fsub (bi_budgetCap b) (totalSpent b))
  /\ (isOverBudget b = true <-> exceeds (totalSpent b) (bi_budgetCap b))
  /\ (isOverBudget b = true -> remaining b = fsub (totalSpent b) (bi_budgetCap b))
  /\ (isOverBudget b = false ->
      fsub (bi_budgetCap b) (totalSpent b) <> S754_zero true ->
      remaining b = fsub (bi_budgetCap b) (totalSpent b))
  /\ flt (remaining b) zero = false
  /\ (bi_budgetCap b = of_pos 100 -> totalSpent b = of_pos 150 ->
      remaining b = of_pos 50 /\ isOverBudget b = true).
Proof.
  intros Ha Hc b.
  pose proof (sum_amounts_exp_ok _ Ha) as Ht.
  pose proof (or_zero_exp_ok _ Hc) as Hb.
  unfold b, getBudgetInfo. cbn [totalSpent bi_budgetCap remaining isOverBudget].
  split; [apply sum_amounts_foldl|].
  split; [done|]. split; [done|].
  split; [by apply fsub_negative|].
  split; [apply fabs_fsub_negative|].
  split; [apply fabs_not_negative|].
  split; [by destruct (fsub _ _) as [|[]| |]|].
  intros -> ->. by vm_compute.
Qed.

(** A budget cap of 100 and the amounts 100 and 50. *)
Lemma getBudgetInfo_remaining_witness :
  let st := budget_of (of_pos 100) [of_pos 100; of_pos 50] in
  Forall (fun r => is_binary64 (amount r)) (records st)
  /\ totalSpent (getBudgetInfo st) = of_pos 150
  /\ remaining (getBudgetInfo st) = of_pos 50
  /\ isOverBudget (getBudgetInfo st) = true
  /\ exceeds (totalSpent (getBudgetInfo st)) (bi_budgetCap (getBudgetInfo st)).
Proof.
  intros st.
  assert (Forall (fun r => is_binary64 (amount r)) (records st)) as Ha.
  { repeat constructor; by vm_compute. }
  assert (forall c, budgetCap (settings st) = Some c -> is_binary64 c) as Hc.
  { intros c [= <-]. by vm_compute. }
  destruct (getBudgetInfo_remaining st Ha Hc) as (Ht & _ & _ & Hex & _ & _ & _ & H150).
  destruct H150 as [H50 Ho]; [by vm_compute | by vm_compute |].
  split; [done|]. split; [by vm_compute|]. split; [done|]. split; [done|].
  by apply Hex.
Defined.

(** The amounts 0.1 and 0.2 under a budget cap of 0.3: the sum of the two
    numbers is the number after 0.3, so the budget is exceeded, by 2^-54. *)
Lemma getBudgetInfo_tenths :
  let b := getBudgetInfo (budget_of (ratio 3 10) [ratio 1 10; ratio 2 10]) in
  ratio 1 10 = S754_finite false 7205759403792794 (-56)
  /\ ratio 2 10 = S754_finite false 7205759403792794 (-55)
  /\ bi_budgetCap b = S754_finite false 5404319552844595 (-54)
  /\ totalSpent b = S754_finite false 5404319552844596 (-54)
  /\ remaining b = S754_finite false 4503599627370496 (-106)
  /\ isOverBudget b = true.
Proof. by vm_compute. Qed.

End BudgetInfoProps.

(** * Further properties of the code *)

(** ** JavaScript strings: trim *)

Module TrimFacts.
Import JS Formats.

Lemma drop_while_split p s :
  exists pre, s = pre ++ drop_while p s /\ Forall (fun x => p x = true) pre.
Proof.
  induction s as [|x t (pre & E & F)]; simpl.
  - by exists [].
  - destruct (p x) eqn:Hx.
    + exists (x :: pre). split; [by rewrite E at 1 | by constructor].
    + by exists [].
Qed.

Lemma drop_while_first p s :
  drop_while p s = [] \/ exists x t, drop_while p s = x :: t /\ p x = false.
Proof.
  induction s as [|x t IH]; simpl; [by left|].
  destruct (p x) eqn:Hx; [done|]. right. by exists x, t.
Qed.

(** What [trim] leaves: the text between the white space at the two ends,
    a text that neither starts nor ends with white space. *)
Lemma trim_split s :
  exists pre post,
    s = pre ++ trim s ++ post
    /\ Forall (fun x => is_white_space x = true) pre
    /\ Forall (fun x => is_white_space x = true) post
    /\ (trim s = []
        \/ (exists x, trim s = [x] /\ not_space x)
        \/ (exists x mid y, trim s = x :: mid ++ [y] /\ not_space x /\ not_space y)).
Proof.
  unfold trim, trimStart.
  destruct (drop_while_split is_white_space s) as (pre & E1 & F1).
  set (t := drop_while is_white_space s) in *.
  destruct (drop_while_split is_white_space (rev t)) as (post & E2 & F2).
  set (u := drop_while is_white_space (rev t)) in *.
  assert (t = rev u ++ rev post) as Et.
  { rewrite <- (rev_involutive t), E2, rev_app_distr. done. }
  exists pre, (rev post). split; [by rewrite <- Et|].
  split; [done|]. split; [by apply Forall_rev|].
  destruct (drop_while_first is_white_space (rev t)) as [Hu | (y & u' & Hu & Hy)];
    fold u in Hu; rewrite Hu; [by left|]. right.
  simpl. destruct (rev u') as [|x mid] eqn:Eu'; simpl.
  - left. by exists y.
  - right. exists x, mid, y. split; [done|]. split; [|done].
    destruct (drop_while_first is_white_space s) as [Ht | (x' & t' & Ht & Hx')];
      fold t in Ht; rewrite Ht in Et.
    + rewrite Hu in Et. simpl in Et. rewrite Eu' in Et. done.
    + rewrite Hu in Et. simpl in Et. rewrite Eu' in Et. simpl in Et.
      by injection Et as -> _.
Qed.

Lemma trim_fixed s :
  (s = [] \/ (exists x, s = [x] /\ not_space x)
   \/ (exists x mid y, s = x :: mid ++ [y] /\ not_space x /\ not_space y)) ->
  trim s = s.
Proof.
  unfold trim, trimStart.
  intros [-> | [(x & -> & Hx) | (x & mid & y & -> & Hx & Hy)]]; [done| |].
  - simpl. rewrite Hx. simpl. by rewrite Hx.
  - simpl drop_while at 2. rewrite Hx.
    change (x :: mid ++ [y]) with ([x] ++ mid ++ [y]).
    rewrite !rev_app_distr. simpl. rewrite Hy.
    change (y :: rev mid ++ [x]) with ([y] ++ rev mid ++ [x]).
    rewrite !rev_app_distr. simpl. by rewrite rev_involutive.
Qed.

Lemma trim_idempotent s : trim (trim s) = trim s.
Proof.
  destruct (trim_split s) as (_ & _ & _ & _ & _ & H). by apply trim_fixed.
Qed.

Lemma line_terminator_space x : is_line_terminator x = true -> is_white_space x = true.
Proof.
  unfold is_line_terminator, is_white_space, in_range.
  rewrite !orb_true_iff, !andb_true_iff, !N.eqb_eq, !N.leb_le. lia.
Qed.

End TrimFacts.

(** ** validators.js: the description *)

Module DescriptionFormat.
Import JS Regex RegexFacts Validators ValidatorsSpec PatternProps Formats TrimFacts.
Local Open Scope string_scope.
Local Open Scope list_scope.

Lemma re_description_format s :
  test false re_description s = true <-> description_format s.
Proof.
  change re_description with
    (Seq Bol (Seq (Chr CNotSpace)
       (Seq (Alt (Seq (Star (Chr CAny)) (Chr CNotSpace)) Eps) Eol))).
  rewrite test_Bol. unfold start. split.
  - intros (c' & HM).
    inversion HM as [| | | | | r1 r2 c c1 c2 H1 H2 | | | | | | |]; subst; clear HM.
    inversion H1; subst; clear H1.
    inversion H2 as [| | | | | r1 r2 c c1' c2 H3 H4 | | | | | | |]; subst; clear H2.
    inversion H3 as [| cl x t sn cp Hx | | | | | | | | | | |]; subst; clear H3.
    inversion H4 as [| | | | | r1 r2 c c1' c2 H5 H6 | | | | | | |]; subst; clear H4.
    inversion H6 as [| | | c Hr | | | | | | | | |]; subst; clear H6.
    simpl in Hx. apply negb_true_iff in Hx.
    inversion H5 as [| | | | | | r1 r2 c c'' H7 | r1 r2 c c'' H7 | | | | |]; subst; clear H5.
    + inversion H7 as [| | | | | r1 r2 c c1' c2 H8 H9 | | | | | | |]; subst; clear H7.
      apply Match_star_class in H8 as (w & Hw & Hrest & _). simpl in Hrest.
      inversion H9 as [| cl y u sn cp Hy | | | | | | | | | | |]; subst; clear H9.
      simpl in Hr. subst u. simpl in Hy. apply negb_true_iff in Hy.
      right. exists x, w, y. repeat split; try done.
      eapply Forall_impl; [exact Hw|]. intros z Hz. simpl in Hz.
      by apply negb_true_iff in Hz.
    + inversion H7; subst. simpl in Hr. subst t. left. by exists x.
  - intros [(x & -> & Hx) | (x & mid & y & -> & Hx & Hy & Hmid)].
    + eexists. eapply M_Seq; [by apply M_Bol|].
      eapply M_Seq; [apply M_Chr; simpl; by rewrite Hx|].
      eapply M_Seq; [apply M_AltR, M_Eps|]. by apply M_Eol.
    + eexists. eapply M_Seq; [by apply M_Bol|].
      eapply M_Seq; [apply M_Chr; simpl; by rewrite Hx|].
      eapply M_Seq.
      * apply M_AltL. eapply M_Seq.
        -- apply (Match_star_class_intro false CAny mid).
           eapply Forall_impl; [exact Hmid|]. intros z Hz. simpl. by rewrite Hz.
        -- apply M_Chr. simpl. by rewrite Hy.
      * by apply M_Eol.
Qed.

Lemma description_format_fixed s : description_format s -> trim s = s.
Proof.
  intros [(x & -> & Hx) | (x & mid & y & -> & Hx & Hy & _)]; apply trim_fixed.
  - right; left. by exists x.
  - right; right. by exists x, mid, y.
Qed.

Lemma description_format_not_blank s : description_format s -> blank s = false.
Proof.
  intros H. unfold blank. rewrite (description_format_fixed s H).
  by destruct H as [(x & -> & _) | (x & mid & y & -> & _)].
Qed.

(** For a text that is not blank, the pattern fails on the trimmed text
    exactly when a line terminator is in it. *)
Lemma re_description_trim v :
  blank v = false ->
  test false re_description (trim v) = negb (existsb is_line_terminator (trim v)).
Proof.
  intros Hb.
  destruct (trim_split v) as (_ & _ & _ & _ & _ & Ht).
  assert (trim v <> []) as Hne.
  { intros E. unfold blank in Hb. rewrite E in Hb. by rewrite orb_true_r in Hb. }
  destruct Ht as [E | Ht]; [done|].
  destruct (existsb is_line_terminator (trim v)) eqn:Hex; simpl.
  - apply not_true_iff_false. intros H. apply re_description_format in H.
    apply existsb_exists in Hex as (z & Hin & Hz).
    pose proof (line_terminator_space z Hz) as Hs.
    destruct H as [(x & E & Hx) | (x & mid & y & E & Hx & Hy & Hmid)];
      rewrite E in Hin.
    + destruct Hin as [<- | []]. unfold not_space in Hx. congruence.
    + destruct Hin as [<- | Hin]; [unfold not_space in Hx; congruence|].
      apply in_app_or in Hin as [Hin | [<- | []]].
      * rewrite Forall_forall in Hmid. apply list_elem_of_In, Hmid in Hin.
        unfold not_terminator in Hin. congruence.
      * unfold not_space in Hy; congruence.
  - apply re_description_format.
    assert (forall z, In z (trim v) -> is_line_terminator z = false) as Hno.
    { intros z Hin. destruct (is_line_terminator z) eqn:Hz; [|done].
      assert (existsb is_line_terminator (trim v) = true); [|congruence].
      apply existsb_exists. eauto. }
    destruct Ht as [(x & E & Hx) | (x & mid & y & E & Hx & Hy)].
    + left. by exists x.
    + right. exists x, mid, y. repeat split; try done.
      apply Forall_forall. intros z Hz. apply Hno. rewrite E.
      right. apply in_or_app. left. by apply list_elem_of_In.
Qed.

Lemma validateField_description_eq (v : jsstring) :
  validateField "description" v =
  if blank v then FieldResult false "This field is required."
  else if existsb is_line_terminator (trim v)
  then FieldResult false "Description cannot have leading or trailing spaces."
  else if eqs v (trim v) then FieldResult true EmptyString
  else FieldResult false "Invalid format.".
Proof.
  unfold validateField. destruct (blank v) eqn:Hb; [done|].
  change (REGEX_PATTERNS !! "description") with (Some (false, re_description)).
  cbv iota beta. pose proof (re_description_trim v Hb) as Ht. rewrite Ht.
  cbn [String.eqb Ascii.eqb Bool.eqb andb].
  destruct (existsb is_line_terminator (trim v)) eqn:Hex; [done|].
  cbn [negb] in *. unfold eqs. case_bool_decide as Hv.
  - rewrite <- Hv in Ht. by rewrite Ht.
  - assert (test false re_description v = false) as ->; [|done].
    apply not_true_iff_false. intros H. apply re_description_format in H.
    by apply description_format_fixed in H.
Qed.


(** X1: what [validateField] answers for a description, told by its
    characters.  A blank text is required; a text whose trimmed form holds a
    line terminator gets the message of the leading and trailing spaces; of
    the others, the text that is its own trimmed form passes, and one with
    white space at an end gets ["Invalid format."]. *)
Theorem validateField_description_cases (v : jsstring) :
  validateField "description" v =
  if blank v then FieldResult false "This field is required."
  else if existsb is_line_terminator (trim v)
  then FieldResult false "Description cannot have leading or trailing spaces."
  else if eqs v (trim v) then FieldResult true EmptyString
  else FieldResult false "Invalid format.".
Proof. apply validateField_description_eq. Qed.

End DescriptionFormat.

(** ** validators.js: the result of validateForm *)

Module FormProps.
Import JS Regex RegexFacts JSDate Validators ValidatorsSpec PatternProps FormInvariant.
Local Open Scope string_scope.
Local Open Scope list_scope.

Lemma well_formed_fail f msg r :
  f ∈ requiredFields -> well_formed_result r -> well_formed_result (fail f msg r).
Proof.
  intros Hf (Hv & He & Hw). unfold fail. split; [|split]; simpl.
  - split; [done|]. intros E. by apply insert_non_empty in E.
  - intros k [x Hk]. destruct (decide (f = k)) as [<- | Hne]; [done|].
    rewrite lookup_insert_ne in Hk by done. apply He. by exists x.
  - done.
Qed.

Lemma well_formed_warn n msg r :
  n = "duplicateWords" \/ n = "largeAmount" ->
  well_formed_result r -> well_formed_result (warn n msg r).
Proof.
  intros Hn (Hv & He & Hw). unfold warn. split; [|split]; simpl; [done..|].
  intros k [x Hk]. destruct (decide (n = k)) as [<- | Hne]; [done|].
  rewrite lookup_insert_ne in Hk by done. apply Hw. by exists x.
Qed.

Lemma well_formed_validateForm h today now' fd :
  well_formed_result (validateForm h today now' fd).
Proof.
  unfold validateForm.
  set (r0 := FormResult true ∅ ∅).
  assert (well_formed_result r0) as H0.
  { split; [done|]. split; intros k [x Hk]; simpl in Hk; by rewrite lookup_empty in Hk. }
  set (r1 := foldl _ r0 requiredFields).
  assert (well_formed_result r1) as H1.
  { unfold r1. clear r1. revert H0. generalize r0.
    assert (Forall (fun f => f ∈ requiredFields) requiredFields) as HF.
    { unfold requiredFields. repeat constructor; set_solver. }
    revert HF. generalize requiredFields at 2 3.
    induction l as [|f l IH]; intros HF r Hr; simpl; [done|].
    apply Forall_cons in HF as [Hf HF]. apply IH; [done|].
    unfold check_required.
    destruct (fd !! f) as [v|]; [destruct (blank v)|];
      try done; by apply well_formed_fail. }
  set (r2 := check_description fd r1).
  assert (well_formed_result r2) as H2.
  { unfold r2, check_description. destruct (given fd "description"); [|done].
    destruct (isValid _); [done|]. apply well_formed_fail; [|done].
    unfold requiredFields. set_solver. }
  set (r3 := check_amount fd r2).
  assert (well_formed_result r3) as H3.
  { unfold r3, check_amount. destruct (given fd "amount"); [|done].
    assert ("amount" ∈ requiredFields) by (unfold requiredFields; set_solver).
    destruct (negb _); [by apply well_formed_fail|].
    destruct (nle _ _); [by apply well_formed_fail|].
    destruct (ngt _ _); [by apply well_formed_fail|done]. }
  set (r4 := check_date h today now' fd r3).
  assert (well_formed_result r4) as H4.
  { unfold r4, check_date. destruct (given fd "date"); [|done].
    assert ("date" ∈ requiredFields) by (unfold requiredFields; set_solver).
    destruct (negb _); [by apply well_formed_fail|].
    destruct (after _ _); [by apply well_formed_fail|].
    destruct (before _ _); [by apply well_formed_fail|done]. }
  set (r5 := check_duplicateWords fd r4).
  assert (well_formed_result r5) as H5.
  { unfold r5, check_duplicateWords. destruct (given fd "description"); [|done].
    destruct (test _ _ _); [|done]. apply well_formed_warn; auto. }
  unfold check_largeAmount. destruct (given fd "amount"); [|done].
  destruct (ngt _ _); [|done]. apply well_formed_warn; auto.
Qed.

(** X2: a result of [validateForm] is valid exactly when it has no error;
    its errors are entries for [description], [amount], [date] or
    [category], and its warnings are [duplicateWords] or [largeAmount].  A
    warning does not make a form invalid. *)
Theorem validateForm_valid_iff_no_error (h : host) (today now' : Z) (formData : form) :
  let r := validateForm h today now' formData in
  (form_isValid r = true <-> errors r = ∅)
  /\ (forall k, is_Some (errors r !! k) ->
        k = "description" \/ k = "amount" \/ k = "date" \/ k = "category")
  /\ (forall k, is_Some (warnings r !! k) -> k = "duplicateWords" \/ k = "largeAmount").
Proof.
  intros r. destruct (well_formed_validateForm h today now' formData) as (Hv & He & Hw).
  split; [done|]. split; [|done].
  intros k Hk. apply He in Hk. unfold requiredFields in Hk.
  repeat (apply elem_of_cons in Hk as [-> | Hk]); auto.
  by apply elem_of_nil in Hk.
Qed.

End FormProps.

(** ** validators.js: the required fields *)

Module FormFields.
Import JS Regex RegexFacts JSDate Validators ValidatorsSpec PatternProps FormInvariant.
Local Open Scope string_scope.
Local Open Scope list_scope.

Lemma validateField_blank rule v :
  blank v = true -> validateField rule v = FieldResult false "This field is required.".
Proof. intros Hb. unfold validateField. by rewrite Hb. Qed.

(** The entry of the description in the errors. *)
Lemma errors_description h today now' (fd : form) :
  errors (validateForm h today now' fd) !! "description" =
  match fd !! "description" with
  | None | Some [] => Some "Description is required."
  | Some v =>
      if isValid (validateField "description" v) then None
      else Some (message (validateField "description" v))
  end.
Proof.
  unfold validateForm. rewrite errors_warnings.
  rewrite errors_check_date_ne by discriminate.
  rewrite errors_check_amount_ne by discriminate.
  pose proof (errors_required fd "description") as Hreq.
  unfold check_description, given.
  destruct (fd !! "description") as [[|x t]|] eqn:E; cbn [truthy_str].
  - rewrite Hreq by (unfold requiredFields; set_solver). done.
  - destruct (isValid (validateField "description" (x :: t))) eqn:Hv.
    + rewrite Hreq by (unfold requiredFields; set_solver).
      destruct (blank (x :: t)) eqn:Hb; [|done].
      by rewrite (validateField_blank _ _ Hb) in Hv.
    + rewrite errors_fail. by case_decide.
  - rewrite Hreq by (unfold requiredFields; set_solver). done.
Qed.

(** The entry of the category in the errors: the category is only
    required. *)
Lemma errors_category h today now' (fd : form) :
  errors (validateForm h today now' fd) !! "category" =
  match fd !! "category" with
  | Some v => if blank v then Some "Category is required." else None
  | None => Some "Category is required."
  end.
Proof.
  unfold validateForm. rewrite errors_warnings.
  rewrite errors_check_date_ne by discriminate.
  rewrite errors_check_amount_ne by discriminate.
  rewrite errors_check_description_ne by discriminate.
  rewrite (errors_required fd "category") by (unfold requiredFields; set_solver).
  done.
Qed.

Lemma errors_amount_absent h today now' (fd : form) :
  fd !! "amount" = None ->
  errors (validateForm h today now' fd) !! "amount" = Some "Amount is required.".
Proof.
  intros E. unfold validateForm. rewrite errors_warnings.
  rewrite errors_check_date_ne by discriminate.
  unfold check_amount, given. rewrite E.
  rewrite errors_check_description_ne by discriminate.
  rewrite (errors_required fd "amount") by (unfold requiredFields; set_solver).
  by rewrite E.
Qed.

Lemma errors_date_absent h today now' (fd : form) :
  fd !! "date" = None ->
  errors (validateForm h today now' fd) !! "date" = Some "Date is required.".
Proof.
  intros E. unfold validateForm. rewrite errors_warnings.
  unfold check_date, given. rewrite E.
  rewrite errors_check_amount_ne by discriminate.
  rewrite errors_check_description_ne by discriminate.
  rewrite (errors_required fd "date") by (unfold requiredFields; set_solver).
  by rewrite E.
Qed.

(** X3: a field of the form that is absent or empty is reported as required
    under its own name; a field that holds white space only is reported
    with ["This field is required."], but for the category, which keeps its
    name. *)
Theorem validateForm_required (h : host) (today now' : Z) (formData : form)
  (field : string) :
  field ∈ requiredFields ->
  let entry := errors (validateForm h today now' formData) !! field in
  (formData !! field = None \/ formData !! field = Some [] ->
   entry = Some (capitalize field ++ " is required.")%string)
  /\ (forall v, formData !! field = Some v -> v <> [] -> trim v = [] ->
      entry = Some (if String.eqb field "category" then "Category is required."
                    else "This field is required.")).
Proof.
  intros Hin entry. unfold entry. clear entry. unfold requiredFields in Hin.
  assert (forall v : jsstring, v <> [] -> trim v = [] ->
            blank v = true /\ truthy_str v = true) as Hblank.
  { intros v Hne Ht. unfold blank. rewrite Ht. by destruct v. }
  repeat (apply elem_of_cons in Hin as [-> | Hin]); [ .. | by apply elem_of_nil in Hin].
  - rewrite errors_description. split.
    + by intros [-> | ->].
    + intros v -> Hne Ht. destruct (Hblank v Hne Ht) as [Hb _].
      rewrite (validateField_blank _ _ Hb). by destruct v.
  - split.
    + intros [E | E]; [by apply errors_amount_absent|].
      by rewrite (errors_amount _ _ _ _ _ E).
    + intros v E Hne Ht. destruct (Hblank v Hne Ht) as [Hb Htr].
      rewrite (errors_amount _ _ _ _ _ E). unfold amount_error. by rewrite Hb, Htr.
  - split.
    + intros [E | E]; [by apply errors_date_absent|].
      by rewrite (DateValidation.errors_date _ _ _ _ _ E).
    + intros v E Hne Ht. destruct (Hblank v Hne Ht) as [Hb Htr].
      rewrite (DateValidation.errors_date _ _ _ _ _ E). unfold date_error.
      by rewrite Hb, Htr.
  - rewrite errors_category. split.
    + by intros [-> | ->].
    + intros v -> Hne Ht. destruct (Hblank v Hne Ht) as [Hb _]. by rewrite Hb.
Qed.

Lemma validateForm_required_witness :
  let r := validateForm (Host 0 true) 0 0 {["description" := lit "  "]} in
  errors r !! "amount" = Some "Amount is required."
  /\ errors r !! "description" = Some "This field is required.".
Proof.
  intros r. split.
  - apply (validateForm_required (Host 0 true) 0 0 {["description" := lit "  "]} "amount").
    + unfold requiredFields. set_solver.
    + by left.
  - refine (proj2 (validateForm_required (Host 0 true) 0 0
                     {["description" := lit "  "]} "description" _) (lit "  ") _ _ _);
      [unfold requiredFields; set_solver | done | done | done].
Defined.

End FormFields.

(** ** validators.js: the warnings *)

Module FormWarnings.
Import JS Regex RegexFacts JSDate Validators ValidatorsSpec PatternProps FormInvariant.
Local Open Scope string_scope.
Local Open Scope list_scope.









End FormWarnings.

(** ** validators.js: the valid forms *)

Module ValidForm.
Import JS Regex RegexFacts JSDate Validators ValidatorsSpec PatternProps FormInvariant
  Formats TrimFacts.
Local Open Scope string_scope.
Local Open Scope list_scope.

Lemma validateField_description_valid v :
  isValid (validateField "description" v) = true <-> description_format v.
Proof.
  rewrite DescriptionFormat.validateField_description_eq. split.
  - destruct (blank v) eqn:Hb; [done|].
    destruct (existsb _ _) eqn:Hex; [done|].
    unfold eqs. case_bool_decide as Hv; [|done]. intros _.
    apply DescriptionFormat.re_description_format.
    rewrite Hv, (DescriptionFormat.re_description_trim v Hb), Hex. done.
  - intros Hf.
    pose proof (DescriptionFormat.description_format_not_blank v Hf) as Hb.
    pose proof (DescriptionFormat.description_format_fixed v Hf) as Ht.
    apply DescriptionFormat.re_description_format in Hf.
    rewrite Hb, Ht. rewrite <- Ht, (DescriptionFormat.re_description_trim v Hb), Ht in Hf.
    apply negb_true_iff in Hf. rewrite Hf.
    unfold eqs. by rewrite bool_decide_eq_true_2.
Qed.

Lemma amount_error_None s :
  amount_error s = None <->
  amount_format s /\ exists q, parseFloat s = Num q /\ (0 < q)%Q /\ (q <= 99999999 # 100)%Q.
Proof.
  unfold amount_error. split.
  - destruct (blank s) eqn:Hb; [done|].
    destruct (test false re_amount s) eqn:Ht; [|done]. cbn [negb].
    apply re_amount_format in Ht as Hf.
    destruct (amount_format_units s Hf) as (d & t & -> & Hd & _).
    destruct (parseFloat_digit d t Hd) as (q & Hq). rewrite Hq.
    destruct (nle _ _) eqn:Hle; [done|].
    destruct (ngt _ _) eqn:Hgt; [done|]. intros _.
    split; [done|]. exists q. split; [done|].
    apply nle_Num_false in Hle. apply ngt_Num_false in Hgt. done.
  - intros (Hf & q & Hq & Hpos & Hmax).
    rewrite (amount_format_not_blank s Hf).
    apply re_amount_format in Hf as ->. cbn [negb]. rewrite Hq.
    apply (nle_Num_false q 0) in Hpos as ->.
    by apply ngt_Num_false in Hmax as ->.
Qed.

Lemma errors_empty_iff h today now' fd :
  errors (validateForm h today now' fd) = ∅ <->
  errors (validateForm h today now' fd) !! "description" = None
  /\ errors (validateForm h today now' fd) !! "amount" = None
  /\ errors (validateForm h today now' fd) !! "date" = None
  /\ errors (validateForm h today now' fd) !! "category" = None.
Proof.
  split; [by intros ->|]. intros (H1 & H2 & H3 & H4).
  destruct (FormProps.well_formed_validateForm h today now' fd) as (_ & He & _).
  apply map_eq. intros k. rewrite lookup_empty.
  destruct (errors _ !! k) as [x|] eqn:Ek; [|done].
  assert (k ∈ requiredFields) as Hin by (apply He; by exists x).
  unfold requiredFields in Hin.
  repeat (apply elem_of_cons in Hin as [-> | Hin]); try congruence.
  by apply elem_of_nil in Hin.
Qed.

Lemma errors_description_None h today now' (fd : form) :
  errors (validateForm h today now' fd) !! "description" = None
  <-> exists v, fd !! "description" = Some v /\ description_format v.
Proof.
  rewrite FormFields.errors_description.
  destruct (fd !! "description") as [[|x t]|].
  - split; [done|]. intros (v & [= <-] & Hf).
    by apply DescriptionFormat.description_format_not_blank in Hf.
  - destruct (isValid _) eqn:Hd.
    + apply validateField_description_valid in Hd. split; [|done]. intros _. by eexists.
    + split; [done|]. intros (v & [= <-] & Hf).
      apply validateField_description_valid in Hf. congruence.
  - split; [done | by intros (? & [=] & _)].
Qed.

Lemma errors_category_None h today now' (fd : form) :
  errors (validateForm h today now' fd) !! "category" = None
  <-> exists v, fd !! "category" = Some v /\ blank v = false.
Proof.
  rewrite FormFields.errors_category.
  destruct (fd !! "category") as [v|].
  - destruct (blank v) eqn:Hb.
    + split; [done|]. intros (v' & [= <-] & ?). congruence.
    + split; [|done]. intros _. by exists v.
  - split; [done | by intros (? & [=] & _)].
Qed.

Lemma errors_amount_None h today now' (fd : form) :
  errors (validateForm h today now' fd) !! "amount" = None
  <-> exists v q, fd !! "amount" = Some v /\ amount_format v
        /\ parseFloat v = Num q /\ (0 < q)%Q /\ (q <= 99999999 # 100)%Q.
Proof.
  destruct (fd !! "amount") as [v|] eqn:Ev.
  - rewrite (errors_amount _ _ _ _ _ Ev), amount_error_None. split.
    + intros (Hf & q & Hq). by exists v, q.
    + intros (v' & q & [= <-] & Hf & Hq). split; [done|]. by exists q.
  - rewrite (FormFields.errors_amount_absent _ _ _ _ Ev).
    split; [done | by intros (? & ? & [=] & _)].
Qed.

Lemma errors_date_None h today now' (fd : form) :
  errors (validateForm h today now' fd) !! "date" = None
  <-> exists v, fd !! "date" = Some v /\ date_format v
        /\ after (parse_date h v) today = false
        /\ before (parse_date h v) (setFullYear h now' (getFullYear h today - 1)) = false.
Proof.
  destruct (fd !! "date") as [v|] eqn:Ev.
  - rewrite (DateValidation.errors_date _ _ _ _ _ Ev), DateValidation.date_error_None.
    split.
    + intros (Hf & Ha & Hb). by exists v.
    + by intros (v' & [= <-] & Hf & Ha & Hb).
  - rewrite (FormFields.errors_date_absent _ _ _ _ Ev).
    split; [done | by intros (? & [=] & _)].
Qed.

Lemma form_isValid_iff h today now' (fd : form) :
  form_isValid (validateForm h today now' fd) = true <->
  (exists v, fd !! "description" = Some v /\ description_format v)
  /\ (exists v q, fd !! "amount" = Some v /\ amount_format v
                  /\ parseFloat v = Num q /\ (0 < q)%Q /\ (q <= 99999999 # 100)%Q)
  /\ (exists v, fd !! "date" = Some v /\ date_format v
                /\ after (parse_date h v) today = false
                /\ before (parse_date h v)
                          (setFullYear h now' (getFullYear h today - 1)) = false)
  /\ (exists v, fd !! "category" = Some v /\ blank v = false).
Proof.
  destruct (FormProps.well_formed_validateForm h today now' fd) as (Hv & _ & _).
  rewrite Hv, errors_empty_iff.
  by rewrite errors_description_None, errors_amount_None, errors_date_None,
    errors_category_None.
Qed.

(** X5: the forms that [validateForm] declares valid.  A form is valid
    exactly when its description starts and ends with a unit that is not
    white space and holds no line terminator in between, its amount has the
    format of an amount and reads as a number above 0 and at most 999999.99,
    its date has the format of a date and is neither after the clock nor
    before the clock set back by a year, and its category is not blank. *)
Theorem validateForm_accepts (h : host) (today now' : Z) (formData : form) :
  form_isValid (validateForm h today now' formData) = true <->
  (exists v, formData !! "description" = Some v /\ description_format v)
  /\ (exists v q, formData !! "amount" = Some v /\ amount_format v
                  /\ parseFloat v = Num q /\ (0 < q)%Q /\ (q <= 99999999 # 100)%Q)
  /\ (exists v, formData !! "date" = Some v /\ date_format v
                /\ after (parse_date h v) today = false
                /\ before (parse_date h v)
                          (setFullYear h now' (getFullYear h today - 1)) = false)
  /\ (exists v, formData !! "category" = Some v /\ blank v = false).
Proof. apply form_isValid_iff. Qed.

End ValidForm.

(** ** validators.js: validateFieldRealtime *)

Module FeedbackProps.
Import JS Regex RegexFacts Validators ValidatorsSpec PatternProps State FieldFeedback.
Local Open Scope string_scope.
Local Open Scope list_scope.

(** A text in the format of an amount is made of digits and at most of one
    point. *)
Lemma amount_format_digits s :
  amount_format s -> Forall (fun x => is_digit x = true \/ x = 46) s.
Proof.
  intros (ip & fp & -> & Hi & Hf). apply Forall_app. split.
  - destruct Hi as [-> | (d & ds & -> & Hd & Hds)].
    + repeat constructor.
    + constructor.
      * left. unfold nonzero_digit_unit, is_digit, in_range in *.
        rewrite andb_true_iff, !N.leb_le in *. lia.
      * eapply Forall_impl; [exact Hds|]. by left.
  - destruct Hf as [-> | (ds & -> & _ & Hds)]; [done|].
    constructor; [by right|]. eapply Forall_impl; [exact Hds|]. by left.
Qed.

Lemma amount_format_no_comma s : amount_format s -> includes s 44 = false.
Proof.
  intros H. apply amount_format_digits in H. unfold includes.
  apply not_true_iff_false. intros Hex. apply existsb_exists in Hex as (x & Hin & Hx).
  apply N.eqb_eq in Hx. subst x.
  rewrite Forall_forall in H. apply list_elem_of_In, H in Hin.
  destruct Hin as [Hd | ?]; [|done]. by vm_compute in Hd.
Qed.

(** A zero in front of further units, none of them a point, is not the
    format of an amount. *)
Lemma amount_format_leading_zero s :
  startsWith s 48 = true -> (1 < length s)%nat -> includes s 46 = false ->
  ~ amount_format s.
Proof.
  intros Hs Hl Hp (ip & fp & -> & Hi & Hf).
  destruct Hi as [-> | (d & ds & -> & Hd & Hds)].
  - destruct Hf as [-> | (ds & -> & _)]; [simpl in Hl; lia|].
    by simpl in Hp.
  - simpl in Hs. apply N.eqb_eq in Hs. subst d. by vm_compute in Hd.
Qed.

Lemma validateField_amount_refused v :
  blank v = false -> ~ amount_format v ->
  validateField "amount" v =
  FieldResult false "Amount must be a positive number with maximum 2 decimal places.".
Proof.
  intros Hb Hf.
  assert (test false re_amount v = false) as Ht.
  { apply not_true_iff_false. by rewrite re_amount_format. }
  pose proof (validateField_amount v) as Hv.
  pose proof (message_validateField_amount v) as Hm.
  rewrite Hb, Ht in Hv, Hm. destruct (validateField "amount" v). simpl in *. congruence.
Qed.

(** X6: the feedback while typing.  An empty or blank field is answered as
    valid, without a message.  An amount with a comma in it is refused and
    the period is suggested; an amount that is a zero followed by further
    characters, no period and no comma among them, is refused and the
    removal of the leading zeros is suggested. *)
Theorem validateFieldRealtime_amount_hints (value : jsstring) :
  (blank value = true ->
   forall fieldName,
     validateFieldRealtime fieldName value
     = RealtimeResult true EmptyString EmptyString None)
  /\ (blank value = false -> includes value 44 = true ->
      validateFieldRealtime "amount" value
      = RealtimeResult false
          "Amount must be a positive number with maximum 2 decimal places."
          EmptyString (Some "Use a period (.) instead of comma for decimals."))
  /\ (startsWith value 48 = true -> (1 < length value)%nat ->
      includes value 46 = false -> includes value 44 = false ->
      validateFieldRealtime "amount" value
      = RealtimeResult false
          "Amount must be a positive number with maximum 2 decimal places."
          EmptyString (Some "Remove leading zeros.")).
Proof.
  split; [|split].
  - intros Hb fieldName. unfold validateFieldRealtime. by rewrite Hb.
  - intros Hb Hc. unfold validateFieldRealtime. rewrite Hb.
    rewrite validateField_amount_refused; [|done|].
    2:{ intros Hf. apply amount_format_no_comma in Hf. congruence. }
    rewrite (blank_truthy _ Hb), Hc. done.
  - intros Hs Hl Hp Hc.
    assert (blank value = false) as Hb.
    { destruct value as [|x t]; [done|]. simpl in Hs. apply N.eqb_eq in Hs. subst x.
      unfold blank. simpl truthy_str. cbn [negb orb].
      destruct (TrimFacts.trim_split (48 :: t)) as (pre & post & E & Hpre & Hpost & _).
      unfold eqs. case_bool_decide as Ht; [|done]. rewrite Ht in E. simpl in E.
      destruct pre as [|p pre]; simpl in E.
      - rewrite <- E in Hpost. apply Forall_cons in Hpost as [Hp' _]. by vm_compute in Hp'.
      - injection E as <- _. apply Forall_cons in Hpre as [Hp' _]. by vm_compute in Hp'. }
    unfold validateFieldRealtime. rewrite Hb.
    rewrite validateField_amount_refused; [|done|].
    2:{ by apply amount_format_leading_zero. }
    rewrite (blank_truthy _ Hb), Hc, Hs, Hp.
    apply Nat.ltb_lt in Hl. rewrite Hl. done.
Qed.

End FeedbackProps.

(** ** validators.js: validateCurrencySettings *)

Module CurrencyProps.
Import JS Validators PatternProps State FieldFeedback SettingsSpec.
Local Open Scope string_scope.
Local Open Scope list_scope.

Lemma cs_fail_invalid f msg r :
  cs_isValid (cs_fail f msg r) = false /\ cs_errors (cs_fail f msg r) <> ∅.
Proof. split; [done|]. apply insert_non_empty. Qed.

Lemma not_positive_false x :
  not_positive x = false <-> exists q, x = Some (Num q) /\ (0 < q)%Q.
Proof.
  destruct x as [[|q]|]; simpl.
  - split; [done | by intros (? & [=] & _)].
  - rewrite orb_false_iff, negb_false_iff. split.
    + intros [_ Hle]. exists q. split; [done|]. by apply (nle_Num_false q 0).
    + intros (q' & [= <-] & Hq). split.
      * apply negb_true_iff, not_true_iff_false. intros E. apply Qeq_bool_iff in E.
        rewrite E in Hq. by apply Qlt_irrefl in Hq.
      * by apply (nle_Num_false q 0).
  - split; [done | by intros (? & [=] & _)].
Qed.

Lemma out_of_range_false x : out_of_range x = false <-> rate_passes x.
Proof.
  unfold rate_passes. destruct x as [[|q]|]; simpl.
  - split; auto.
  - rewrite andb_false_iff, orb_false_iff, negb_false_iff. split.
    + intros [E | [Hle Hgt]]; right; right; exists q; split; try done.
      * apply Qeq_bool_iff in E. rewrite E. split; [apply Qle_refl | done].
      * apply (nle_Num_false q 0) in Hle. apply (ngt_Num_false q) in Hgt.
        split; [by apply Qlt_le_weak | done].
    + intros [[=] | [[=] | (q' & [= <-] & H0 & H1)]].
      destruct (Qeq_bool q 0) eqn:E; [by left|]. right. split.
      * apply (nle_Num_false q 0). apply Qle_lt_or_eq in H0 as [?|E']; [done|].
        assert (Qeq_bool q 0 = true); [|congruence].
        apply Qeq_bool_iff. by symmetry.
      * by apply (ngt_Num_false q).
  - split; auto.
Qed.

Lemma cs_step (b : bool) f msg r :
  (cs_isValid r = true <-> cs_errors r = ∅) ->
  let r' := if b then cs_fail f msg r else r in
  (cs_isValid r' = true <-> cs_errors r' = ∅)
  /\ (cs_isValid r' = true <-> b = false /\ cs_isValid r = true).
Proof.
  intros Hr. destruct b; simpl.
  - split; (split; [done|]); [by intros E; simpl in E; apply insert_non_empty in E | by intros [? _]].
  - split; [done|]. split; [done | by intros [_ ?]].
Qed.

(** X7: [validateCurrencySettings] is valid exactly when it reports no error,
    and it is so exactly for a currency symbol that is not blank and at most
    three units long, untrimmed, a budget cap that is a number above 0, and
    two rates each of which is absent, NaN or from 0 to 1000: a rate of 0
    passes. *)
Theorem validateCurrencySettings_accepts (currencyData : settings_t) :
  let r := validateCurrencySettings currencyData in
  (cs_isValid r = true <-> cs_errors r = ∅)
  /\ (cs_isValid r = true <->
      (exists s, baseCurrency currencyData = Some s /\ blank s = false
                 /\ (length s <= 3)%nat)
      /\ (exists q, budgetCap currencyData = Some (Num q) /\ (0 < q)%Q)
      /\ rate_passes (alt1Rate currencyData)
      /\ rate_passes (alt2Rate currencyData)).
Proof.
  intros r. unfold r, validateCurrencySettings. clear r.
  rewrite <- !out_of_range_false, <- not_positive_false.
  set (r0 := CurrencyResult true ∅).
  set (r1 := match baseCurrency currencyData with Some _ => _ | None => _ end).
  assert ((cs_isValid r1 = true <-> cs_errors r1 = ∅)
          /\ (cs_isValid r1 = true <->
              exists s, baseCurrency currencyData = Some s /\ blank s = false
                        /\ (length s <= 3)%nat)) as [I1 V1].
  { unfold r1. destruct (baseCurrency currencyData) as [s|].
    2:{ split; (split; [done|]); [by intros E; simpl in E; apply insert_non_empty in E|].
        by intros (? & [=] & _). }
    destruct (blank s) eqn:Hb.
    { split; (split; [done|]); [by intros E; simpl in E; apply insert_non_empty in E|].
      intros (s' & [= <-] & ? & _). congruence. }
    destruct (3 <? length s)%nat eqn:Hl.
    { split; (split; [done|]); [by intros E; simpl in E; apply insert_non_empty in E|].
      intros (s' & [= <-] & _ & ?). apply Nat.ltb_lt in Hl. lia. }
    split; [done|]. split; [|done]. intros _. apply Nat.ltb_ge in Hl. by exists s. }
  destruct (cs_step (not_positive (budgetCap currencyData)) "budgetCap"
              "Budget cap must be a positive number." r1 I1) as [I2 V2].
  set (r2 := if not_positive _ then _ else _) in *.
  destruct (cs_step (out_of_range (alt1Rate currencyData)) "alt1Rate"
              "Alternative currency 1 rate must be between 0 and 1000." r2 I2)
    as [I3 V3].
  set (r3 := if out_of_range (alt1Rate _) then _ else _) in *.
  destruct (cs_step (out_of_range (alt2Rate currencyData)) "alt2Rate"
              "Alternative currency 2 rate must be between 0 and 1000." r3 I3)
    as [I4 V4].
  split; [done|]. rewrite V4, V3, V2, V1. tauto.
Qed.

End CurrencyProps.

(** ** validators.js: what sanitizeInput leaves *)

Module SanitizeMore.
Import JS Regex RegexFacts Validators ValidatorsSpec PatternProps Formats TrimFacts.
Local Open Scope string_scope.
Local Open Scope list_scope.

(** Replacing the units of a class by a text without such units leaves no
    unit of the class. *)
Lemma replace_go_class_repl cl repl fuel sn rs :
  (length rs <= fuel)%nat ->
  Forall (fun x => class_mem false cl x = false) repl ->
  Forall (fun x => class_mem false cl x = false)
         (replace_go fuel false (Chr cl) repl sn rs).
Proof.
  intros Hl Hrepl. revert sn rs Hl.
  induction fuel as [|fuel IH]; intros sn rs Hl.
  - destruct rs; [done | simpl in Hl; lia].
  - destruct rs as [|x t]; simpl; [done|].
    destruct (class_mem false cl x) eqn:Hx; simpl.
    + rewrite (proj2 (Nat.ltb_lt _ _)) by lia. apply Forall_app. split; [done|].
      apply IH. simpl in Hl. lia.
    + constructor; [done|]. apply IH. simpl in Hl. lia.
Qed.

Lemma replace_all_class_repl cl repl s :
  Forall (fun x => class_mem false cl x = false) repl ->
  Forall (fun x => class_mem false cl x = false) (replace_all false (Chr cl) repl s).
Proof. intros H. unfold replace_all. apply replace_go_class_repl; [lia | done]. Qed.

Lemma Forall_lit (P : N -> Prop) (p : N -> bool) s :
  (forall x, p x = true -> P x) -> forallb p (lit s) = true -> Forall P (lit s).
Proof.
  intros HP H. apply Forall_forall. intros x Hx. apply HP.
  rewrite forallb_forall in H. apply H. by apply list_elem_of_In.
Qed.

Lemma sanitizeInput_no_unit (c : N) :
  c = 34 \/ c = 39 \/ c = 47 ->
  forall input, Forall (fun x => (x =? c)%N = false) (sanitizeInput input).
Proof.
  intros Hc input. unfold sanitizeInput. apply trim_Forall.
  change (ch "&") with (Chr (CLit 38)). change (ch "'") with (Chr (CLit 39)).
  change (ch "/") with (Chr (CLit 47)).
  destruct Hc as [-> | [-> | ->]].
  - do 2 (apply replace_all_Forall;
          [apply (Forall_lit _ (fun x => negb (x =? 34)%N));
             [intros ? ?; by apply negb_true_iff | by vm_compute]|]).
    apply (replace_all_class_repl (CLit 34)).
    apply (Forall_lit _ (fun x => negb (x =? 34)%N));
      [intros ? ?; by apply negb_true_iff | by vm_compute].
  - apply replace_all_Forall;
      [apply (Forall_lit _ (fun x => negb (x =? 39)%N));
         [intros ? ?; by apply negb_true_iff | by vm_compute]|].
    apply (replace_all_class_repl (CLit 39)).
    apply (Forall_lit _ (fun x => negb (x =? 39)%N));
      [intros ? ?; by apply negb_true_iff | by vm_compute].
  - apply (replace_all_class_repl (CLit 47)).
    apply (Forall_lit _ (fun x => negb (x =? 47)%N));
      [intros ? ?; by apply negb_true_iff | by vm_compute].
Qed.

(** X8: the result of [sanitizeInput] holds none of the units [<], [>],
    the double quote, the single quote and [/], and it neither starts nor
    ends with white space: trimming it again changes nothing. *)
Theorem sanitizeInput_no_markup (input : jsstring) :
  Forall (fun x => markup_unit x = false) (sanitizeInput input)
  /\ trim (sanitizeInput input) = sanitizeInput input.
Proof.
  split.
  - pose proof (SanitizeProps.sanitizeInput_no_angle input) as Ha.
    pose proof (sanitizeInput_no_unit 34 (or_introl eq_refl) input) as H1.
    pose proof (sanitizeInput_no_unit 39 (or_intror (or_introl eq_refl)) input) as H2.
    pose proof (sanitizeInput_no_unit 47 (or_intror (or_intror eq_refl)) input) as H3.
    rewrite Forall_forall in *. intros x Hx.
    specialize (Ha x Hx). specialize (H1 x Hx). specialize (H2 x Hx).
    specialize (H3 x Hx). unfold markup_unit, no_angle in *. simpl in Ha.
    rewrite orb_false_r in Ha. apply orb_false_iff in Ha as [-> ->].
    by rewrite H1, H2, H3.
  - unfold sanitizeInput. apply trim_idempotent.
Qed.

End SanitizeMore.

(** ** validators.js: sanitizeInput on plain text *)

Module PlainText.
Import JS Regex RegexFacts Validators ValidatorsSpec PatternProps Formats TrimFacts
  PatternNeeds.
Local Open Scope string_scope.
Local Open Scope list_scope.

Lemma canonicalize_not_letter x c :
  is_letter c = false -> canonicalize x = canonicalize c -> x = c.
Proof.
  unfold is_letter, canonicalize, in_range.
  rewrite orb_false_iff, !andb_false_iff, !N.leb_gt.
  intros [H1 H2].
  destruct ((97 <=? x)%N && (x <=? 122)%N) eqn:Hx, ((97 <=? c)%N && (c <=? 122)%N) eqn:Hc;
    rewrite ?andb_true_iff, ?andb_false_iff, ?N.leb_le, ?N.leb_gt in *; lia.
Qed.

Lemma needs_sound bad ic r c c' :
  needs bad r = true -> Match ic r c c' ->
  exists w x, rest c = w ++ rest c' /\ In x w /\ bad x = true.
Proof.
  intros Hn HM. revert Hn.
  induction HM as [c | cl x t sn cp Hc | c Hs | c Hs | c Hs
                 | r1 r2 c c1 c2 HM1 IH1 HM2 IH2 | r1 r2 c c' _ IH | r1 r2 c c' _ IH
                 | r c | r c c1 c2 _ IH1 Hlt _ IH2 | i r c c' _ IH
                 | i c Hn | i c w Hw Hl Hs]; simpl; try done.
  - intros Hn. exists [x], x. split; [done|]. split; [by left|].
    destruct cl as [c0| | | | | | cs | lo hi]; try done.
    + apply andb_true_iff in Hn as [Hb Hl]. apply negb_true_iff in Hl.
      simpl in Hc. destruct ic.
      * apply N.eqb_eq in Hc. by rewrite (canonicalize_not_letter x c0 Hl Hc).
      * apply N.eqb_eq in Hc. by subst.
    + simpl in Hc. rewrite forallb_forall in Hn. destruct ic.
      * apply existsb_exists in Hc as (c0 & Hin & Hc). apply N.eqb_eq in Hc.
        apply Hn in Hin. apply andb_true_iff in Hin as [Hb Hl].
        apply negb_true_iff in Hl. by rewrite (canonicalize_not_letter x c0 Hl Hc).
      * apply existsb_exists in Hc as (c0 & Hin & Hc). apply N.eqb_eq in Hc. subst c0.
        apply Hn in Hin. by apply andb_true_iff in Hin as [Hb _].
  - intros Hn. apply Match_reads in HM1 as Hr1. apply Match_reads in HM2 as Hr2.
    destruct Hr1 as (w1 & E1 & _), Hr2 as (w2 & E2 & _).
    apply orb_true_iff in Hn as [Hn | Hn].
    + destruct (IH1 Hn) as (w & x & E & Hin & Hb).
      exists (w ++ w2), x. split; [by rewrite E, E2, app_assoc|].
      split; [|done]. apply in_or_app. by left.
    + destruct (IH2 Hn) as (w & x & E & Hin & Hb).
      exists (w1 ++ w), x. split; [by rewrite E1, E, app_assoc|].
      split; [|done]. apply in_or_app. by right.
  - intros Hn. apply andb_true_iff in Hn as [Hn _]. by apply IH.
  - intros Hn. apply andb_true_iff in Hn as [_ Hn]. by apply IH.
Qed.

(** A global replacement changes nothing in a text in which its pattern
    has no match. *)
Lemma replace_go_no_match (Q : N -> Prop) fuel ic r repl :
  (forall sn rs c', Forall Q rs -> ~ Match ic r (Cursor sn rs ∅) c') ->
  forall sn rs, Forall Q rs -> replace_go fuel ic r repl sn rs = rs.
Proof.
  intros Hno. induction fuel as [|fuel IH]; intros sn rs HQ; simpl; [done|].
  destruct (m ic r (Cursor sn rs ∅) Some) as [c'|] eqn:E.
  { apply m_sound in E as (c1 & HM & _). by apply Hno in HM. }
  destruct HQ as [|x t Hx Ht]; [done|]. by rewrite IH.
Qed.

Lemma replace_all_plain ic r repl s :
  needs (fun x => negb (plain_unit x)) r = true ->
  Forall (fun x => plain_unit x = true) s ->
  replace_all ic r repl s = s.
Proof.
  intros Hn Hs. unfold replace_all.
  apply (replace_go_no_match (fun x => plain_unit x = true)); [|done].
  intros sn rs c' Hrs HM.
  destruct (needs_sound _ _ _ _ _ Hn HM) as (w & x & E & Hin & Hb). simpl in E.
  rewrite E in Hrs. apply Forall_app in Hrs as [Hw _].
  rewrite Forall_forall in Hw. apply list_elem_of_In, Hw in Hin.
  rewrite Hin in Hb. done.
Qed.

(** X9: a text without the units [<], [>], [&], the two quotes, [/], [:]
    and [=] goes through [sanitizeInput] unchanged but for the white space
    at its two ends. *)
Theorem sanitizeInput_plain_text (input : jsstring) :
  Forall (fun x => plain_unit x = true) input ->
  sanitizeInput input = trim input.
Proof.
  intros H. unfold sanitizeInput.
  repeat match goal with
  | |- context [replace_all ?ic ?r ?repl input] =>
      rewrite (replace_all_plain ic r repl input) by (exact H || by vm_compute)
  end.
  done.
Qed.

Lemma sanitizeInput_plain_text_witness :
  sanitizeInput (lit "  Lunch with Ana  ") = lit "Lunch with Ana".
Proof.
  rewrite (sanitizeInput_plain_text (lit "  Lunch with Ana  ")); [by vm_compute|].
  apply Forall_forall. intros x Hx. apply list_elem_of_In in Hx.
  revert x Hx. apply forallb_forall. by vm_compute.
Defined.

End PlainText.

(** ** validators.js: sanitizeAndValidateForm *)

Module SanitizedForm.
Import JS Regex RegexFacts JSDate Validators ValidatorsSpec PatternProps Formats
  TrimFacts.
Local Open Scope string_scope.
Local Open Scope list_scope.

Lemma lookup_copy_field f field k (fd sanitized : form) :
  copy_field f field fd sanitized !! k =
  if decide (field = k) then
    match fd !! field with Some v => Some (f v) | None => sanitized !! k end
  else sanitized !! k.
Proof.
  unfold copy_field. destruct (fd !! field) as [v|]; case_decide; subst;
    by rewrite ?lookup_insert_eq, ?lookup_insert_ne by done.
Qed.

Lemma sanitizeAndValidateForm_data h today now' (fd : form) :
  let data := (sanitizeAndValidateForm h today now' fd).1 in
  data !! "id" = fd !! "id"
  /\ data !! "amount" = fd !! "amount"
  /\ data !! "date" = fd !! "date"
  /\ data !! "description" = sanitizeInput <$> fd !! "description"
  /\ data !! "category" = sanitizeInput <$> fd !! "category".
Proof.
  intros data. unfold data, sanitizeAndValidateForm. cbn [fst]. clear data.
  repeat split; rewrite !lookup_copy_field; repeat case_decide; try done;
    by destruct (fd !! _).
Qed.

Lemma sanitizeAndValidateForm_validation h today now' (fd : form) :
  (sanitizeAndValidateForm h today now' fd).2
  = validateForm h today now' (sanitizeAndValidateForm h today now' fd).1.
Proof. done. Qed.

Lemma trim_sanitizeInput v : trim (sanitizeInput v) = sanitizeInput v.
Proof. unfold sanitizeInput. apply trim_idempotent. Qed.

(** X10: [sanitizeAndValidateForm] hands the id, the amount and the date on
    as they are and the description and the category sanitized; a field the
    form does not have stays absent.  The description it validates is
    trimmed, so its error is never ["Invalid format."]: an empty one is
    required, one with a line terminator inside gets the message of the
    leading and trailing spaces, every other one passes. *)
Theorem sanitizeAndValidateForm_description (h : host) (today now' : Z)
  (formData : form) :
  let r := sanitizeAndValidateForm h today now' formData in
  r.1 !! "id" = formData !! "id"
  /\ r.1 !! "amount" = formData !! "amount"
  /\ r.1 !! "date" = formData !! "date"
  /\ r.1 !! "description" = sanitizeInput <$> formData !! "description"
  /\ r.1 !! "category" = sanitizeInput <$> formData !! "category"
  /\ errors r.2 !! "description" =
     match formData !! "description" with
     | None => Some "Description is required."
     | Some v =>
         if eqs (sanitizeInput v) [] then Some "Description is required."
         else if existsb is_line_terminator (sanitizeInput v)
         then Some "Description cannot have leading or trailing spaces."
         else None
     end.
Proof.
  intros r.
  destruct (sanitizeAndValidateForm_data h today now' formData)
    as (H1 & H2 & H3 & H4 & H5).
  do 5 (split; [done|]).
  unfold r. rewrite sanitizeAndValidateForm_validation.
  rewrite FormFields.errors_description, H4.
  destruct (formData !! "description") as [v|]; [|done]. simpl.
  pose proof (trim_sanitizeInput v) as Ht.
  destruct (sanitizeInput v) as [|x t] eqn:Es; [done|].
  rewrite DescriptionFormat.validateField_description_eq, Ht.
  assert (blank (x :: t) = false) as ->.
  { unfold blank. by rewrite Ht. }
  assert (eqs (x :: t) [] = false) as -> by done.
  destruct (existsb is_line_terminator (x :: t)); [done|].
  assert (eqs (x :: t) (x :: t) = true) as ->; [|done].
  unfold eqs. by apply bool_decide_eq_true.
Qed.

End SanitizedForm.

(** ** state.js: addRecord *)

Module StoreOps.
Import JS State StateSpec SortProps StoreProps.
Local Open Scope string_scope.
Local Open Scope list_scope.

Section Sorting.
Context {A : Type}.
Variable compareFn : A -> A -> number.

Lemma insert_Permutation x l : State.insert compareFn x l ≡ₚ x :: l.
Proof.
  induction l as [|y l IH]; simpl; [done|].
  destruct (greater compareFn x y); [|done].
  rewrite IH. apply Permutation_swap.
Qed.

Lemma sort_Permutation l : State.sort compareFn l ≡ₚ l.
Proof.
  induction l as [|x l IH]; [done|].
  change (State.sort compareFn (x :: l))
    with (State.insert compareFn x (State.sort compareFn l)).
  by rewrite insert_Permutation, IH.
Qed.
End Sorting.

Lemma findRecordById_first i st pre x post :
  records st = pre ++ x :: post -> Forall (fun r => id r <> i) pre -> id x = i ->
  findRecordById i st = Some x.
Proof.
  intros E Hpre Hx. unfold findRecordById. rewrite E.
  assert (list_find (fun r => id r = i) (pre ++ x :: post) = Some (length pre, x))
    as ->; [|done].
  apply list_find_Some. split; [|split; [done|]].
  - by rewrite lookup_app_r, Nat.sub_diag.
  - intros j y Hj Hlt. rewrite lookup_app_l in Hj by done.
    rewrite Forall_forall in Hpre. apply Hpre. by eapply list_elem_of_lookup_2.
Qed.

Lemma findIndex_Some i l n :
  findIndex i l = Some n ->
  exists pre x post, l = pre ++ x :: post /\ length pre = n
                     /\ Forall (fun r => id r <> i) pre /\ id x = i.
Proof.
  unfold findIndex. intros ([n' x] & Hf & ->)%fmap_Some. simpl.
  apply list_find_Some in Hf as (Hn & Hx & Hbefore).
  apply list_elem_of_split_length in Hn as (pre & post & -> & ->).
  exists pre, x, post. repeat split; try done.
  apply Forall_forall. intros y Hy.
  apply list_elem_of_lookup_1 in Hy as (j & Hj).
  apply (Hbefore j).
  - rewrite lookup_app_l; [done|]. by eapply lookup_lt_Some.
  - by eapply lookup_lt_Some.
Qed.

Section Store.
Context `{Collation}.

Lemma sort_eta (s : sort_t) : Sort (key s) (direction s) = s.
Proof. by destruct s. Qed.

(** X11: [addRecord] puts the new record in: afterwards the collection is a
    rearrangement of the new record and the records from before, it is in
    the current sort order, which stays what it was, and it is the
    collection handed to [saveRecords].  When no record from before has the
    new id, [findRecordById] of that id finds the new record. *)
Theorem addRecord_keeps_order (st : store) (now uuid : jsstring)
  (recordData : RecordData.t) :
  consistent H ->
  let r := addRecord now uuid recordData st in
  r.1 = Rec (lit "txn_" ++ uuid) (trim (RecordData.description recordData))
            (parseFloat (RecordData.amount recordData))
            (RecordData.category recordData) (RecordData.date recordData) now now
  /\ records r.2 ≡ₚ r.1 :: records st
  /\ in_order (compareRecords (key (currentSort st)) (direction (currentSort st)))
              (records r.2) = true
  /\ currentSort r.2 = currentSort st
  /\ settings r.2 = settings st
  /\ saved r.2 = records r.2 :: saved st
  /\ (Forall (fun x => id x <> id r.1) (records st) ->
      findRecordById (id r.1) r.2 = Some r.1).
Proof.
  intros Hc r. unfold r, addRecord, sortRecords. clear r.
  cbn [fst snd records set_records saveRecords set_currentSort currentSort settings
       saved].
  set (new := Rec _ _ _ _ _ _ _).
  set (cmp := compareRecords _ _).
  split; [done|]. split; [apply sort_Permutation|].
  split; [apply in_order_sort; by apply greater_asym|].
  split; [apply sort_eta|]. split; [done|]. split; [done|].
  intros Hfresh.
  assert (new ∈ State.sort cmp (new :: records st)) as Hin.
  { rewrite sort_Permutation. by left. }
  apply list_elem_of_split in Hin as (pre & post & E).
  unfold findRecordById. cbn [records saveRecords set_records set_currentSort].
  assert (Forall (fun x => id x <> id new \/ x = new) (State.sort cmp (new :: records st)))
    as Hall.
  { apply Forall_sort. constructor; [by right|].
    eapply Forall_impl; [exact Hfresh|]. by left. }
  destruct (list_find (fun r => id r = id new) (State.sort cmp (new :: records st)))
    as [[n x]|] eqn:Ef.
  - apply list_find_Some in Ef as (Hn & Hx & _). change (Some x = Some new). f_equal.
    rewrite Forall_forall in Hall. apply list_elem_of_lookup_2, Hall in Hn.
    cbn beta in Hx. destruct Hn as [Hne | ->]; [by destruct Hne | done].
  - apply list_find_None in Ef. rewrite E in Ef.
    apply Forall_app in Ef as [_ Ef]. by apply Forall_cons in Ef as [? _].
Qed.

End Store.

Lemma addRecord_keeps_order_witness :
  let r := @addRecord unit_collation (lit "2024-03-01T10:00:00.000Z") (lit "u1") lunch
             store_in_order in
  records r.2 ≡ₚ r.1 :: records store_in_order
  /\ findRecordById (id r.1) r.2 = Some r.1.
Proof.
  intros r.
  destruct (@addRecord_keeps_order unit_collation store_in_order
              (lit "2024-03-01T10:00:00.000Z") (lit "u1") lunch
              unit_collation_consistent) as (_ & Hp & _ & _ & _ & _ & Hf).
  split; [exact Hp|]. apply Hf. repeat constructor; by vm_compute.
Defined.

End StoreOps.

(** ** state.js: deleteRecord, updateRecord and setSort *)

Module RecordChanges.
Import JS State StateSpec SortProps StoreProps StoreOps.
Local Open Scope string_scope.
Local Open Scope list_scope.

(** X12: [deleteRecord] of an id that a record has returns the first record
    with that id and takes every record with that id out of the collection,
    also when several have it; the other records stay, in their order.  The
    collection left is handed to [saveRecords], and [findRecordById] of the
    id then finds nothing. *)
Theorem deleteRecord_removes_every_match (st : store) (i : jsstring) :
  Exists (fun r => id r = i) (records st) ->
  let r := deleteRecord i st in
  (exists pre x post,
      records st = pre ++ x :: post /\ Forall (fun y => id y <> i) pre
      /\ id x = i /\ r.1 = Some x)
  /\ records r.2 = filter (fun y => id y <> i) (records st)
  /\ Forall (fun y => id y <> i) (records r.2)
  /\ findRecordById i r.2 = None
  /\ saved r.2 = records r.2 :: saved st
  /\ currentSort r.2 = currentSort st
  /\ settings r.2 = settings st.
Proof.
  intros Hex r. unfold r, deleteRecord. clear r.
  destruct (findIndex i (records st)) as [n|] eqn:Ef.
  2:{ apply findIndex_None in Ef. apply Exists_exists in Hex as (x & Hin & Hx).
      rewrite Forall_forall in Ef. by apply Ef in Hin. }
  cbn [fst snd records set_records saveRecords currentSort settings saved].
  apply findIndex_Some in Ef as (pre & x & post & E & Hn & Hpre & Hx).
  assert (Forall (fun y => id y <> i) (filter (fun y => id y <> i) (records st))) as Hf.
  { apply Forall_forall. intros y Hy. by apply list_elem_of_filter in Hy as [? _]. }
  split.
  - exists pre, x, post. repeat split; try done.
    rewrite E, <- Hn. by rewrite lookup_app_r, Nat.sub_diag.
  - repeat split; try done.
    unfold findRecordById. cbn [records].
    destruct (list_find _ _) as [[k y]|] eqn:Ek; [|done].
    apply list_find_Some in Ek as (Hk & Hy & _). cbn beta in Hy.
    rewrite Forall_forall in Hf. apply list_elem_of_lookup_2, Hf in Hk. done.
Qed.

(** Two records with one id, as an import can bring them: both go. *)
Lemma deleteRecord_removes_every_match_witness :
  let st := Store [sample "a" 1; sample "b" 2; sample "a" 3]
              (settings initial) (currentSort initial) [] in
  (deleteRecord (lit "a") st).1 = Some (sample "a" 1)
  /\ records (deleteRecord (lit "a") st).2 = [sample "b" 2].
Proof.
  intros st.
  destruct (deleteRecord_removes_every_match st (lit "a"))
    as (_ & Hr & _); [by left|].
  split; [by vm_compute|]. rewrite Hr. by vm_compute.
Defined.

Section Store.
Context `{Collation}.

(** X13: [updateRecord] of an id that a record has rewrites the first record
    with that id: the id and the time of creation stay, the description is
    trimmed, the amount is what [parseFloat] reads, the time of the update
    is the clock's.  Afterwards the collection is a rearrangement of the one
    from before with that record replaced, it is in the current sort order,
    and it is the collection handed to [saveRecords]. *)
Theorem updateRecord_rewrites_first (st : store) (now i : jsstring)
  (recordData : RecordData.t) :
  consistent H ->
  Exists (fun r => id r = i) (records st) ->
  let r := updateRecord now i recordData st in
  exists pre old post,
    records st = pre ++ old :: post /\ Forall (fun y => id y <> i) pre /\ id old = i
    /\ let new :=
         Rec i (trim (RecordData.description recordData))
             (parseFloat (RecordData.amount recordData))
             (RecordData.category recordData) (RecordData.date recordData)
             (createdAt old) now in
       r.1 = Some new
       /\ records r.2 ≡ₚ pre ++ new :: post
       /\ in_order (compareRecords (key (currentSort st)) (direction (currentSort st)))
                   (records r.2) = true
       /\ currentSort r.2 = currentSort st
       /\ saved r.2 = records r.2 :: saved st.
Proof.
  intros Hc Hex r. unfold r, updateRecord. clear r.
  destruct (findIndex i (records st)) as [n|] eqn:Ef.
  2:{ apply findIndex_None in Ef. apply Exists_exists in Hex as (x & Hin & Hx).
      rewrite Forall_forall in Ef. by apply Ef in Hin. }
  apply findIndex_Some in Ef as (pre & old & post & E & Hn & Hpre & Hx).
  exists pre, old, post. split; [done|]. split; [done|]. split; [done|].
  assert (records st !! n = Some old) as ->.
  { rewrite E, <- Hn. by rewrite lookup_app_r, Nat.sub_diag. }
  unfold sortRecords.
  cbn [fst snd records set_records saveRecords set_currentSort currentSort saved].
  rewrite Hx. set (new := Rec _ _ _ _ _ _ _).
  set (cmp := compareRecords _ _).
  assert (<[n:=new]> (records st) = pre ++ new :: post) as ->.
  { rewrite E, <- Hn. rewrite insert_app_r_alt, Nat.sub_diag by done. done. }
  split; [done|]. split; [apply sort_Permutation|].
  split; [apply in_order_sort; by apply greater_asym|].
  split; [apply sort_eta | done].
Qed.

(** X14: [setSort] makes the key and the direction the current sort order and
    puts the collection in that order, keeping its records; the collection
    is handed to [saveRecords].  Setting the same order again leaves the
    collection as it is. *)
Theorem setSort_orders (st : store) (k d : string) :
  consistent H ->
  let st' := setSort k d st in
  currentSort st' = Sort k d
  /\ records st' ≡ₚ records st
  /\ in_order (compareRecords k d) (records st') = true
  /\ saved st' = records st' :: saved st
  /\ settings st' = settings st
  /\ records (setSort k d st') = records st'.
Proof.
  intros Hc st'. unfold st', setSort, sortRecords. clear st'.
  cbn [fst snd records set_records saveRecords set_currentSort currentSort saved
       settings].
  split; [done|]. split; [apply sort_Permutation|].
  split; [apply in_order_sort; by apply greater_asym|].
  split; [done|]. split; [done|].
  apply sort_idempotent. by apply greater_asym.
Qed.

End Store.

Lemma updateRecord_rewrites_first_witness :
  let r := @updateRecord unit_collation (lit "2024-03-02T09:00:00.000Z") (lit "a")
             lunch store_in_order in
  exists pre old post,
    records store_in_order = pre ++ old :: post /\ id old = lit "a"
    /\ r.1 = Some (Rec (lit "a") (lit "lunch") (Num (1250 # 100)) (lit "Food")
                       (lit "2024-03-01") (createdAt old)
                       (lit "2024-03-02T09:00:00.000Z")).
Proof.
  intros r.
  destruct (@updateRecord_rewrites_first unit_collation store_in_order
              (lit "2024-03-02T09:00:00.000Z") (lit "a") lunch
              unit_collation_consistent)
    as (pre & old & post & E & _ & Hid & Hr & _).
  { right. by left. }
  exists pre, old, post. split; [done|]. split; [done|]. exact Hr.
Defined.

Lemma setSort_orders_witness :
  records (@setSort unit_collation "amount" "asc" store_in_order)
  = [sample "a" 10; sample "b" 20]
  /\ in_order (@compareRecords unit_collation "amount" "asc")
       (records (@setSort unit_collation "amount" "asc" store_in_order)) = true.
Proof.
  split; [by vm_compute|].
  apply (@setSort_orders unit_collation store_in_order "amount" "asc"
           unit_collation_consistent).
Defined.

End RecordChanges.

(** ** state.js: getBudgetInfo and NaN *)

Module BudgetProps.
Import JS State StateSpec SortProps StoreProps StoreOps.
Local Open Scope string_scope.
Local Open Scope list_scope.

Lemma nadd_NaN_l a : nadd NaN a = NaN.
Proof. done. Qed.

Lemma foldl_nadd_NaN l : foldl (fun sum r => nadd sum (amount r)) NaN l = NaN.
Proof. induction l as [|x l IH]; [done|]. simpl. exact IH. Qed.

Lemma sum_amounts_NaN l :
  Exists (fun r => amount r = NaN) l -> sum_amounts l = NaN.
Proof.
  unfold sum_amounts. generalize (of_Z 0).
  induction l as [|x l IH]; intros acc Hex; [by apply Exists_nil in Hex|].
  simpl. apply Exists_cons in Hex as [Hx | Hl].
  - rewrite Hx. destruct acc; apply foldl_nadd_NaN.
  - by apply IH.
Qed.

(** X15: one record whose amount is NaN spoils the budget: the total spent
    and what remains are NaN, and the budget never counts as exceeded,
    whatever the other records and the budget cap are.  [addRecord] stores
    such an amount when the text it is given does not start with a number. *)
Theorem getBudgetInfo_NaN (st : store) :
  Exists (fun r => amount r = NaN) (records st) ->
  let b := getBudgetInfo st in
  totalSpent b = NaN /\ remaining b = NaN /\ isOverBudget b = false.
Proof.
  intros Hex b. unfold b, getBudgetInfo.
  cbn [totalSpent remaining isOverBudget].
  rewrite (sum_amounts_NaN _ Hex). by destruct (or_zero _).
Qed.

Lemma getBudgetInfo_NaN_witness :
  let st := (@addRecord unit_collation (lit "2024-03-01T10:00:00.000Z") (lit "u1")
               (RecordData.Make (lit "lunch") (lit "abc") (lit "Food") (lit "2024-03-01"))
               budget_sample).2 in
  totalSpent (getBudgetInfo st) = NaN /\ isOverBudget (getBudgetInfo st) = false.
Proof.
  intros st.
  destruct (getBudgetInfo_NaN st) as (H1 & _ & H3).
  - unfold st. apply Exists_exists.
    eexists (Rec _ _ _ _ _ _ _). split; [|reflexivity].
    vm_compute. left.
  - done.
Defined.

End BudgetProps.

(** ** app.js: handleFormSubmit *)

Module SubmitProps.
Import JS Regex JSDate Validators ValidatorsSpec PatternProps Formats State StateSpec
  SortProps StoreProps StoreOps Submit.
Local Open Scope string_scope.
Local Open Scope list_scope.

Section Submit.
Context `{Collation}.

Lemma records_addRecord now uuid recordData st :
  records (addRecord now uuid recordData st).2
  = State.sort (compareRecords (key (currentSort st)) (direction (currentSort st)))
      (Rec (lit "txn_" ++ uuid) (trim (RecordData.description recordData))
           (parseFloat (RecordData.amount recordData))
           (RecordData.category recordData) (RecordData.date recordData) now now
       :: records st).
Proof. done. Qed.

(** X16: what the submission of the form does to the store.  A form that is
    not valid leaves the store as it is.  A valid form without an id adds
    one record: its description and category are the sanitized ones, the
    description with no white space at its ends, its amount is a number
    above 0 and at most 999999.99, its date has the format of a date; the
    collection is a rearrangement of this record and the records from
    before. *)
Theorem handleFormSubmit_adds (h : host) (today now' : Z) (now uuid : jsstring)
  (vdescription vamount vcategory vdate : jsstring) (st : store) :
  let formData : form :=
    <["id" := []]> (<["description" := vdescription]> (<["amount" := vamount]>
      (<["category" := vcategory]> (<["date" := vdate]> ∅)))) in
  let valid := form_isValid (sanitizeAndValidateForm h today now' formData).2 in
  let st' := handleFormSubmit h today now' now uuid [] vdescription vamount
               vcategory vdate st in
  (valid = false -> st' = st)
  /\ (valid = true ->
      exists q,
        parseFloat vamount = Num q /\ (0 < q)%Q /\ (q <= 99999999 # 100)%Q
        /\ date_format vdate
        /\ description_format (sanitizeInput vdescription)
        /\ blank (sanitizeInput vcategory) = false
        /\ records st' ≡ₚ
             Rec (lit "txn_" ++ uuid) (sanitizeInput vdescription) (Num q)
                 (sanitizeInput vcategory) vdate now now :: records st).
Proof.
  intros formData valid st'. unfold st', handleFormSubmit. fold formData.
  destruct (sanitizeAndValidateForm h today now' formData) as [data validation] eqn:Es.
  assert (validation = validateForm h today now' data) as Hval.
  { pose proof (SanitizedForm.sanitizeAndValidateForm_validation h today now' formData)
      as E. by rewrite Es in E. }
  destruct (SanitizedForm.sanitizeAndValidateForm_data h today now' formData)
    as (H1 & H2 & H3 & H4 & H5).
  rewrite Es in H1, H2, H3, H4, H5. cbn [fst] in *.
  unfold formData in H1, H2, H3, H4, H5.
  rewrite lookup_insert_eq in H1.
  rewrite !lookup_insert_ne, lookup_insert_eq in H4 by done.
  rewrite !lookup_insert_ne, lookup_insert_eq in H2 by done.
  rewrite !lookup_insert_ne, lookup_insert_eq in H5 by done.
  rewrite !lookup_insert_ne, lookup_insert_eq in H3 by done.
  simpl in H4, H5.
  unfold valid. cbn [snd]. destruct (form_isValid validation) eqn:Hv.
  2:{ split; [done | by intros ?]. }
  split; [by intros ?|]. intros _.
  rewrite Hval in Hv. apply ValidForm.form_isValid_iff in Hv
    as ((d & Hd & Hfd) & (a & q & Ha & Hfa & Hq & Hpos & Hmax)
        & (t & Ht & Hft & _) & (c & Hc & Hbc)).
  rewrite H4 in Hd. rewrite H2 in Ha. rewrite H3 in Ht. rewrite H5 in Hc.
  injection Hd as <-. injection Ha as <-. injection Ht as <-. injection Hc as <-.
  exists q. do 6 (split; [done|]).
  rewrite H1, H2, H3, H4, H5. cbn [default truthy_str Datatypes.id].
  rewrite records_addRecord, sort_Permutation.
  cbn [RecordData.description RecordData.amount RecordData.category RecordData.date].
  by rewrite Hq, SanitizedForm.trim_sanitizeInput.
Qed.

End Submit.
(** A description with markup and blanks around it: the record holds what
    [sanitizeInput] leaves of it. *)
Lemma handleFormSubmit_adds_witness :
  let st' := @handleFormSubmit unit_collation (Host 0 true) 1709290000000 1709290000000
               (lit "2024-03-01T10:46:40.000Z") (lit "u1") []
               (lit " <b>lunch ") (lit "12.50") (lit "Food") (lit "2024-03-01")
               initial in
  exists q,
    parseFloat (lit "12.50") = Num q
    /\ records st' ≡ₚ
         [Rec (lit "txn_u1") (lit "blunch") (Num q) (lit "Food") (lit "2024-03-01")
              (lit "2024-03-01T10:46:40.000Z") (lit "2024-03-01T10:46:40.000Z")].
Proof.
  intros st'.
  pose proof (@handleFormSubmit_adds unit_collation (Host 0 true) 1709290000000
                1709290000000 (lit "2024-03-01T10:46:40.000Z") (lit "u1")
                (lit " <b>lunch ") (lit "12.50") (lit "Food") (lit "2024-03-01")
                initial) as Hs.
  cbv zeta in Hs. destruct Hs as [_ Hv].
  destruct Hv as (q & Hq & _ & _ & _ & _ & _ & Hp); [by vm_compute|].
  exists q. split; [exact Hq|].
  replace (sanitizeInput (lit " <b>lunch ")) with (lit "blunch") in Hp by (by vm_compute).
  replace (sanitizeInput (lit "Food")) with (lit "Food") in Hp by (by vm_compute).
  exact Hp.
Defined.

End SubmitProps.

(** ** Regular expression objects: test *)

Module SearchFacts.
Import JS Regex RegexFacts RegExpObject State StateSpec SearchRecords.
Local Open Scope string_scope.
Local Open Scope list_scope.

(** Where [search_from] finds its match: after a piece of the input that it
    skipped. *)
Lemma search_from_Some ic r sn rs c c' :
  search_from ic r sn rs = Some (c, c') ->
  exists u, rs = u ++ rest c /\ seen c = rev u ++ sn /\ caps c = ∅
            /\ Match ic r c c'.
Proof.
  revert sn. induction rs as [|x t IH]; intros sn; simpl.
  - destruct (m ic r (Cursor sn [] ∅) Some) as [c1|] eqn:E; [|done].
    intros [= <- <-]. apply m_sound in E as (c2 & HM & [= ->]).
    by exists [].
  - destruct (m ic r (Cursor sn (x :: t) ∅) Some) as [c1|] eqn:E.
    + intros [= <- <-]. apply m_sound in E as (c2 & HM & [= ->]).
      by exists [].
    + intros Hs. apply IH in Hs as (u & E1 & E2 & E3 & HM).
      exists (x :: u). split; [by rewrite E1|]. split; [|done].
      rewrite E2. simpl. by rewrite <- app_assoc.
Qed.

(** A match further on in the input is found by a search that starts
    earlier. *)
Lemma search_from_later ic r u sn rs :
  is_Some (search_from ic r (rev u ++ sn) rs) ->
  is_Some (search_from ic r sn (u ++ rs)).
Proof.
  revert sn. induction u as [|x u IH]; intros sn; [done|].
  simpl. rewrite <- app_assoc. intros Hs.
  destruct (m ic r (Cursor sn (x :: u ++ rs) ∅) Some); [done|].
  by apply IH.
Qed.

Lemma RegExp_test_flags re s :
  ignoreCase (RegExp_test re s).2 = ignoreCase re
  /\ global (RegExp_test re s).2 = global re
  /\ source (RegExp_test re s).2 = source re.
Proof.
  unfold RegExp_test. destruct (global re) eqn:Hg; [|done].
  destruct (_ <? _)%nat; [done|]. by destruct (search_from _ _ _ _) as [[? ?]|].
Qed.

(** What a test answers with the global flag is right when it is yes. *)
Lemma RegExp_test_sound re s :
  (RegExp_test re s).1 = true -> test (ignoreCase re) (source re) s = true.
Proof.
  unfold RegExp_test. destruct (global re); [|done].
  destruct (_ <? _)%nat; [done|].
  destruct (search_from _ _ _ _) as [[c c']|] eqn:E; [|done]. intros _.
  unfold test. apply bool_decide_eq_true.
  rewrite <- (take_drop (lastIndex re) s) at 1.
  apply search_from_later. rewrite app_nil_r, E. done.
Qed.

(** From [lastIndex] 0 a test is the search of the whole text, and a test
    that finds nothing leaves [lastIndex] at 0. *)
Lemma RegExp_test_start re s :
  lastIndex re = 0%nat ->
  (RegExp_test re s).1 = test (ignoreCase re) (source re) s
  /\ ((RegExp_test re s).1 = false -> (RegExp_test re s).2 = re).
Proof.
  intros H0. unfold RegExp_test. destruct (global re) eqn:Hg; [|done].
  rewrite H0. change (length s <? 0)%nat with false.
  change (rev (take 0 s)) with (@nil N). change (drop 0 s) with s. unfold test.
  destruct (search_from _ _ _ _) as [[c c']|] eqn:E; cbn [fst snd].
  - split; [|done]. symmetry. by apply bool_decide_eq_true.
  - split; [symmetry; apply bool_decide_eq_false; by intros [? ?]|].
    intros _. destruct re. simpl in *. by subst.
Qed.

Lemma RegExp_test_not_global re s :
  global re = false ->
  RegExp_test re s = (test (ignoreCase re) (source re) s, re).
Proof. intros Hg. unfold RegExp_test. by rewrite Hg. Qed.

Section Filter.
Context {A S : Type}.
Variable callback : A -> S -> bool * S.

Lemma filter_st_sublist (P : A -> Prop) (I : S -> Prop) a s :
  (forall x s, I s -> I (callback x s).2) ->
  (forall x s, I s -> (callback x s).1 = true -> P x) ->
  I s ->
  sublist (filter_st callback a s).1 a /\ Forall P (filter_st callback a s).1
  /\ I (filter_st callback a s).2.
Proof.
  intros HI HP. revert s. induction a as [|x a IH]; intros s Hs; simpl.
  - repeat split; [done | constructor | done].
  - destruct (callback x s) as [keep s1] eqn:Ec.
    pose proof (HI x s Hs) as Hs1. pose proof (HP x s Hs) as Hx.
    rewrite Ec in Hs1, Hx. simpl in *.
    destruct (IH s1 Hs1) as (Hsub & HF & HI2).
    destruct (filter_st callback a s1) as [kept s2]. simpl in *.
    destruct keep.
    + repeat split; [by apply sublist_skip | by constructor; auto | done].
    + repeat split; [by apply sublist_cons | done | done].
Qed.

(** A callback that leaves the state alone makes a plain filter. *)
Lemma filter_st_pure (p : A -> bool) a s :
  (forall x, callback x s = (p x, s)) ->
  filter_st callback a s = (filter (fun x => p x = true) a, s).
Proof.
  intros Hc. induction a as [|x a IH]; simpl; [done|].
  rewrite Hc, IH. destruct (p x) eqn:Hp.
  - by rewrite filter_cons_True.
  - rewrite filter_cons_False; [done|]. by rewrite Hp.
Qed.
End Filter.

End SearchFacts.

(** ** search.js: searchRecords *)

Module SearchRecordsProps.
Import JS Regex RegexFacts RegExpObject State StateSpec SearchRecords SearchFacts.
Local Open Scope string_scope.
Local Open Scope list_scope.

Section Search.
Context `{NumberHost}.

Lemma same_pattern_test re s t : same_pattern re s -> same_pattern re (RegExp_test s t).2.
Proof.
  intros (H1 & H2 & H3). destruct (RegExp_test_flags s t) as (F1 & F2 & F3).
  unfold same_pattern. by rewrite F1, F2, F3.
Qed.

Lemma test_sound re s t :
  same_pattern re s -> (RegExp_test s t).1 = true ->
  test (ignoreCase re) (source re) t = true.
Proof. intros (H1 & H2 & _) Ht. rewrite <- H1, <- H2. by apply RegExp_test_sound. Qed.

Lemma record_matches_sound re r s :
  same_pattern re s ->
  same_pattern re (record_matches r s).2
  /\ ((record_matches r s).1 = true -> some_field_matches re r = true).
Proof.
  intros Hs. unfold record_matches, or_else, some_field_matches.
  pose proof (test_sound re s (description r) Hs) as T1.
  pose proof (same_pattern_test re s (description r) Hs) as S1.
  destruct (RegExp_test s (description r)) as [[] s1]; cbn [fst snd] in *.
  { rewrite T1 by done. done. }
  pose proof (test_sound re s1 (category r) S1) as T2.
  pose proof (same_pattern_test re s1 (category r) S1) as S2.
  destruct (RegExp_test s1 (category r)) as [[] s2]; cbn [fst snd] in *.
  { rewrite T2 by done. by rewrite orb_true_r. }
  pose proof (test_sound re s2 (Number_toString (amount r)) S2) as T3.
  pose proof (same_pattern_test re s2 (Number_toString (amount r)) S2) as S3.
  destruct (RegExp_test s2 (Number_toString (amount r))) as [[] s3]; cbn [fst snd] in *.
  { rewrite T3 by done. by rewrite !orb_true_r. }
  pose proof (test_sound re s3 (date r) S3) as T4.
  pose proof (same_pattern_test re s3 (date r) S3) as S4.
  split; [done|]. intros Ht. rewrite T4 by done. by rewrite !orb_true_r.
Qed.

Lemma record_matches_start re r :
  lastIndex re = 0%nat -> (record_matches r re).1 = some_field_matches re r.
Proof.
  intros H0. unfold record_matches, or_else, some_field_matches.
  destruct (RegExp_test_start re (description r) H0) as [E1 K1].
  destruct (RegExp_test re (description r)) as [[] s1]; cbn [fst snd] in *.
  { by rewrite <- E1. }
  rewrite K1 by done. rewrite <- E1. cbn [orb].
  destruct (RegExp_test_start re (category r) H0) as [E2 K2].
  destruct (RegExp_test re (category r)) as [[] s2]; cbn [fst snd] in *.
  { by rewrite <- E2. }
  rewrite K2 by done. rewrite <- E2. cbn [orb].
  destruct (RegExp_test_start re (Number_toString (amount r)) H0) as [E3 K3].
  destruct (RegExp_test re (Number_toString (amount r))) as [[] s3]; cbn [fst snd] in *.
  { by rewrite <- E3. }
  rewrite K3 by done. rewrite <- E3. cbn [orb].
  by destruct (RegExp_test_start re (date r) H0) as [E4 _].
Qed.

Lemma record_matches_not_global re r :
  global re = false -> record_matches r re = (some_field_matches re r, re).
Proof.
  intros Hg. unfold record_matches, or_else, some_field_matches.
  rewrite (RegExp_test_not_global re _ Hg). cbn [fst snd].
  destruct (test _ _ (description r)); [done|]. cbn [fst snd orb].
  rewrite (RegExp_test_not_global re _ Hg). cbn [fst snd].
  destruct (test _ _ (category r)); [done|]. cbn [fst snd orb].
  rewrite (RegExp_test_not_global re _ Hg). cbn [fst snd].
  destruct (test _ _ (Number_toString (amount r))); [done|]. cbn [fst snd orb].
  by rewrite (RegExp_test_not_global re _ Hg).
Qed.

(** X17: [searchRecords] with a regular expression object.  The records it
    returns are records of the list, in their order, and each has a match of
    the pattern in its description, category, amount or date.  Without the
    global flag it returns all such records.  With the global flag the tests
    go on from where the last match ended: the first record is judged right
    when [lastIndex] is 0, but a later record that matches can be left out,
    as the second of two records with the description [lunch] is when the
    pattern is [lunch]. *)
Theorem searchRecords_sound (records : list State.record) (re : regexp) :
  let out := searchRecords records (Some re) in
  sublist out.1 records
  /\ Forall (fun r => some_field_matches re r = true) out.1
  /\ (global re = false ->
      out = (filter (fun r => some_field_matches re r = true) records, Some re))
  /\ (lastIndex re = 0%nat ->
      forall r rest, records = r :: rest ->
        (some_field_matches re r = true <-> exists kept, out.1 = r :: kept /\ sublist kept rest))
  /\ searchRecords [sample "a" 1; sample "b" 2]
       (Some (RegExpObj true true (text "lunch") 0))
     = ([sample "a" 1], Some (RegExpObj true true (text "lunch") 0)).
Proof.
  intros out. unfold out, searchRecords. clear out.
  destruct (filter_st_sublist record_matches
              (fun r => some_field_matches re r = true) (same_pattern re) records re)
    as (Hsub & HF & _).
  { intros x s Hs. by apply record_matches_sound. }
  { intros x s Hs. by apply record_matches_sound. }
  { done. }
  split; [by destruct (filter_st _ _ _)|].
  split; [by destruct (filter_st _ _ _)|].
  split; [|split].
  - intros Hg.
    rewrite (filter_st_pure record_matches (some_field_matches re)); [done|].
    intros x. by apply record_matches_not_global.
  - intros H0 r rest ->. simpl.
    pose proof (record_matches_start re r H0) as E.
    destruct (record_matches_sound re r re) as [Hs1 _]; [done|].
    destruct (record_matches r re) as [keep s1] eqn:Er. cbn [fst snd] in *. subst keep.
    destruct (filter_st_sublist record_matches
                (fun r => some_field_matches re r = true) (same_pattern re) rest s1)
      as (Hsub' & HF' & _).
    { intros x s Hs. by apply record_matches_sound. }
    { intros x s Hs. by apply record_matches_sound. }
    { done. }
    destruct (filter_st record_matches rest s1) as [kept s2]. cbn [fst] in *.
    destruct (some_field_matches re r) eqn:Em.
    + split; [|done]. intros _. by exists kept.
    + split; [done|]. intros (kept' & E & _). subst kept.
      apply Forall_cons in HF' as [Hr _]. congruence.
  - by vm_compute.
Qed.

End Search.
End SearchRecordsProps.

(** ** state.js and search.js: filterRecords and highlightMatches *)

Module HighlightProps.
Import JS Regex RegexFacts RegExpObject State StateSpec SearchRecords SearchFacts
  Formats.
Local Open Scope string_scope.
Local Open Scope list_scope.

Section Filter3.
Context `{NumberHost}.

Lemma record_matches3_sound re r s :
  same_pattern re s ->
  same_pattern re (record_matches3 r s).2
  /\ ((record_matches3 r s).1 = true -> some_of_three_matches re r = true).
Proof.
  intros Hs. unfold record_matches3, or_else, some_of_three_matches.
  pose proof (SearchRecordsProps.test_sound re s (description r) Hs) as T1.
  pose proof (SearchRecordsProps.same_pattern_test re s (description r) Hs) as S1.
  destruct (RegExp_test s (description r)) as [[] s1]; cbn [fst snd] in *.
  { rewrite T1 by done. done. }
  pose proof (SearchRecordsProps.test_sound re s1 (category r) S1) as T2.
  pose proof (SearchRecordsProps.same_pattern_test re s1 (category r) S1) as S2.
  destruct (RegExp_test s1 (category r)) as [[] s2]; cbn [fst snd] in *.
  { rewrite T2 by done. by rewrite orb_true_r. }
  pose proof (SearchRecordsProps.test_sound re s2 (Number_toString (amount r)) S2) as T3.
  pose proof (SearchRecordsProps.same_pattern_test re s2 (Number_toString (amount r)) S2) as S3.
  split; [done|]. intros Ht. rewrite T3 by done. by rewrite !orb_true_r.
Qed.

Lemma record_matches3_not_global re r :
  global re = false -> record_matches3 r re = (some_of_three_matches re r, re).
Proof.
  intros Hg. unfold record_matches3, or_else, some_of_three_matches.
  rewrite (RegExp_test_not_global re _ Hg). cbn [fst snd].
  destruct (test _ _ (description r)); [done|]. cbn [fst snd orb].
  rewrite (RegExp_test_not_global re _ Hg). cbn [fst snd].
  destruct (test _ _ (category r)); [done|]. cbn [fst snd orb].
  by rewrite (RegExp_test_not_global re _ Hg).
Qed.

(** X18: [filterRecords] of the store.  Without a regular expression it
    returns the records of the store.  With one, the records it returns are
    records of the store, in their order, each with a match of the pattern
    in its description, category or amount; a match in the date does not
    count.  Without the global flag these are all such records. *)
Theorem filterRecords_sound (st : store) (re : regexp) :
  filterRecords None st = (State.records st, None)
  /\ sublist (filterRecords (Some re) st).1 (State.records st)
  /\ Forall (fun r => some_of_three_matches re r = true) (filterRecords (Some re) st).1
  /\ (global re = false ->
      filterRecords (Some re) st
      = (filter (fun r => some_of_three_matches re r = true) (State.records st),
         Some re)).
Proof.
  split; [done|]. unfold filterRecords.
  destruct (filter_st_sublist record_matches3
              (fun r => some_of_three_matches re r = true) (same_pattern re)
              (State.records st) re)
    as (Hsub & HF & _).
  { intros x s Hs. by apply record_matches3_sound. }
  { intros x s Hs. by apply record_matches3_sound. }
  { done. }
  split; [by destruct (filter_st _ _ _)|].
  split; [by destruct (filter_st _ _ _)|].
  intros Hg.
  rewrite (filter_st_pure record_matches3 (some_of_three_matches re)); [done|].
  intros x. by apply record_matches3_not_global.
Qed.
End Filter3.

(** The pieces that a global replacement by [mark] makes of a text. *)
Lemma replace_with_pieces fuel ic r sn rs :
  exists pieces,
    replace_with fuel ic r mark sn rs = render pieces /\ unmarked pieces = rs.
Proof.
  revert sn rs. induction fuel as [|fuel IH]; intros sn rs; simpl.
  - exists [(false, rs)]. unfold render, unmarked. simpl. by rewrite !app_nil_r.
  - assert (exists pieces,
              match rs with
              | [] => []
              | x :: t => x :: replace_with fuel ic r mark (x :: sn) t
              end = render pieces /\ unmarked pieces = rs) as (ps & Es & Us).
    { destruct rs as [|x t]; [by exists []|].
      destruct (IH (x :: sn) t) as (ps & E & U).
      exists ((false, [x]) :: ps). unfold render, unmarked in *. simpl.
      by rewrite E, U. }
    destruct (m ic r (Cursor sn rs ∅) Some) as [c'|] eqn:E; [|by exists ps].
    apply m_sound in E as (c1 & HM & [= ->]).
    apply Match_reads in HM as (w & Hw & _). simpl in Hw.
    assert (take (length rs - length (rest c')) rs = w) as ->.
    { rewrite Hw, length_app, Nat.add_sub. by rewrite take_app_length. }
    destruct (length (rest c') <? length rs)%nat eqn:Hlt.
    + destruct (IH (seen c') (rest c')) as (ps' & E' & U').
      exists ((true, w) :: ps'). unfold render, unmarked in *. simpl.
      by rewrite E', U', Hw.
    + exists ((true, w) :: ps). unfold render, unmarked in *. simpl.
      rewrite Es, Us. split; [done|].
      assert (w = []) as ->; [|done].
      apply Nat.ltb_ge in Hlt as Hge.
      rewrite Hw, length_app in Hge. destruct w; [done | simpl in Hge; lia].
Qed.

Lemma escapeHtml_units text :
  Forall (fun x => x <> 60 /\ x <> 62 /\ x <> 34 /\ x <> 39) (escapeHtml text).
Proof.
  assert (forall c, c = 60 \/ c = 62 \/ c = 34 \/ c = 39 ->
            Forall (fun x => (x =? c)%N = false) (escapeHtml text)) as Hc.
  { intros c Hc. unfold escapeHtml.
    assert (forall s, forallb (fun x => negb (x =? c)%N) (lit s) = true ->
              Forall (fun x => (x =? c)%N = false) (lit s)) as Hlit.
    { intros s. apply SanitizeMore.Forall_lit. intros x. apply negb_true_iff. }
    destruct Hc as [-> | [-> | [-> | ->]]].
    - do 3 (apply replace_all_Forall; [by apply Hlit|]).
      apply (SanitizeMore.replace_all_class_repl (CLit 60)). by apply Hlit.
    - do 2 (apply replace_all_Forall; [by apply Hlit|]).
      apply (SanitizeMore.replace_all_class_repl (CLit 62)). by apply Hlit.
    - do 1 (apply replace_all_Forall; [by apply Hlit|]).
      apply (SanitizeMore.replace_all_class_repl (CLit 34)). by apply Hlit.
    - apply (SanitizeMore.replace_all_class_repl (CLit 39)). by apply Hlit. }
  pose proof (Hc 60) as H1. pose proof (Hc 62) as H2.
  pose proof (Hc 34) as H3. pose proof (Hc 39) as H4.
  rewrite Forall_forall in *. intros x Hx.
  specialize (H1 ltac:(auto) x Hx). specialize (H2 ltac:(auto) x Hx).
  specialize (H3 ltac:(auto) x Hx). specialize (H4 ltac:(auto) x Hx).
  apply N.eqb_neq in H1, H2, H3, H4. done.
Qed.

(** X19: [highlightMatches] with a regular expression object only puts
    [<mark>] and [</mark>] around pieces of the escaped text: without the
    marks its result is the escaped text, in which no [<], [>] or quote is
    left.  A global object has [lastIndex] 0 afterwards, unless the text is
    empty, which leaves the object alone.  Without a regular expression the
    text comes back as it is, not escaped. *)
Theorem highlightMatches_marks_escaped (text : jsstring) (re : regexp) :
  let out := highlightMatches text (Some re) in
  (exists pieces, out.1 = render pieces /\ unmarked pieces = escapeHtml text)
  /\ Forall (fun x => x <> 60 /\ x <> 62 /\ x <> 34 /\ x <> 39) (escapeHtml text)
  /\ (global re = true -> text <> [] -> out.2 = Some (set_lastIndex 0 re))
  /\ highlightMatches [] (Some re) = ([], Some re)
  /\ highlightMatches text None = (text, None).
Proof.
  intros out. split; [|split; [apply escapeHtml_units | split; [|done]]].
  - unfold out, highlightMatches. destruct text as [|x t]; [by exists []|].
    cbn [truthy_str negb]. set (s := escapeHtml (x :: t)).
    unfold String_replace. destruct (global re).
    + destruct (replace_with_pieces (S (length s)) (ignoreCase re) (source re) [] s)
        as (ps & E & U).
      exists ps. by rewrite <- E.
    + destruct (search_from _ _ _ _) as [[c c']|] eqn:E; cbn [fst].
      * apply search_from_Some in E as (u & E1 & E2 & _ & HM).
        apply Match_reads in HM as (w & Hw & _).
        exists [(false, u); (true, w); (false, rest c')].
        unfold render, unmarked. simpl. rewrite !app_nil_r.
        rewrite E2, app_nil_r, rev_involutive.
        assert (take (length (rest c) - length (rest c')) (rest c) = w) as ->.
        { rewrite Hw, length_app, Nat.add_sub. by rewrite take_app_length. }
        split; [done|]. by rewrite E1, Hw.
      * exists [(false, s)]. unfold render, unmarked. simpl. by rewrite !app_nil_r.
  - intros Hg Hne. unfold out, highlightMatches. destruct text as [|x t]; [done|].
    cbn [truthy_str negb]. unfold String_replace. by rewrite Hg.
Qed.

End HighlightProps.

(** ** search.js: validateRegexPattern *)

Module PatternCheckProps.
Import JS Regex Search SearchProps PatternCheck.
Local Open Scope string_scope.
Local Open Scope list_scope.

Lemma compileRegex1_clean `{RegExpHost} input :
  compileRegex1 input =
  if negb (truthy_str input) then None
  else if negb (truthy_str (cleanPattern input)) then None
  else RegExp_new (cleanPattern input) (lit "ig").
Proof. done. Qed.

(** X20: [validateRegexPattern] and [compileRegex] on one input that is not
    empty, on a host that agrees with ECMAScript on the patterns made of
    literal characters, [.], [|] and groups, for a pattern of that kind: the
    input is declared valid exactly when [compileRegex] gives a regular
    expression or the pattern is empty once trimmed and freed of its
    slashes.  An empty pattern, as in [//] or in blanks, is declared valid and
    compiles to [null]. *)
Theorem validateRegexPattern_agrees (h : RegExpHost)
  (SyntaxError_message : jsstring -> jsstring -> jsstring) (input : jsstring) :
  conforms h ->
  input <> [] ->
  parse_pattern (cleanPattern input) <> PNotModelled ->
  (pr_isValid (validateRegexPattern SyntaxError_message input) = true
   <-> cleanPattern input = [] \/ is_Some (compileRegex1 input))
  /\ (cleanPattern input = [] ->
      validateRegexPattern SyntaxError_message input
      = PatternResult true (lit "Valid regex pattern.")
      /\ compileRegex1 input = None).
Proof.
  intros Hc Hne Hp. rewrite compileRegex1_clean. unfold validateRegexPattern.
  destruct input as [|x t]; [done|]. cbn [truthy_str negb].
  pose proof (Hc (cleanPattern (x :: t)) (lit "i")) as Hi.
  pose proof (Hc (cleanPattern (x :: t)) (lit "ig")) as Hig.
  change (parse_flags (lit "i")) with (Some true) in Hi.
  change (parse_flags (lit "ig")) with (Some true) in Hig.
  destruct (parse_pattern (cleanPattern (x :: t))) as [r| |] eqn:Ep; [| |done].
  - destruct Hi as (o & -> & _), Hig as (o' & -> & _). cbn [pr_isValid].
    split.
    + split; [|done]. intros _.
      destruct (cleanPattern (x :: t)); [by left | by right].
    + by intros ->.
  - rewrite Hi, Hig. cbn [pr_isValid]. split.
    + split; [done|]. intros [E | Hs].
      * rewrite E in Ep. by vm_compute in Ep.
      * by destruct (truthy_str _); destruct Hs.
    + intros E. rewrite E in Ep. by vm_compute in Ep.
Qed.

Lemma validateRegexPattern_agrees_witness :
  validateRegexPattern (H := fragment_host) (fun _ _ => []) (lit " // ")
  = PatternResult true (lit "Valid regex pattern.")
  /\ @compileRegex1 fragment_host (lit " // ") = None.
Proof.
  apply (validateRegexPattern_agrees fragment_host (fun _ _ => []) (lit " // ")
           fragment_host_conforms); by vm_compute.
Defined.

End PatternCheckProps.

(** ** search.js: createCaseInsensitiveSearch *)

Module LiteralSearchProps.
Import JS Regex Search RegExpObject LiteralSearch LiteralSearchSpec RegexFacts SearchFacts.

Lemma replace_with_escape fuel sn rs :
  (length rs < fuel)%nat ->
  replace_with fuel false re_special (fun matched => 92 :: matched) sn rs
  = flat_map escape_unit rs.
Proof.
  revert sn rs. induction fuel as [|fuel IH]; intros sn rs Hl; [lia|].
  destruct rs as [|x t]; [done|].
  cbn [replace_with m re_special rest seen caps flat_map].
  change (class_mem false (COneOf special_units) x) with (is_special x).
  unfold escape_unit. cbn [length] in Hl.
  destruct (is_special x).
  - cbn [rest seen length].
    assert ((length t <? S (length t))%nat = true) as -> by (apply Nat.ltb_lt; lia).
    replace (S (length t) - length t)%nat with 1%nat by lia.
    cbn [take app]. f_equal. f_equal. apply IH. lia.
  - cbn [app]. f_equal. apply IH. lia.
Qed.

Lemma escaped_units s : escaped s = flat_map escape_unit s.
Proof.
  unfold escaped, String_replace. cbn [global ignoreCase source fst].
  apply replace_with_escape. lia.
Qed.

Lemma plain_term_unit_parse x :
  plain_term_unit x = true ->
  (x =? 124) = false /\ (x =? 41) = false /\ outside_fragment x = false
  /\ (x =? 40) = false /\ (x =? 46) = false.
Proof.
  unfold plain_term_unit, is_special.
  change special_units with [46; 42; 43; 63; 94; 36; 123; 125; 40; 41; 124; 91; 93; 92].
  change (outside_fragment x)
    with (existsb (N.eqb x) [94; 36; 92; 42; 43; 63; 91; 93; 123; 125] || (128 <=? x)).
  cbn [existsb]. rewrite andb_true_iff, negb_true_iff, !orb_false_iff, N.ltb_lt.
  intros [(E46 & E42 & E43 & E63 & E94 & E36 & E123 & E125 & E40 & E41 & E124 & E91
           & E93 & E92 & _) Hlt].
  rewrite E124, E41, E40, E46, E94, E36, E92, E42, E43, E63, E91, E93, E123, E125.
  repeat split; try done. cbn [orb]. apply N.leb_gt. lia.
Qed.

Lemma parse_alternative_chain term : forall fuel n,
  Forall (fun x => plain_term_unit x = true) term ->
  (length term < fuel)%nat ->
  parse_alternative fuel term n = POk (chain term, [], n).
Proof.
  induction term as [|x t IH]; intros fuel n Hp Hl.
  - destruct fuel; [simpl in Hl; lia | done].
  - destruct fuel as [|fuel]; [simpl in Hl; lia|].
    apply Forall_cons in Hp as [Hx Ht].
    destruct (plain_term_unit_parse x Hx) as (E1 & E2 & E3 & E4 & E5).
    cbn [parse_alternative]. rewrite E1, E2, E3, E4, E5. cbn [orb].
    rewrite (IH fuel n Ht) by (simpl in Hl; lia). done.
Qed.

Lemma has_outside_plain term :
  Forall (fun x => plain_term_unit x = true) term -> has_outside term = false.
Proof.
  unfold has_outside. induction 1 as [|x t Hx _ IH]; [done|].
  cbn [existsb]. rewrite IH. by destruct (plain_term_unit_parse x Hx) as (_ & _ & -> & _).
Qed.

Lemma parse_pattern_chain term :
  Forall (fun x => plain_term_unit x = true) term ->
  parse_pattern term = POk (chain term).
Proof.
  intros Hp. unfold parse_pattern. rewrite (has_outside_plain term Hp).
  replace (2 * length term + 2)%nat with (S (S (2 * length term))) by lia.
  cbn [parse_disjunction].
  rewrite (parse_alternative_chain term _ 0%nat Hp) by lia. done.
Qed.

(** What the chain of the units of [term] reads: a text like [term] but
    for the case of its letters. *)
Lemma Match_chain term : forall c c',
  Match true (chain term) c c' <->
  exists mid, rest c = mid ++ rest c' /\ seen c' = rev mid ++ seen c
              /\ caps c' = caps c
              /\ map canonicalize mid = map canonicalize term.
Proof.
  induction term as [|x t IH]; intros c c'; cbn [chain foldr].
  - split.
    + intros HM. inversion HM; subst. by exists [].
    + intros (mid & Hr & Hs & Hc & Hm). destruct mid; [|done].
      destruct c, c'; simpl in *; subst. constructor.
  - fold (chain t). split.
    + intros HM. inversion HM as [| | | | | r1 r2 c0 c1 c2 H1 H2 | | | | | | |]; subst.
      inversion H1 as [|cl y u sn cp Hy| | | | | | | | | | |]; subst.
      apply IH in H2 as (mid & Hr & Hs & Hc & Hm). simpl in *.
      exists (y :: mid). subst u. cbn [rev map app].
      rewrite Hs, Hc, Hm, <- app_assoc. repeat split; try done.
      f_equal. by apply N.eqb_eq.
    + intros (mid & Hr & Hs & Hc & Hm).
      destruct mid as [|y mid]; [done|]. cbn [map] in Hm. injection Hm as Hy Hm.
      destruct c as [sn rs cp]. simpl in Hr, Hs, Hc. subst rs.
      apply (M_Seq true _ _ _ (Cursor (y :: sn) (mid ++ rest c') cp)).
      * constructor. simpl. by apply N.eqb_eq.
      * apply IH. exists mid. simpl. repeat split; try done.
        by rewrite Hs; cbn [rev]; rewrite <- app_assoc.
Qed.

(** [test] finds the matches of the relation. *)
Lemma test_Match ic r s :
  test ic r s = true <->
  exists u v c', s = u ++ v /\ Match ic r (Cursor (rev u) v ∅) c'.
Proof.
  unfold test. rewrite bool_decide_eq_true. split.
  - intros [[c c'] Hs]. apply search_from_Some in Hs as (u & Hr & Hsn & Hc & HM).
    exists u, (rest c), c'. split; [done|].
    destruct c as [sn rs cp]. simpl in *. subst. by rewrite app_nil_r in HM.
  - intros (u & v & c' & -> & HM).
    apply search_from_later. rewrite app_nil_r.
    assert (is_Some (m ic r (Cursor (rev u) v ∅) Some)) as [a Ha]
      by (eapply m_complete; [exact HM | done]).
    destruct v; simpl; by rewrite Ha.
Qed.

Lemma test_chain term s :
  test true (chain term) s = true <-> contains_ignoring_case s term.
Proof.
  rewrite test_Match. unfold contains_ignoring_case. split.
  - intros (u & v & c' & -> & HM). apply Match_chain in HM as (mid & Hr & _ & _ & Hm).
    simpl in Hr. exists u, mid, (rest c'). by rewrite <- Hr.
  - intros (pre & mid & post & -> & Hm).
    exists pre, (mid ++ post), (Cursor (rev mid ++ rev pre) post ∅).
    split; [done|]. apply Match_chain. by exists mid.
Qed.

(** X21: [createCaseInsensitiveSearch] puts a backslash before every unit of
    the class [.*+?^${}()|[\]\\] of the term and leaves the other units as
    they are; the empty term gives [null].  On a host that agrees with
    ECMAScript on the patterns of literal characters, a term of ASCII units
    without a unit of the class gives a regular expression that finds a match
    in exactly the texts that hold the term, the case of the letters of ASCII
    set aside. *)
Theorem createCaseInsensitiveSearch_literal (h : RegExpHost) (searchTerm : jsstring) :
  conforms h ->
  escaped searchTerm = flat_map escape_unit searchTerm
  /\ createCaseInsensitiveSearch [] = None
  /\ (searchTerm <> [] ->
      Forall (fun x => plain_term_unit x = true) searchTerm ->
      exists o, createCaseInsensitiveSearch searchTerm = Some o
                /\ forall s, matches o s = true <-> contains_ignoring_case s searchTerm).
Proof.
  intros Hh. split; [apply escaped_units|]. split; [done|].
  intros Hne Hp. unfold createCaseInsensitiveSearch.
  destruct searchTerm as [|x t] eqn:E; [done|]. rewrite <- E in *.
  assert (truthy_str searchTerm = true) as -> by (by rewrite E).
  cbn [negb].
  assert (escaped searchTerm = searchTerm) as ->.
  { rewrite escaped_units. clear E Hne. induction Hp as [|y u Hy _ IH]; [done|].
    cbn [flat_map]. rewrite IH. unfold escape_unit.
    unfold plain_term_unit in Hy. apply andb_true_iff in Hy as [Hy _].
    apply negb_true_iff in Hy. by rewrite Hy. }
  specialize (Hh searchTerm (lit "gi")).
  rewrite (parse_pattern_chain searchTerm Hp) in Hh.
  change (parse_flags (lit "gi")) with (Some true) in Hh.
  destruct Hh as (o & Ho & Hm). exists o. split; [done|].
  intros s. rewrite Hm. apply test_chain.
Qed.

Lemma createCaseInsensitiveSearch_literal_witness :
  escaped (lit "a.b") = lit "a\.b"
  /\ exists o, @createCaseInsensitiveSearch fragment_host (lit "lunch") = Some o
               /\ matches o (lit "My LUNCH") = true.
Proof.
  split; [by vm_compute|].
  destruct (createCaseInsensitiveSearch_literal fragment_host (lit "lunch")
              SearchProps.fragment_host_conforms) as (_ & _ & Hs).
  destruct Hs as (o & Ho & Hm); [done | repeat constructor |].
  exists o. split; [exact Ho|]. apply Hm.
  exists (lit "My "), (lit "LUNCH"), []. split; by vm_compute.
Defined.

End LiteralSearchProps.

(** ** storage.js: saving and loading *)

Module LocalStorageProps.
Import JS Storage LocalStorage.
Local Open Scope string_scope.
Local Open Scope list_scope.

Section Storage.
Context `{JsonHost} `{StorageHost}.

Lemma save_true key v ls ls' :
  save key v ls = (true, ls') -> available = true /\ ls' = <[key := v]> ls.
Proof.
  unfold save, setItem. destruct available; [|done].
  destruct (has_room _); [|done]. by intros [= <-].
Qed.

Lemma save_false key v ls ls' : save key v ls = (false, ls') -> ls' = ls.
Proof.
  unfold save, setItem. destruct (available && has_room _); [done|]. by intros [= <-].
Qed.

(** X22: the theme and the records that were saved are the ones loaded.
    After a [saveTheme] that succeeded, [loadTheme] gives the theme saved,
    and ["light"] for the empty theme; a [saveTheme] that failed leaves the
    items as they were; [loadTheme] never gives the empty text.  After a
    [saveRecords] that succeeded, [loadRecords] gives the records saved,
    provided the host's [JSON.parse] reads back what its [JSON.stringify]
    wrote. *)
Theorem saved_is_loaded (ls : items) :
  truthy_str (loadTheme ls) = true
  /\ (forall theme ls',
        saveTheme theme ls = (true, ls') ->
        loadTheme ls' = (if truthy_str theme then theme else lit "light")
        /\ loadRecords ls' = loadRecords ls
        /\ loadSettings ls' = loadSettings ls)
  /\ (forall theme ls', saveTheme theme ls = (false, ls') -> ls' = ls)
  /\ (forall records ls',
        saveRecords records ls = (true, ls') ->
        JSON_stringify records <> [] ->
        JSON_parse (JSON_stringify records) = inl records ->
        loadRecords ls' = records /\ loadTheme ls' = loadTheme ls).
Proof.
  split; [|split; [|split]].
  - unfold loadTheme, getItem. destruct available; [|done].
    destruct (ls !! STORAGE_KEYS.THEME) as [[|x t]|]; done.
  - intros theme ls' Hs. apply save_true in Hs as [Ha ->].
    unfold loadTheme, loadRecords, loadSettings, getItem. rewrite Ha.
    rewrite lookup_insert_eq, !lookup_insert_ne by done. done.
  - intros theme ls'. apply save_false.
  - intros records ls' Hs Hne Hp. apply save_true in Hs as [Ha ->].
    unfold loadTheme, loadRecords, getItem. rewrite Ha.
    rewrite lookup_insert_eq, lookup_insert_ne by done.
    rewrite Hp. by destruct (JSON_stringify records).
Qed.

(** X23: after a [clearAllData] that succeeded the three loads give their
    defaults, no record, [DEFAULT_SETTINGS] and the theme ["light"], and
    every other item of [localStorage] is as before; it fails exactly when
    [localStorage] cannot be used, and then nothing is removed. *)
Theorem clearAllData_resets (ls : items) :
  let r := clearAllData ls in
  r.1 = available
  /\ (r.1 = true ->
      loadRecords r.2 = JArr [] /\ loadSettings r.2 = DEFAULT_SETTINGS
      /\ loadTheme r.2 = lit "light"
      /\ forall k, k <> STORAGE_KEYS.RECORDS -> k <> STORAGE_KEYS.SETTINGS ->
                   k <> STORAGE_KEYS.THEME -> r.2 !! k = ls !! k)
  /\ (r.1 = false -> r.2 = ls).
Proof.
  intros r. unfold r, clearAllData, removeItem. clear r.
  destruct available eqn:Ha; [|done]. cbn [bind fst snd].
  split; [done|]. split; [|done]. intros _.
  unfold loadRecords, loadSettings, loadTheme, getItem. rewrite Ha.
  repeat split.
  - by rewrite lookup_delete_ne, lookup_delete_ne, lookup_delete_eq.
  - by rewrite lookup_delete_ne, lookup_delete_eq.
  - by rewrite lookup_delete_eq.
  - intros k H1 H2 H3. by rewrite !lookup_delete_ne.
Qed.

(** X24: the settings that [loadSettings] gives have every key of
    [DEFAULT_SETTINGS], whatever is stored; a key that the stored object has
    comes with the stored value, every other key of the defaults with its
    default. *)
Theorem loadSettings_has_defaults (ls : items) (k : jsstring) :
  (is_Some (DEFAULT_SETTINGS !! k) -> is_Some (loadSettings ls !! k))
  /\ (forall storedSettings props,
        available = true ->
        ls !! STORAGE_KEYS.SETTINGS = Some storedSettings ->
        JSON_parse storedSettings = inl (JObj props) ->
        storedSettings <> [] ->
        loadSettings ls !! k =
        match props !! k with Some v => Some v | None => DEFAULT_SETTINGS !! k end).
Proof.
  split.
  - intros Hd. unfold loadSettings.
    destruct (getItem _ _) as [[s|]|]; try done.
    destruct (truthy_str s); [|done].
    destruct (JSON_parse s) as [v|]; [|done].
    rewrite lookup_union. destruct Hd as [d ->].
    by destruct (spread v !! k).
  - intros s props Ha Hs Hp Hne. unfold loadSettings, getItem. rewrite Ha, Hs, Hp.
    destruct s; [done|]. cbn [truthy_str spread].
    rewrite lookup_union.
    by destruct (props !! k) as [v|], (DEFAULT_SETTINGS !! k).
Qed.

End Storage.
End LocalStorageProps.

(** ** state.js: getDashboardStats *)

Module DashboardProps.
Import JS State StateSpec Dashboard.
Local Open Scope string_scope.
Local Open Scope list_scope.

Lemma get_count_count_one name counts k :
  default 0%nat (get_count (count_one name counts) k)
  = (default 0%nat (get_count counts k) + (if bool_decide (name = k) then 1 else 0))%nat.
Proof.
  induction counts as [|[k' n] counts IH]; simpl.
  - by repeat case_bool_decide.
  - repeat case_bool_decide; subst; simpl; repeat case_bool_decide; subst;
      simpl; try done; try lia.
    all: rewrite IH; by rewrite ?bool_decide_eq_true_2, ?bool_decide_eq_false_2 by done.
Qed.

Lemma keys_count_one name counts k :
  k ∈ (count_one name counts).*1 <-> k = name \/ k ∈ counts.*1.
Proof.
  induction counts as [|[k' n] counts IH]; simpl.
  - rewrite list_elem_of_singleton, elem_of_nil. tauto.
  - case_bool_decide; subst; simpl; rewrite !elem_of_cons; [tauto|].
    rewrite IH. tauto.
Qed.

Lemma sum_count_one name counts :
  sum_list (count_one name counts).*2 = S (sum_list counts.*2).
Proof.
  induction counts as [|[k' n] counts IH]; simpl; [done|].
  case_bool_decide; [done|].
  change (n + sum_list (count_one name counts).*2 = S (n + sum_list counts.*2))%nat.
  rewrite IH. lia.
Qed.

Lemma get_count_keys counts k :
  is_Some (get_count counts k) <-> k ∈ counts.*1.
Proof.
  induction counts as [|[k' n] counts IH]; simpl.
  - rewrite elem_of_nil. split; [by intros [? ?] | done].
  - rewrite elem_of_cons. case_bool_decide; subst.
    + split; [by left | done].
    + rewrite IH. split; [by right | by intros [? | ?]].
Qed.

(** The counts after the records, from the counts before them. *)
Lemma categoryCounts_fold records c0 c :
  foldl (fun counts r =>
           match counts with
           | Some c => if inherited (category r) then None
                       else Some (count_one (category r) c)
           | None => None
           end) (Some c0) records = Some c ->
  Forall (fun r => inherited (category r) = false) records
  /\ (forall k, default 0%nat (get_count c k)
                = (default 0%nat (get_count c0 k) + count_of k records)%nat)
  /\ (forall k, k ∈ c.*1 <-> k ∈ c0.*1 \/ exists r, r ∈ records /\ category r = k)
  /\ sum_list c.*2 = (sum_list c0.*2 + length records)%nat.
Proof.
  revert c0. induction records as [|r records IH]; intros c0; simpl.
  - intros [= ->]. split; [done|]. split; [intros k; unfold count_of; simpl; lia|].
    split; [|lia]. intros k. split; [by left|]. intros [?|(r & Hr & _)]; [done|].
    by apply elem_of_nil in Hr.
  - destruct (inherited (category r)) eqn:Hi.
    { intros Hf. exfalso. clear -Hf. induction records as [|x l IHl]; [done|]. by apply IHl. }
    intros Hf. apply IH in Hf as (HF & Hc & Hk & Hs).
    split; [by constructor|]. split; [|split].
    + intros k. rewrite Hc, get_count_count_one. unfold count_of.
      rewrite filter_cons. case_bool_decide; case_decide; subst; simpl; try done; lia.
    + intros k. rewrite Hk, keys_count_one. split.
      * intros [[-> | ?] | (x & Hx & Ex)]; [right; exists r; split; [by left | done]
                                            | by left
                                            | right; exists x; split; [by right | done]].
      * intros [? | (x & Hx & Ex)]; [by left; right|].
        apply elem_of_cons in Hx as [-> | Hx]; [by left; left|].
        right. by exists x.
    + rewrite Hs, sum_count_one. lia.
Qed.

Lemma categoryCounts_None records :
  Forall (fun r => inherited (category r) = false) records ->
  forall c0, is_Some (foldl (fun counts r =>
           match counts with
           | Some c => if inherited (category r) then None
                       else Some (count_one (category r) c)
           | None => None
           end) (Some c0) records).
Proof.
  induction 1 as [|r records Hr HF IH]; intros c0; simpl; [done|].
  rewrite Hr. apply IH.
Qed.

Lemma insert_index_Permutation k l : insert_index k l ≡ₚ k :: l.
Proof.
  induction l as [|k' l IH]; simpl; [done|].
  destruct (_ <? _)%Z; [done|]. rewrite IH. apply Permutation_swap.
Qed.

Lemma Object_keys_Permutation counts : Object_keys counts ≡ₚ counts.*1.
Proof.
  unfold Object_keys. generalize (counts.*1). intros l.
  assert (forall l', foldr insert_index [] l' ≡ₚ l') as Hs.
  { induction l' as [|k l' IH]; simpl; [done|].
    by rewrite insert_index_Permutation, IH. }
  rewrite Hs. induction l as [|k l IH]; [done|].
  rewrite !filter_cons. destruct (is_array_index k) eqn:Hk.
  - rewrite decide_True, decide_False by done. simpl. by rewrite IH.
  - rewrite decide_False, decide_True by done.
    rewrite <- Permutation_middle. by rewrite IH.
Qed.

(** The key that the reduction keeps has a count that no key of the list
    exceeds. *)
Lemma foldl_top (cnt : jsstring -> nat) keys k :
  let top := foldl (fun a b => if (cnt b <? cnt a)%nat then a else b) k keys in
  top ∈ k :: keys /\ forall x, x ∈ k :: keys -> (cnt x <= cnt top)%nat.
Proof.
  revert k. induction keys as [|b keys IH]; intros k; simpl.
  - split; [by left|]. intros x Hx. apply list_elem_of_singleton in Hx. by subst.
  - destruct (cnt b <? cnt k)%nat eqn:Hlt.
    + destruct (IH k) as [Hin Hmax]. split.
      * apply elem_of_cons in Hin as [-> | Hin]; [by left | by right; right].
      * intros x Hx. apply elem_of_cons in Hx as [-> | Hx]; [apply Hmax; by left|].
        apply elem_of_cons in Hx as [-> | Hx].
        -- apply Nat.ltb_lt in Hlt. specialize (Hmax k ltac:(by left)). lia.
        -- apply Hmax. by right.
    + destruct (IH b) as [Hin Hmax]. split; [by right|].
      intros x Hx. apply elem_of_cons in Hx as [-> | Hx]; [|by apply Hmax].
      apply Nat.ltb_ge in Hlt. specialize (Hmax b ltac:(by left)). lia.
Qed.

(** X25: the counts of the dashboard, for records none of whose categories is
    a name inherited from [Object.prototype].  [totalRecords] is the number
    of records and the sum of the counts; the count of a category is the
    number of records that have it; without records the top category is
    ['N/A'], and with records it is the category of a record and no category
    has more records. *)
Theorem getDashboardStats_counts (st : store) :
  Forall (fun r => inherited (category r) = false) (records st) ->
  exists d,
    getDashboardStats st = Some d
    /\ totalRecords d = length (records st)
    /\ sum_list (dc_categoryCounts d).*2 = totalRecords d
    /\ (forall k, default 0%nat (get_count (dc_categoryCounts d) k)
                  = count_of k (records st))
    /\ (records st = [] -> topCategoryByCount d = lit "N/A")
    /\ (records st <> [] ->
        (exists r, r ∈ records st /\ category r = topCategoryByCount d)
        /\ forall k, (count_of k (records st)
                      <= count_of (topCategoryByCount d) (records st))%nat).
Proof.
  intros HF. unfold getDashboardStats, categoryCounts.
  destruct (categoryCounts_None _ HF []) as [c Hc]. rewrite Hc. simpl.
  eexists. split; [done|]. cbn [totalRecords dc_categoryCounts topCategoryByCount].
  apply categoryCounts_fold in Hc as (_ & Hcnt0 & Hkeys & Hsum).
  assert (forall k, default 0%nat (get_count c k) = count_of k (records st)) as Hcnt.
  { intros k. by rewrite Hcnt0. }
  split; [done|]. split; [by rewrite Hsum|]. split; [done|].
  split.
  - intros E. rewrite E in Hkeys. unfold top_category.
    destruct (Object_keys c) as [|k keys] eqn:Ek; [done|].
    assert (k ∈ c.*1) as Hk.
    { rewrite <- Object_keys_Permutation, Ek. by left. }
    apply Hkeys in Hk as [Hk | (r & Hr & _)]; by apply elem_of_nil in Hk || by apply elem_of_nil in Hr.
  - intros Hne. unfold top_category.
    destruct (Object_keys c) as [|k keys] eqn:Ek.
    { destruct (records st) as [|r l] eqn:Er; [done|].
      assert (category r ∈ c.*1) as Hin.
      { apply Hkeys. right. exists r. split; [by left | done]. }
      rewrite <- Object_keys_Permutation, Ek in Hin. by apply elem_of_nil in Hin. }
    destruct (foldl_top (fun x => default 0%nat (get_count c x)) keys k) as [Hin Hmax].
    set (top := foldl _ k keys) in *. split.
    + rewrite <- Ek, Object_keys_Permutation in Hin.
      apply Hkeys in Hin as [Hin | ?]; [by apply elem_of_nil in Hin | done].
    + intros x. rewrite <- !Hcnt. simpl.
      destruct (decide (x ∈ c.*1)) as [Hx | Hx].
      * apply Hmax. by rewrite <- Ek, Object_keys_Permutation.
      * assert (get_count c x = None) as ->; [|simpl; lia].
        apply eq_None_not_Some. by rewrite get_count_keys.
Qed.

Lemma getDashboardStats_counts_witness :
  exists d,
    getDashboardStats
      (Store [sample "a" 1; sample "b" 2] (settings initial) (currentSort initial) [])
    = Some d
    /\ totalRecords d = 2%nat /\ topCategoryByCount d = lit "Food".
Proof.
  destruct (getDashboardStats_counts
              (Store [sample "a" 1; sample "b" 2] (settings initial)
                     (currentSort initial) []))
    as (d & Hd & Ht & _).
  { repeat constructor; by vm_compute. }
  exists d. split; [done|]. split; [done|].
  vm_compute in Hd. by injection Hd as <-.
Defined.

End DashboardProps.

(** ** Dates: days and ISO texts *)

Module TrendFacts.
Import JS JSDate State StateSpec Trend EraCheck ZoneSpec DateProps.
Local Open Scope Z_scope.
Local Open Scope list_scope.

















End TrendFacts.

(** ** state.js: getSevenDayTrend *)

Module TrendProps.
Import JS JSDate State StateSpec Trend EraCheck ZoneSpec DateProps TrendFacts.
Local Open Scope Z_scope.
Local Open Scope list_scope.









End TrendProps.
